(** * XBoard dashboard: the data-freshness and auto-remediation loop

    A shallow embedding of [src/app/components/Dashboard.tsx]: the
    display state of the [Dashboard] component, its three asynchronous
    operations ([fetchAllData], [setupWebhooksAutomatically],
    [handleManualRefresh]), the polling effect, and the derived
    [avgOrderValue].

    The asynchronous code is modelled as an event-loop machine: every
    [await] of the source is a suspended task of the world, and every
    arrival from the environment (a network reply, a millisecond of
    time, a click, an effect run) is one event handled to completion,
    as JavaScript's run-to-completion semantics has it. *)

From Stdlib Require Import ZArith Lia Bool Ascii String List.
From stdpp Require Import base option list strings gmap.
Import ListNotations.
Local Open Scope Z_scope.

(** ** JavaScript numbers

    [Number(s)], [/], [>] and [Math.round] are the only numeric
    operations of the component.  A double is kept exactly: a finite
    value is [(-1)^neg * m * 2^e] with [m] odd (or [m = 0], [e = 0]),
    so equal doubles are equal terms.  Every operation computes the
    exact rational result and rounds it once, to nearest, ties to even,
    as IEEE 754 binary64 does. *)
Module JS.

Inductive number : Type :=
| NaN
| Inf (neg : bool)
| Fin (neg : bool) (m : Z) (e : Z).

Definition zero : number := Fin false 0 0.

Fixpoint strip (p : positive) (e : Z) : positive * Z :=
  match p with
  | xO p' => strip p' (e + 1)
  | _ => (p, e)
  end.

(** The canonical finite double of value [m * 2^e], [m >= 0]. *)
Definition normal (neg : bool) (m e : Z) : number :=
  match m with
  | Zpos p => let '(p', e') := strip p e in Fin neg (Zpos p') e'
  | _ => Fin neg 0 0
  end.

(** [round_ratio neg n d]: the double nearest to [n / d] ([n, d > 0]),
    ties to even, with gradual underflow below [2^-1022] and overflow
    to infinity from [2^1024 - 2^970] on. *)
Definition round_ratio (neg : bool) (n d : Z) : number :=
  let l := Z.log2 n - Z.log2 d in
  let below :=
    if 0 <=? l then n <? d * 2 ^ l else n * 2 ^ (- l) <? d in
  let k := if below then l - 1 else l in
  let u := Z.max (k - 52) (-1074) in
  let num := n * 2 ^ Z.max 0 (- u) in
  let den := d * 2 ^ Z.max 0 u in
  let q := num / den in
  let r := num mod den in
  let q' :=
    if 2 * r <? den then q
    else if den <? 2 * r then q + 1
    else if Z.even q then q else q + 1 in
  if q' =? 0 then Fin neg 0 0
  else if 1024 <=? Z.log2 q' + u then Inf neg
  else normal neg q' u.

(** A mathematical integer as a double (exact below [2^53]). *)
Definition of_Z (z : Z) : number :=
  match z with
  | Z0 => zero
  | Zpos _ => round_ratio false z 1
  | Zneg p => round_ratio true (Zpos p) 1
  end.

(** *** [Number(string)]: the StringToNumber grammar *)

(** White space and line terminators among the code units below 256. *)
Definition is_space (c : ascii) : bool :=
  let n := N_of_ascii c in
  ((9 <=? n) && (n <=? 13))%N || (n =? 32)%N || (n =? 160)%N.

Definition digit_of (c : ascii) : option Z :=
  let n := Z.of_N (N_of_ascii c) in
  if (48 <=? n) && (n <=? 57) then Some (n - 48)
  else if (97 <=? n) && (n <=? 102) then Some (n - 87)
  else if (65 <=? n) && (n <=? 70) then Some (n - 55)
  else None.

(** The digits of [cs] in radix [b], most significant first; [None]
    when [cs] is empty or holds anything else. *)
Fixpoint digits_from (b : Z) (acc : Z) (cs : list ascii) : option Z :=
  match cs with
  | [] => Some acc
  | c :: cs' =>
      match digit_of c with
      | Some v => if v <? b then digits_from b (acc * b + v) cs' else None
      | None => None
      end
  end.

Definition digits (b : Z) (cs : list ascii) : option Z :=
  match cs with
  | [] => None
  | _ => digits_from b 0 cs
  end.

Definition is_dec (c : ascii) : bool :=
  let n := N_of_ascii c in ((48 <=? n) && (n <=? 57))%N.

Fixpoint span_dec (cs : list ascii) : list ascii * list ascii :=
  match cs with
  | c :: cs' =>
      if is_dec c then let '(ds, rest) := span_dec cs' in (c :: ds, rest)
      else ([], cs)
  | [] => ([], [])
  end.

Fixpoint drop_spaces (cs : list ascii) : list ascii :=
  match cs with
  | c :: cs' => if is_space c then drop_spaces cs' else cs
  | [] => []
  end.

Definition trim (cs : list ascii) : list ascii :=
  rev (drop_spaces (rev (drop_spaces cs))).

Definition take_sign (cs : list ascii) : bool * list ascii :=
  match cs with
  | "-"%char :: cs' => (true, cs')
  | "+"%char :: cs' => (false, cs')
  | _ => (false, cs)
  end.

(** [ExponentPart]: absent, or [e]/[E], a sign and at least one digit. *)
Definition exponent (cs : list ascii) : option Z :=
  match cs with
  | [] => Some 0
  | c :: cs' =>
      if (Ascii.eqb c "e" || Ascii.eqb c "E")%bool then
        let '(neg, ds) := take_sign cs' in
        match digits 10 ds with
        | Some v => Some (if neg then - v else v)
        | None => None
        end
      else None
  end.

(** The value [m * 10^x] of a decimal literal, rounded once. *)
Definition decimal (neg : bool) (m x : Z) : number :=
  if m =? 0 then Fin neg 0 0
  else if 0 <=? x then round_ratio neg (m * 10 ^ x) 1
  else round_ratio neg m (10 ^ (- x)).

(** [StrUnsignedDecimalLiteral] after the sign. *)
Definition unsigned_decimal (neg : bool) (cs : list ascii) : number :=
  if decide (cs = list_ascii_of_string "Infinity") then Inf neg
  else
    let '(ip, rest) := span_dec cs in
    let '(fp, rest') :=
      match rest with
      | "."%char :: r => span_dec r
      | _ => ([], rest)
      end in
    match ip ++ fp with
    | [] => NaN
    | ds =>
        match digits_from 10 0 ds, exponent rest' with
        | Some m, Some x => decimal neg m (x - Z.of_nat (List.length fp))
        | _, _ => NaN
        end
    end.

Definition radix_literal (b : Z) (cs : list ascii) : number :=
  match digits b cs with
  | Some v => of_Z v
  | None => NaN
  end.

Definition Number (s : string) : number :=
  match trim (list_ascii_of_string s) with
  | [] => zero
  | "0"%char :: "x"%char :: cs | "0"%char :: "X"%char :: cs =>
      radix_literal 16 cs
  | "0"%char :: "o"%char :: cs | "0"%char :: "O"%char :: cs =>
      radix_literal 8 cs
  | "0"%char :: "b"%char :: cs | "0"%char :: "B"%char :: cs =>
      radix_literal 2 cs
  | cs => let '(neg, cs') := take_sign cs in unsigned_decimal neg cs'
  end.

(** *** [x > y] *)

(** The order of two finite doubles, as exact values. *)
Definition fin_compare (n1 : bool) (m1 e1 : Z) (n2 : bool) (m2 e2 : Z)
  : comparison :=
  let v1 := (if n1 then - m1 else m1) * 2 ^ Z.max 0 (e1 - e2) in
  let v2 := (if n2 then - m2 else m2) * 2 ^ Z.max 0 (e2 - e1) in
  v1 ?= v2.

Definition gt (x y : number) : bool :=
  match x, y with
  | NaN, _ | _, NaN => false
  | Inf nx, Inf ny => negb nx && ny
  | Inf nx, Fin _ _ _ => negb nx
  | Fin _ _ _, Inf ny => ny
  | Fin n1 m1 e1, Fin n2 m2 e2 =>
      match fin_compare n1 m1 e1 n2 m2 e2 with Gt => true | _ => false end
  end.

(** *** [x / y] *)
Definition div (x y : number) : number :=
  match x, y with
  | NaN, _ | _, NaN => NaN
  | Inf _, Inf _ => NaN
  | Inf nx, Fin ny _ _ => Inf (xorb nx ny)
  | Fin nx _ _, Inf ny => Fin (xorb nx ny) 0 0
  | Fin nx mx ex, Fin ny my ey =>
      if my =? 0 then (if mx =? 0 then NaN else Inf (xorb nx ny))
      else if mx =? 0 then Fin (xorb nx ny) 0 0
      else round_ratio (xorb nx ny)
             (mx * 2 ^ Z.max 0 (ex - ey)) (my * 2 ^ Z.max 0 (ey - ex))
  end.

(** *** [Math.round(x)]: the nearest integer, ties towards [+∞] *)
Definition round (x : number) : number :=
  match x with
  | Fin neg m e =>
      if 0 <=? e then x
      else
        let D := 2 ^ (- e) in
        let r := (2 * (if neg then - m else m) + D) / (2 * D) in
        if r =? 0 then Fin neg 0 0 else normal (r <? 0) (Z.abs r) 0
  | _ => x
  end.

End JS.

(** ** The data model: the interfaces of [Dashboard.tsx] *)

Record UserInfo := {
  email : string;
  shop_domain : string;
  status : string;
  installed_at : string;
}.

Record Overview := {
  total_customers : string;
  total_orders : string;
  total_revenue : string;
  currency : string;
}.

Record OrderByDate := {
  order_date : string;
  order_count : string;
  daily_revenue : string;
}.

Record TopCustomer := {
  customer_email : string;
  customer_name : string;
  tc_order_count : string;
  total_spent : string;
}.

Record RecentOrder := {
  ro_id : Z;
  shopify_order_id : string;
  total_price : string;
  ro_currency : string;
  created_at : string;
}.

Record WebhookEvent := {
  we_id : Z;
  event_type : string;
  shopify_id : string;
  processed_at : string;
}.

Record WebhookStatus := {
  webhooks_active : bool;
  last_webhook_event : option string;
  webhook_count : Z;
  events : list WebhookEvent;
}.

(** [avgOrderValue], computed on every render:
    [overview && Number(overview.total_orders) > 0
       ? Math.round(Number(overview.total_revenue) / Number(overview.total_orders))
       : 0]. *)
Definition avgOrderValue (overview : option Overview) : JS.number :=
  match overview with
  | Some ov =>
      if JS.gt (JS.Number (total_orders ov)) JS.zero
      then JS.round (JS.div (JS.Number (total_revenue ov))
                            (JS.Number (total_orders ov)))
      else JS.zero
  | None => JS.zero
  end.


(** ** The component state

    One field per [useState] hook and per [useRef] of [Dashboard]. *)
Record Dashboard := {
  userInfo : option UserInfo;
  overview : option Overview;
  ordersByDate : list OrderByDate;
  topCustomers : list TopCustomer;
  recentOrders : list RecentOrder;
  webhookStatus : option WebhookStatus;
  loading : bool;
  refreshing : bool;
  lastDashboardUpdate : Z;
  webhookSetupAttempted : bool;
  pollingIntervalRef : option positive;
}.

Definition setUserInfo (v : option UserInfo) (d : Dashboard) : Dashboard :=
  {| userInfo := v; overview := overview d; ordersByDate := ordersByDate d;
     topCustomers := topCustomers d; recentOrders := recentOrders d;
     webhookStatus := webhookStatus d; loading := loading d;
     refreshing := refreshing d; lastDashboardUpdate := lastDashboardUpdate d;
     webhookSetupAttempted := webhookSetupAttempted d;
     pollingIntervalRef := pollingIntervalRef d |}.

Definition setOverview (v : option Overview) (d : Dashboard) : Dashboard :=
  {| userInfo := userInfo d; overview := v; ordersByDate := ordersByDate d;
     topCustomers := topCustomers d; recentOrders := recentOrders d;
     webhookStatus := webhookStatus d; loading := loading d;
     refreshing := refreshing d; lastDashboardUpdate := lastDashboardUpdate d;
     webhookSetupAttempted := webhookSetupAttempted d;
     pollingIntervalRef := pollingIntervalRef d |}.

Definition setOrdersByDate (v : list OrderByDate) (d : Dashboard) : Dashboard :=
  {| userInfo := userInfo d; overview := overview d; ordersByDate := v;
     topCustomers := topCustomers d; recentOrders := recentOrders d;
     webhookStatus := webhookStatus d; loading := loading d;
     refreshing := refreshing d; lastDashboardUpdate := lastDashboardUpdate d;
     webhookSetupAttempted := webhookSetupAttempted d;
     pollingIntervalRef := pollingIntervalRef d |}.

Definition setTopCustomers (v : list TopCustomer) (d : Dashboard) : Dashboard :=
  {| userInfo := userInfo d; overview := overview d;
     ordersByDate := ordersByDate d; topCustomers := v;
     recentOrders := recentOrders d; webhookStatus := webhookStatus d;
     loading := loading d; refreshing := refreshing d;
     lastDashboardUpdate := lastDashboardUpdate d;
     webhookSetupAttempted := webhookSetupAttempted d;
     pollingIntervalRef := pollingIntervalRef d |}.

Definition setRecentOrders (v : list RecentOrder) (d : Dashboard) : Dashboard :=
  {| userInfo := userInfo d; overview := overview d;
     ordersByDate := ordersByDate d; topCustomers := topCustomers d;
     recentOrders := v; webhookStatus := webhookStatus d;
     loading := loading d; refreshing := refreshing d;
     lastDashboardUpdate := lastDashboardUpdate d;
     webhookSetupAttempted := webhookSetupAttempted d;
     pollingIntervalRef := pollingIntervalRef d |}.

Definition setWebhookStatus (v : option WebhookStatus) (d : Dashboard)
  : Dashboard :=
  {| userInfo := userInfo d; overview := overview d;
     ordersByDate := ordersByDate d; topCustomers := topCustomers d;
     recentOrders := recentOrders d; webhookStatus := v;
     loading := loading d; refreshing := refreshing d;
     lastDashboardUpdate := lastDashboardUpdate d;
     webhookSetupAttempted := webhookSetupAttempted d;
     pollingIntervalRef := pollingIntervalRef d |}.

Definition setLoading (v : bool) (d : Dashboard) : Dashboard :=
  {| userInfo := userInfo d; overview := overview d;
     ordersByDate := ordersByDate d; topCustomers := topCustomers d;
     recentOrders := recentOrders d; webhookStatus := webhookStatus d;
     loading := v; refreshing := refreshing d;
     lastDashboardUpdate := lastDashboardUpdate d;
     webhookSetupAttempted := webhookSetupAttempted d;
     pollingIntervalRef := pollingIntervalRef d |}.

Definition setRefreshing (v : bool) (d : Dashboard) : Dashboard :=
  {| userInfo := userInfo d; overview := overview d;
     ordersByDate := ordersByDate d; topCustomers := topCustomers d;
     recentOrders := recentOrders d; webhookStatus := webhookStatus d;
     loading := loading d; refreshing := v;
     lastDashboardUpdate := lastDashboardUpdate d;
     webhookSetupAttempted := webhookSetupAttempted d;
     pollingIntervalRef := pollingIntervalRef d |}.

Definition setLastDashboardUpdate (v : Z) (d : Dashboard) : Dashboard :=
  {| userInfo := userInfo d; overview := overview d;
     ordersByDate := ordersByDate d; topCustomers := topCustomers d;
     recentOrders := recentOrders d; webhookStatus := webhookStatus d;
     loading := loading d; refreshing := refreshing d;
     lastDashboardUpdate := v;
     webhookSetupAttempted := webhookSetupAttempted d;
     pollingIntervalRef := pollingIntervalRef d |}.

(** [webhookSetupAttempted.current = v] *)
Definition set_webhookSetupAttempted (v : bool) (d : Dashboard) : Dashboard :=
  {| userInfo := userInfo d; overview := overview d;
     ordersByDate := ordersByDate d; topCustomers := topCustomers d;
     recentOrders := recentOrders d; webhookStatus := webhookStatus d;
     loading := loading d; refreshing := refreshing d;
     lastDashboardUpdate := lastDashboardUpdate d;
     webhookSetupAttempted := v;
     pollingIntervalRef := pollingIntervalRef d |}.

(** [pollingIntervalRef.current = v] *)
Definition set_pollingIntervalRef (v : option positive) (d : Dashboard)
  : Dashboard :=
  {| userInfo := userInfo d; overview := overview d;
     ordersByDate := ordersByDate d; topCustomers := topCustomers d;
     recentOrders := recentOrders d; webhookStatus := webhookStatus d;
     loading := loading d; refreshing := refreshing d;
     lastDashboardUpdate := lastDashboardUpdate d;
     webhookSetupAttempted := webhookSetupAttempted d;
     pollingIntervalRef := v |}.

(** The six display entities, as one value. *)
Record Display := {
  d_userInfo : option UserInfo;
  d_overview : option Overview;
  d_ordersByDate : list OrderByDate;
  d_topCustomers : list TopCustomer;
  d_recentOrders : list RecentOrder;
  d_webhookStatus : option WebhookStatus;
}.

Definition display (d : Dashboard) : Display :=
  {| d_userInfo := userInfo d; d_overview := overview d;
     d_ordersByDate := ordersByDate d; d_topCustomers := topCustomers d;
     d_recentOrders := recentOrders d; d_webhookStatus := webhookStatus d |}.

(** ** Requests, replies and errors *)

(** What a [catch (err)] of the component tells apart: an axios error
    with its [err.response?.status], or anything else. *)
Inductive error : Type :=
| AxiosError (response_status : option Z)
| OtherError.

(** [status === 401 || status === 403] on an axios error. *)
Definition auth_rejected (e : error) : bool :=
  match e with
  | AxiosError (Some st) => (st =? 401) || (st =? 403)
  | _ => false
  end.

Inductive result (A : Type) : Type :=
| Resolved (data : A)
| Rejected (err : error).
Arguments Resolved {A} data.
Arguments Rejected {A} err.

Inductive endpoint : Type :=
| Me | OverviewEp | OrdersByDateEp | TopCustomersEp | RecentOrdersEp
| WebhookStatusEp.

#[global] Instance endpoint_eq_dec : EqDecision endpoint.
Proof. solve_decision. Defined.

Inductive request : Type :=
| GET (ep : endpoint)
| POST_setup_webhooks
| POST_sync.

(** The reply to one of the six [axios.get] calls of a fetch cycle. *)
Inductive reply : Type :=
| MeReply (r : result UserInfo)
| OverviewReply (r : result Overview)
| OrdersByDateReply (r : result (list OrderByDate))
| TopCustomersReply (r : result (list TopCustomer))
| RecentOrdersReply (r : result (list RecentOrder))
| WebhookStatusReply (r : result WebhookStatus).

Definition endpoint_of (r : reply) : endpoint :=
  match r with
  | MeReply _ => Me
  | OverviewReply _ => OverviewEp
  | OrdersByDateReply _ => OrdersByDateEp
  | TopCustomersReply _ => TopCustomersEp
  | RecentOrdersReply _ => RecentOrdersEp
  | WebhookStatusReply _ => WebhookStatusEp
  end.

(** ** [Promise.all] over the six requests

    [slots] is the array of values [Promise.all] collects, one entry
    per request, filled as the requests settle.  The sixth promise is
    [axios.get(webhook-status).catch(() => ({ data: null }))]: it never
    rejects, and a failed request fills its slot with [null]. *)
Record slots := {
  userRes : option UserInfo;
  overviewRes : option Overview;
  ordersDateRes : option (list OrderByDate);
  topCustomersRes : option (list TopCustomer);
  recentOrdersRes : option (list RecentOrder);
  webhookRes : option (option WebhookStatus);
}.

Definition no_slots : slots :=
  {| userRes := None; overviewRes := None; ordersDateRes := None;
     topCustomersRes := None; recentOrdersRes := None; webhookRes := None |}.

(** The six [.data] fields read once [Promise.all] has fulfilled. *)
Record values := {
  user_data : UserInfo;
  overview_data : Overview;
  ordersDate_data : list OrderByDate;
  topCustomers_data : list TopCustomer;
  recentOrders_data : list RecentOrder;
  webhook_data : option WebhookStatus;
}.

Definition all_values (s : slots) : option values :=
  match userRes s, overviewRes s, ordersDateRes s,
        topCustomersRes s, recentOrdersRes s, webhookRes s with
  | Some u, Some o, Some od, Some tc, Some ro, Some wh =>
      Some {| user_data := u; overview_data := o; ordersDate_data := od;
              topCustomers_data := tc; recentOrders_data := ro;
              webhook_data := wh |}
  | _, _, _, _, _, _ => None
  end.

Inductive settlement : Type :=
| Ignored                       (* a reply for a request already settled *)
| Pending (got : slots)         (* stored; other requests outstanding *)
| AllFulfilled (v : values)     (* the last value arrived *)
| FirstRejection (err : error). (* Promise.all rejects at once *)

Definition stored (got : slots) : settlement :=
  match all_values got with
  | Some v => AllFulfilled v
  | None => Pending got
  end.

Definition settle (r : reply) (got : slots) : settlement :=
  match r with
  | MeReply r =>
      match userRes got, r with
      | Some _, _ => Ignored
      | None, Rejected e => FirstRejection e
      | None, Resolved u =>
          stored {| userRes := Some u; overviewRes := overviewRes got;
                    ordersDateRes := ordersDateRes got;
                    topCustomersRes := topCustomersRes got;
                    recentOrdersRes := recentOrdersRes got;
                    webhookRes := webhookRes got |}
      end
  | OverviewReply r =>
      match overviewRes got, r with
      | Some _, _ => Ignored
      | None, Rejected e => FirstRejection e
      | None, Resolved o =>
          stored {| userRes := userRes got; overviewRes := Some o;
                    ordersDateRes := ordersDateRes got;
                    topCustomersRes := topCustomersRes got;
                    recentOrdersRes := recentOrdersRes got;
                    webhookRes := webhookRes got |}
      end
  | OrdersByDateReply r =>
      match ordersDateRes got, r with
      | Some _, _ => Ignored
      | None, Rejected e => FirstRejection e
      | None, Resolved od =>
          stored {| userRes := userRes got; overviewRes := overviewRes got;
                    ordersDateRes := Some od;
                    topCustomersRes := topCustomersRes got;
                    recentOrdersRes := recentOrdersRes got;
                    webhookRes := webhookRes got |}
      end
  | TopCustomersReply r =>
      match topCustomersRes got, r with
      | Some _, _ => Ignored
      | None, Rejected e => FirstRejection e
      | None, Resolved tc =>
          stored {| userRes := userRes got; overviewRes := overviewRes got;
                    ordersDateRes := ordersDateRes got;
                    topCustomersRes := Some tc;
                    recentOrdersRes := recentOrdersRes got;
                    webhookRes := webhookRes got |}
      end
  | RecentOrdersReply r =>
      match recentOrdersRes got, r with
      | Some _, _ => Ignored
      | None, Rejected e => FirstRejection e
      | None, Resolved ro =>
          stored {| userRes := userRes got; overviewRes := overviewRes got;
                    ordersDateRes := ordersDateRes got;
                    topCustomersRes := topCustomersRes got;
                    recentOrdersRes := Some ro;
                    webhookRes := webhookRes got |}
      end
  | WebhookStatusReply r =>
      match webhookRes got with
      | Some _ => Ignored
      | None =>
          (* .catch(() => ({ data: null })) *)
          let data := match r with
                      | Resolved ws => Some ws
                      | Rejected _ => None
                      end in
          stored {| userRes := userRes got; overviewRes := overviewRes got;
                    ordersDateRes := ordersDateRes got;
                    topCustomersRes := topCustomersRes got;
                    recentOrdersRes := recentOrdersRes got;
                    webhookRes := Some data |}
      end
  end.

(** ** The event loop

    A suspended [async] function is a task: the [await] it stopped at
    and what it does when resumed.  [fetchAllData] never throws, so
    the code that awaits it ([setupWebhooksAutomatically] on its
    success path, [handleManualRefresh]) is resumed when the cycle
    ends, whichever way it ends; [caller] names that code. *)
Inductive caller : Type :=
| Detached      (* the effect or the interval: nobody awaits the cycle *)
| FromSetup     (* await fetchAllData(true) in setupWebhooksAutomatically *)
| FromRefresh.  (* await fetchAllData() in handleManualRefresh *)

Inductive task : Type :=
| AwaitAll (silent : bool) (got : slots) (k : caller)
    (* fetchAllData at [await Promise.all([...])] *)
| AwaitSetupPost
    (* setupWebhooksAutomatically at [await axios.post(setup-webhooks)] *)
| AwaitSyncPost.
    (* handleManualRefresh at [await axios.post(sync)] *)

Inductive callback : Type :=
| PollTick     (* the setInterval callback: fetchAllData(true) *)
| ResetGuard.  (* the setTimeout callback: webhookSetupAttempted.current = false *)

Record timer := {
  handle : positive;
  due : Z;
  action : callback;
}.

(** What the component does to the outside, newest first; the
    [console.log] and [console.error] lines are left out. *)
Inductive effect : Type :=
| Sent (t : nat) (rq : request)  (* task [t] issued a request *)
| Answered (t : nat)             (* the awaited POST of task [t] settled *)
| Polling                        (* the interval callback ran *)
| LoggedOut.                     (* onLogout() *)

Record World := {
  dash : Dashboard;
  now : Z;                    (* the clock, in milliseconds *)
  timers : list timer;        (* pending setInterval / setTimeout *)
  next_handle : positive;
  tasks : gmap nat task;      (* suspended async functions *)
  next_task : nat;
  trace : list effect;
}.

Definition on_dash (f : Dashboard -> Dashboard) (w : World) : World :=
  {| dash := f (dash w); now := now w; timers := timers w;
     next_handle := next_handle w; tasks := tasks w;
     next_task := next_task w; trace := trace w |}.

Definition emit (es : list effect) (w : World) : World :=
  {| dash := dash w; now := now w; timers := timers w;
     next_handle := next_handle w; tasks := tasks w;
     next_task := next_task w; trace := rev es ++ trace w |}.

(** Suspend at an [await]: a new task under a fresh number. *)
Definition suspend (tk : task) (w : World) : World :=
  {| dash := dash w; now := now w; timers := timers w;
     next_handle := next_handle w;
     tasks := <[next_task w := tk]> (tasks w);
     next_task := S (next_task w); trace := trace w |}.

Definition set_task (t : nat) (tk : task) (w : World) : World :=
  {| dash := dash w; now := now w; timers := timers w;
     next_handle := next_handle w; tasks := <[t := tk]> (tasks w);
     next_task := next_task w; trace := trace w |}.

Definition finish (t : nat) (w : World) : World :=
  {| dash := dash w; now := now w; timers := timers w;
     next_handle := next_handle w; tasks := delete t (tasks w);
     next_task := next_task w; trace := trace w |}.

(** [setInterval] / [setTimeout]: a fresh handle, due [delay] from now. *)
Definition schedule (a : callback) (delay : Z) (w : World) : World :=
  {| dash := dash w; now := now w;
     timers := timers w ++
               [{| handle := next_handle w; due := now w + delay;
                   action := a |}];
     next_handle := Pos.succ (next_handle w); tasks := tasks w;
     next_task := next_task w; trace := trace w |}.

(** [clearInterval(h)]: handles are shared by intervals and timeouts. *)
Definition clearInterval (h : positive) (w : World) : World :=
  {| dash := dash w; now := now w;
     timers := List.filter (fun tm => negb (handle tm =? h)%positive)
                 (timers w);
     next_handle := next_handle w; tasks := tasks w;
     next_task := next_task w; trace := trace w |}.

Definition onLogout (w : World) : World := emit [LoggedOut] w.

Definition all_endpoints : list endpoint :=
  [Me; OverviewEp; OrdersByDateEp; TopCustomersEp; RecentOrdersEp;
   WebhookStatusEp].

(** *** [setupWebhooksAutomatically], up to its first [await] *)
Definition setupWebhooksAutomatically (w : World) : World :=
  if webhookSetupAttempted (dash w) then w
  else
    let w := on_dash (set_webhookSetupAttempted true) w in
    suspend AwaitSetupPost
      (emit [Sent (next_task w) POST_setup_webhooks] w).

(** *** [fetchAllData(silent)], up to [await Promise.all] *)
Definition fetchAllData (silent : bool) (k : caller) (w : World) : World :=
  let w := if silent then w else on_dash (setLoading true) w in
  suspend (AwaitAll silent no_slots k)
    (emit (map (fun ep => Sent (next_task w) (GET ep)) all_endpoints) w).

(** The code that awaited the cycle, resumed. *)
Definition resume (k : caller) (w : World) : World :=
  match k with
  | Detached => w
  | FromSetup => on_dash (set_webhookSetupAttempted false) w
  | FromRefresh => on_dash (setRefreshing false) w  (* finally *)
  end.

(** [fetchAllData] after [Promise.all] fulfilled: the seven setters,
    the remediation trigger, [finally], and the awaiting caller. *)
Definition fetch_fulfilled (silent : bool) (k : caller) (v : values)
    (w : World) : World :=
  let w := on_dash (setUserInfo (Some (user_data v))) w in
  let w := on_dash (setOverview (Some (overview_data v))) w in
  let w := on_dash (setOrdersByDate (ordersDate_data v)) w in
  let w := on_dash (setTopCustomers (topCustomers_data v)) w in
  let w := on_dash (setRecentOrders (recentOrders_data v)) w in
  let w := on_dash (setWebhookStatus (webhook_data v)) w in
  let w := on_dash (setLastDashboardUpdate (now w)) w in
  let w :=
    match webhook_data v with
    | Some ws =>
        if negb (webhooks_active ws)
           && negb (webhookSetupAttempted (dash w))
        then setupWebhooksAutomatically w
        else w
    | None => w
    end in
  let w := if silent then w else on_dash (setLoading false) w in
  resume k w.

(** [fetchAllData] after [Promise.all] rejected: [catch], [finally],
    and the awaiting caller. *)
Definition fetch_rejected (silent : bool) (k : caller) (e : error)
    (w : World) : World :=
  let w := if auth_rejected e then onLogout w else w in
  let w := if silent then w else on_dash (setLoading false) w in
  resume k w.

(** *** [setupWebhooksAutomatically] after its POST settled *)
Definition setup_settled (r : result unit) (w : World) : World :=
  match r with
  | Resolved _ => fetchAllData true FromSetup w
  | Rejected _ => schedule ResetGuard 30000 w
  end.

(** *** [handleManualRefresh] *)
Definition handleManualRefresh (w : World) : World :=
  let w := on_dash (setRefreshing true) w in
  suspend AwaitSyncPost (emit [Sent (next_task w) POST_sync] w).

Definition sync_settled (r : result unit) (w : World) : World :=
  match r with
  | Resolved _ => fetchAllData false FromRefresh w
  | Rejected e =>
      let w := if auth_rejected e then onLogout w else w in
      on_dash (setRefreshing false) w
  end.

(** *** The polling effect: its body and its cleanup *)
Definition clear_polling (w : World) : World :=
  match pollingIntervalRef (dash w) with
  | Some h => clearInterval h w
  | None => w
  end.

Definition effect_body (w : World) : World :=
  let w := clear_polling w in
  let w := fetchAllData false Detached w in
  let h := next_handle w in
  on_dash (set_pollingIntervalRef (Some h)) (schedule PollTick 15000 w).

Definition effect_cleanup (w : World) : World := clear_polling w.

(** *** Timers *)
Definition run_callback (a : callback) (w : World) : World :=
  match a with
  | PollTick => fetchAllData true Detached (emit [Polling] w)
  | ResetGuard => on_dash (set_webhookSetupAttempted false) w
  end.

Definition is_due (t : Z) (tm : timer) : bool := due tm <=? t.

(** A due interval is re-armed one period later, a due timeout is gone. *)
Definition rearm (t : Z) (tm : timer) : list timer :=
  if is_due t tm then
    match action tm with
    | PollTick =>
        [{| handle := handle tm; due := due tm + 15000; action := PollTick |}]
    | ResetGuard => []
    end
  else [tm].

Definition run_callbacks (fired : list timer) (w : World) : World :=
  fold_left (fun w tm => run_callback (action tm) w) fired w.

(** The clock one millisecond on, the due timers re-armed or dropped. *)
Definition advance (w : World) : World :=
  {| dash := dash w; now := now w + 1;
     timers := concat (map (rearm (now w + 1)) (timers w));
     next_handle := next_handle w; tasks := tasks w;
     next_task := next_task w; trace := trace w |}.

(** One millisecond passes; the timers now due run, oldest first. *)
Definition tick (w : World) : World :=
  run_callbacks (List.filter (is_due (now w + 1)) (timers w)) (advance w).

(** *** Events and the step function *)
Inductive event : Type :=
| GetSettled (t : nat) (r : reply)         (* a GET of cycle [t] settled *)
| PostSettled (t : nat) (r : result unit)  (* the POST task [t] awaits settled *)
| Tick
| ClickRefresh
| EffectRun
| EffectCleanup
| ClickLogout.                             (* the Logout button: onLogout() *)

Definition step (e : event) (w : World) : World :=
  match e with
  | GetSettled t r =>
      match tasks w !! t with
      | Some (AwaitAll silent got k) =>
          match settle r got with
          | Ignored => w
          | Pending got' => set_task t (AwaitAll silent got' k) w
          | AllFulfilled v => fetch_fulfilled silent k v (finish t w)
          | FirstRejection e => fetch_rejected silent k e (finish t w)
          end
      | _ => w
      end
  | PostSettled t r =>
      match tasks w !! t with
      | Some AwaitSetupPost => setup_settled r (emit [Answered t] (finish t w))
      | Some AwaitSyncPost => sync_settled r (emit [Answered t] (finish t w))
      | _ => w
      end
  | Tick => tick w
  | ClickRefresh => handleManualRefresh w
  | EffectRun => effect_body w
  | EffectCleanup => effect_cleanup w
  | ClickLogout => onLogout w
  end.

Definition run (es : list event) (w : World) : World :=
  fold_left (fun w e => step e w) es w.

(** The component before its first effect: the [useState] initial
    values, [lastDashboardUpdate] being [new Date()] at that moment. *)
Definition initial (t0 : Z) : World :=
  {| dash := {| userInfo := None; overview := None; ordersByDate := [];
                topCustomers := []; recentOrders := [];
                webhookStatus := None; loading := true;
                refreshing := false; lastDashboardUpdate := t0;
                webhookSetupAttempted := false;
                pollingIntervalRef := None |};
     now := t0; timers := []; next_handle := 1%positive;
     tasks := ∅; next_task := 0%nat; trace := [] |}.

Definition is_logout (e : effect) : bool :=
  match e with LoggedOut => true | _ => false end.

(** How many times [onLogout] has been called. *)
Definition logouts (w : World) : nat :=
  length (List.filter is_logout (trace w)).



(** ** Reading an execution *)

(** The task an event is addressed to. *)
Definition addressed (e : event) : option nat :=
  match e with
  | GetSettled t _ | PostSettled t _ => Some t
  | _ => None
  end.

(** The replies cycle [t] receives during [es], in order of arrival. *)
Fixpoint replies_to (t : nat) (es : list event) : list reply :=
  match es with
  | GetSettled t' r :: es' =>
      if decide (t' = t) then r :: replies_to t es' else replies_to t es'
  | _ :: es' => replies_to t es'
  | [] => []
  end.

(** [Promise.all] fed the replies [rs] in order: what the awaiting
    [fetchAllData] gets, or [Pending] while requests are outstanding. *)
Fixpoint promise_all (rs : list reply) (got : slots) : settlement :=
  match rs with
  | [] => Pending got
  | r :: rs' =>
      match settle r got with
      | Ignored => promise_all rs' got
      | Pending got' => promise_all rs' got'
      | done => done
      end
  end.

(** The error a failed mandatory request rejects with. *)
Definition mandatory_failure (r : reply) : option error :=
  match r with
  | MeReply (Rejected e) | OverviewReply (Rejected e)
  | OrdersByDateReply (Rejected e) | TopCustomersReply (Rejected e)
  | RecentOrdersReply (Rejected e) => Some e
  | _ => None
  end.

(** The error any failed request, webhook-status included, fails with. *)
Definition failure (r : reply) : option error :=
  match r with
  | WebhookStatusReply (Rejected e) => Some e
  | _ => mandatory_failure r
  end.

(** The first mandatory failure to arrive. *)
Fixpoint first_failure (rs : list reply) : option error :=
  match rs with
  | [] => None
  | r :: rs' =>
      match mandatory_failure r with
      | Some e => Some e
      | None => first_failure rs'
      end
  end.

(** The handler runs of cycle [t] during [es]: for each reply the
    cycle receives, the world before and after its handler. *)
Fixpoint cycle_steps (t : nat) (es : list event) (w : World)
  : list (World * World) :=
  match es with
  | [] => []
  | e :: es' =>
      match e with
      | GetSettled t' _ =>
          if decide (t' = t) then [(w, step e w)] else []
      | _ => []
      end ++ cycle_steps t es' (step e w)
  end.

Definition is_setup_request (e : effect) : bool :=
  match e with Sent _ POST_setup_webhooks => true | _ => false end.

(** How many webhook-registration requests have been issued. *)
Definition setup_requests (w : World) : nat :=
  length (List.filter is_setup_request (trace w)).

Definition is_polling (e : effect) : bool :=
  match e with Polling => true | _ => false end.

(** How many timer-driven fetches have run. *)
Definition polls (w : World) : nat :=
  length (List.filter is_polling (trace w)).

(** The [onLogout] calls made by the handlers of cycle [t] during [es]. *)
Definition cycle_logouts (t : nat) (es : list event) (w : World) : nat :=
  sum_list_with (fun p => (logouts p.2 - logouts p.1)%nat)
    (cycle_steps t es w).

(** Whether the request for [ep] has settled. *)
Definition filled (ep : endpoint) (got : slots) : bool :=
  match ep with
  | Me => bool_decide (is_Some (userRes got))
  | OverviewEp => bool_decide (is_Some (overviewRes got))
  | OrdersByDateEp => bool_decide (is_Some (ordersDateRes got))
  | TopCustomersEp => bool_decide (is_Some (topCustomersRes got))
  | RecentOrdersEp => bool_decide (is_Some (recentOrdersRes got))
  | WebhookStatusEp => bool_decide (is_Some (webhookRes got))
  end.

(** The slots after a reply that is not a mandatory failure. *)
Definition fill (r : reply) (got : slots) : slots :=
  match r with
  | MeReply (Resolved u) =>
      {| userRes := Some u; overviewRes := overviewRes got;
         ordersDateRes := ordersDateRes got;
         topCustomersRes := topCustomersRes got;
         recentOrdersRes := recentOrdersRes got;
         webhookRes := webhookRes got |}
  | OverviewReply (Resolved o) =>
      {| userRes := userRes got; overviewRes := Some o;
         ordersDateRes := ordersDateRes got;
         topCustomersRes := topCustomersRes got;
         recentOrdersRes := recentOrdersRes got;
         webhookRes := webhookRes got |}
  | OrdersByDateReply (Resolved od) =>
      {| userRes := userRes got; overviewRes := overviewRes got;
         ordersDateRes := Some od;
         topCustomersRes := topCustomersRes got;
         recentOrdersRes := recentOrdersRes got;
         webhookRes := webhookRes got |}
  | TopCustomersReply (Resolved tc) =>
      {| userRes := userRes got; overviewRes := overviewRes got;
         ordersDateRes := ordersDateRes got;
         topCustomersRes := Some tc;
         recentOrdersRes := recentOrdersRes got;
         webhookRes := webhookRes got |}
  | RecentOrdersReply (Resolved ro) =>
      {| userRes := userRes got; overviewRes := overviewRes got;
         ordersDateRes := ordersDateRes got;
         topCustomersRes := topCustomersRes got;
         recentOrdersRes := Some ro;
         webhookRes := webhookRes got |}
  | WebhookStatusReply (Resolved ws) =>
      {| userRes := userRes got; overviewRes := overviewRes got;
         ordersDateRes := ordersDateRes got;
         topCustomersRes := topCustomersRes got;
         recentOrdersRes := recentOrdersRes got;
         webhookRes := Some (Some ws) |}
  | WebhookStatusReply (Rejected _) =>
      {| userRes := userRes got; overviewRes := overviewRes got;
         ordersDateRes := ordersDateRes got;
         topCustomersRes := topCustomersRes got;
         recentOrdersRes := recentOrdersRes got;
         webhookRes := Some None |}
  | _ => got
  end.

Definition fills (rs : list reply) (got : slots) : slots :=
  fold_left (fun got r => fill r got) rs got.

(** A remediation attempt in flight: at its POST, or at the refetch
    that follows a successful POST. *)
Definition remediating (tk : task) : bool :=
  match tk with
  | AwaitSetupPost | AwaitAll _ _ FromSetup => true
  | _ => false
  end.

Definition is_poll (tm : timer) : bool :=
  match action tm with PollTick => true | ResetGuard => false end.

Definition is_reset (tm : timer) : bool :=
  match action tm with ResetGuard => true | PollTick => false end.

(** ** Predicates of the specification and of the proofs *)

(** Whether a fulfilled cycle starts a remediation attempt:
    [webhookRes.data && !webhookRes.data.webhooks_active
       && !webhookSetupAttempted.current]. *)
Definition triggers (v : values) (w : World) : bool :=
  match webhook_data v with
  | Some ws => negb (webhooks_active ws)
               && negb (webhookSetupAttempted (dash w))
  | None => false
  end.

(** A handler run that changes neither the component nor the trace. *)
Definition quiet (p : World * World) : Prop :=
  dash p.2 = dash p.1 /\ trace p.2 = trace p.1.

(** A handler run that changes no display entity, not the timestamp,
    and does not call [onLogout]. *)
Definition unchanged (p : World * World) : Prop :=
  display (dash p.2) = display (dash p.1)
  /\ lastDashboardUpdate (dash p.2) = lastDashboardUpdate (dash p.1)
  /\ logouts p.2 = logouts p.1.

(** What [fetchAllData] runs once [Promise.all] has settled. *)
Definition conclude (silent : bool) (k : caller) (s : settlement) (w : World)
  : World :=
  match s with
  | AllFulfilled v => fetch_fulfilled silent k v w
  | FirstRejection e => fetch_rejected silent k e w
  | _ => w
  end.

(** [Promise.all] has fulfilled or rejected. *)
Definition settled (s : settlement) : bool :=
  match s with AllFulfilled _ | FirstRejection _ => true | _ => false end.

(** The pending timeouts that will clear the guard. *)
Definition resets (w : World) : list timer :=
  List.filter is_reset (timers w).

(** The guard and what holds it: while [webhookSetupAttempted.current]
    is clear no attempt is in flight and no reset is pending; at most
    one attempt is in flight, and none while a reset is pending. *)
Record guard_ok (w : World) : Prop := {
  idle_tasks :
    webhookSetupAttempted (dash w) = false ->
    forall t tk, tasks w !! t = Some tk -> remediating tk = false;
  idle_timers : webhookSetupAttempted (dash w) = false -> resets w = [];
  one_remediation :
    forall t1 t2 tk1 tk2,
      tasks w !! t1 = Some tk1 -> tasks w !! t2 = Some tk2 ->
      remediating tk1 = true -> remediating tk2 = true -> t1 = t2;
  remediation_no_reset :
    forall t tk, tasks w !! t = Some tk -> remediating tk = true ->
                 resets w = [];
  one_reset : (length (resets w) <= 1)%nat;
}.

(** Handles are never reused; the pending interval, if any, is the one
    [pollingIntervalRef] names, and no pending timeout shares its
    handle. *)
Record timers_ok (w : World) : Prop := {
  handles_fresh :
    forall tm, In tm (timers w) -> (handle tm < next_handle w)%positive;
  ref_fresh :
    forall h, pollingIntervalRef (dash w) = Some h ->
              (h < next_handle w)%positive;
  polls_are_ref :
    forall tm, In tm (timers w) -> action tm = PollTick ->
               pollingIntervalRef (dash w) = Some (handle tm);
  resets_not_ref :
    forall tm, In tm (timers w) -> action tm = ResetGuard ->
               pollingIntervalRef (dash w) <> Some (handle tm);
  one_poll : (length (List.filter is_poll (timers w)) <= 1)%nat;
}.

(** The guard is set and the timeout that will clear it is pending,
    due at [D]. *)
Definition cooling (D : Z) (w : World) : Prop :=
  guard_ok w /\ timers_ok w
  /\ webhookSetupAttempted (dash w) = true
  /\ exists tm, In tm (timers w) /\ action tm = ResetGuard /\ due tm = D.


(** The polling effect runs (mount, or a changed dependency). *)
Definition is_effect_run (e : event) : bool :=
  match e with EffectRun => true | _ => false end.

(** The pending polling intervals. *)
Definition poll_timers (w : World) : list timer :=
  List.filter is_poll (timers w).

(** [n] milliseconds pass. *)
Definition ticks (n : Z) : list event := replicate (Z.to_nat n) Tick.

(** Sample data for the concrete runs below. *)
Definition sample_user : UserInfo :=
  {| email := "owner@example.com"; shop_domain := "demo.myshopify.com";
     status := "active"; installed_at := "2024-01-01T00:00:00Z" |}.

Definition sample_overview : Overview :=
  {| total_customers := "3"; total_orders := "4";
     total_revenue := "1000"; currency := "USD" |}.

Definition sample_status : WebhookStatus :=
  {| webhooks_active := false; last_webhook_event := None;
     webhook_count := 0; events := [] |}.

Definition sample_replies (wr : result WebhookStatus) : list reply :=
  [MeReply (Resolved sample_user); OverviewReply (Resolved sample_overview);
   OrdersByDateReply (Resolved []); TopCustomersReply (Resolved []);
   RecentOrdersReply (Resolved []); WebhookStatusReply wr].

(** The first cycle after mount finds the integration inactive and
    starts a remediation attempt: task [1] is at its POST. *)
Definition sample_mounted : list event :=
  EffectRun :: map (GetSettled 0) (sample_replies (Resolved sample_status)).

(** Five of the six replies of the first cycle, one millisecond after
    it started. *)
Definition sample_five : list event :=
  [Tick; GetSettled 0 (MeReply (Resolved sample_user));
   GetSettled 0 (OverviewReply (Resolved sample_overview));
   GetSettled 0 (OrdersByDateReply (Resolved []));
   GetSettled 0 (TopCustomersReply (Resolved []));
   GetSettled 0 (RecentOrdersReply (Resolved []))].

(** A cycle whose first mandatory failure is a 500. *)
Definition sample_failing : list event :=
  [GetSettled 0 (MeReply (Resolved sample_user));
   GetSettled 0 (OverviewReply (Rejected (AxiosError (Some 500))));
   GetSettled 0 (TopCustomersReply (Rejected (AxiosError (Some 401))))].

(** A cycle whose first mandatory failure is a 403. *)
Definition sample_rejected : list event :=
  [GetSettled 0 (MeReply (Resolved sample_user));
   GetSettled 0 (OverviewReply (Rejected (AxiosError (Some 403))));
   GetSettled 0 (TopCustomersReply (Rejected (AxiosError (Some 401))))].

(** C4 as the specification states it: some mandatory request of the
    cycle fails with an error other than 401 or 403. *)
Definition non_auth_failure_as_stated (w : World) (silent : bool)
    (k : caller) (es : list event) : Prop :=
  let t := next_task w in
  NoDup (map endpoint_of (replies_to t es)) ->
  (exists r e, r ∈ replies_to t es /\ mandatory_failure r = Some e
               /\ auth_rejected e = false) ->
  Forall unchanged (cycle_steps t es (fetchAllData silent k w)).

(** C5 as the specification states it: some request of the cycle,
    webhook-status included, fails with 401 or 403. *)
Definition auth_failure_as_stated (w : World) (silent : bool)
    (k : caller) (es : list event) : Prop :=
  let t := next_task w in
  NoDup (map endpoint_of (replies_to t es)) ->
  (exists r e, r ∈ replies_to t es /\ failure r = Some e
               /\ auth_rejected e = true) ->
  cycle_logouts t es (fetchAllData silent k w) = 1%nat.

(** ** Further vocabulary: the loading indicator, the refresh button *)

(** The polling effect runs or is cleaned up. *)
Definition is_effect (e : event) : bool :=
  match e with EffectRun | EffectCleanup => true | _ => false end.

(** A manual refresh in flight: at its sync POST, or at the fetch that
    follows it. *)
Definition refreshing_task (tk : task) : bool :=
  match tk with
  | AwaitSyncPost | AwaitAll _ _ FromRefresh => true
  | _ => false
  end.

(** The refresh button, [<button onClick={handleManualRefresh}
    disabled={refreshing}>], is rendered only once [loading] is false:
    a click reaches [handleManualRefresh] only then. *)
Definition click_refresh_button (w : World) : World :=
  if loading (dash w) || refreshing (dash w) then w
  else handleManualRefresh w.

(** The Logout button, [<button onClick={onLogout}>], is rendered in
    the same header: a click reaches [onLogout] only once [loading] is
    false. *)
Definition click_logout_button (w : World) : World :=
  if loading (dash w) then w else onLogout w.

(** The event loop with clicks going through the buttons. *)
Definition ui_step (e : event) (w : World) : World :=
  match e with
  | ClickRefresh => click_refresh_button w
  | ClickLogout => click_logout_button w
  | _ => step e w
  end.

Definition ui_run (es : list event) (w : World) : World :=
  fold_left (fun w e => ui_step e w) es w.

(** No manual refresh is in flight while [refreshing] is false, and
    never two at once. *)
Record refresh_ok (w : World) : Prop := {
  idle_refresh :
    refreshing (dash w) = false ->
    forall t tk, tasks w !! t = Some tk -> refreshing_task tk = false;
  one_refresh :
    forall t1 t2 tk1 tk2,
      tasks w !! t1 = Some tk1 -> tasks w !! t2 = Some tk2 ->
      refreshing_task tk1 = true -> refreshing_task tk2 = true -> t1 = t2;
}.

(** The interval of the last effect run, its [c]-th firing behind it:
    pending, due at the next multiple of the period after [T0]. *)
Definition polling_since (T0 : Z) (P0 : nat) (w : World) : Prop :=
  exists c h,
    0 <= c
    /\ poll_timers w
       = [{| handle := h; due := T0 + 15000 * (c + 1); action := PollTick |}]
    /\ Z.of_nat (polls w) = Z.of_nat P0 + c
    /\ T0 + 15000 * c <= now w < T0 + 15000 * (c + 1).

(** ** The rest of the dashboard: headers and derived view values *)

(** A string is falsy only when empty. *)
Definition truthy (s : string) : bool := negb (String.eqb s "").

(** [a || b] for [a : string | undefined]. *)
Definition or_default (a : option string) (b : string) : string :=
  match a with
  | Some s => if truthy s then s else b
  | None => b
  end.

(** [getAuthHeaders()]: the [Authorization] header built from
    [localStorage.getItem('authToken')], which is [null] for a missing
    key and is then interpolated as the text [null]. *)
Definition getAuthHeaders (localStorage : gmap string string) : string :=
  "Bearer " ++ match localStorage !! "authToken"%string with
               | Some token => token
               | None => "null"
               end.

(** The activity strip:
    [webhookStatus?.events && webhookStatus.events.length > 0
       && webhookStatus.webhooks_active], then [events.slice(0, 3)]. *)
Definition recent_activity (webhookStatus : option WebhookStatus)
  : option (list WebhookEvent) :=
  match webhookStatus with
  | Some ws =>
      if (0 <? length (events ws))%nat && webhooks_active ws
      then Some (take 3 (events ws))
      else None
  | None => None
  end.

(** The body of the orders table: a placeholder row for an empty list,
    else one row per order, [index < 3] adding the "New" badge. *)
Inductive table_body : Type :=
| NoOrders
| Rows (rows : list (RecentOrder * bool)).

Definition order_rows (recentOrders : list RecentOrder) : table_body :=
  match recentOrders with
  | [] => NoOrders
  | _ => Rows (imap (fun index order => (order, (index <? 3)%nat))
                 recentOrders)
  end.

(** ** The first version of the page ([app/page.tsx], tenant fixed):
    its average order value has no guard on the order count. *)
Module TenantPage.

Definition avgOrderValue (overview : option Overview) : JS.number :=
  match overview with
  | Some ov =>
      JS.round (JS.div (JS.Number (total_revenue ov))
                       (JS.Number (total_orders ov)))
  | None => JS.zero
  end.

End TenantPage.

(** ** [Home]: the session gate of [app/page.tsx] *)
Module Home.

Record state := {
  isAuthenticated : bool;
  showRegister : bool;
  loading : bool;
  localStorage : gmap string string;
}.

(** The [useState] initial values over the browser's storage. *)
Definition initial (ls : gmap string string) : state :=
  {| isAuthenticated := false; showRegister := false; loading := true;
     localStorage := ls |}.

(** The mount effect: [if (token) setIsAuthenticated(true);
    setLoading(false)]. *)
Definition check_token (s : state) : state :=
  {| isAuthenticated :=
       match localStorage s !! "authToken"%string with
       | Some token => if truthy token then true else isAuthenticated s
       | None => isAuthenticated s
       end;
     showRegister := showRegister s; loading := false;
     localStorage := localStorage s |}.

Definition handleLoginSuccess (token : string) (s : state) : state :=
  {| isAuthenticated := true; showRegister := showRegister s;
     loading := loading s;
     localStorage := <["authToken"%string := token]> (localStorage s) |}.

Definition handleLogout (s : state) : state :=
  {| isAuthenticated := false; showRegister := showRegister s;
     loading := loading s;
     localStorage := delete "authToken"%string (localStorage s) |}.

Definition setShowRegister (v : bool) (s : state) : state :=
  {| isAuthenticated := isAuthenticated s; showRegister := v;
     loading := loading s; localStorage := localStorage s |}.

Inductive screen : Type :=
| LoadingScreen | LoginScreen | RegisterScreen | DashboardScreen.

Definition render (s : state) : screen :=
  if loading s then LoadingScreen
  else if negb (isAuthenticated s)
       then (if showRegister s then RegisterScreen else LoginScreen)
       else DashboardScreen.

(** A page load: fresh component state over the same storage, then the
    mount effect. *)
Definition reload (s : state) : state :=
  check_token (initial (localStorage s)).

Inductive event : Type :=
| MountEffect
| LoginSucceeded (token : string)  (* onSuccess of either form *)
| LoggedOut                        (* onLogout of the dashboard *)
| SwitchTo (register : bool)       (* onSwitchToRegister / onSwitchToLogin *)
| Reloaded.

Definition step (e : event) (s : state) : state :=
  match e with
  | MountEffect => check_token s
  | LoginSucceeded token => handleLoginSuccess token s
  | LoggedOut => handleLogout s
  | SwitchTo v => setShowRegister v s
  | Reloaded => reload s
  end.

Definition run (es : list event) (s : state) : state :=
  fold_left (fun s e => step e s) es s.

End Home.

(** ** The two forms *)

(** What [catch (err)] of a form tells apart. *)
Inductive thrown : Type :=
| AxiosFailure (server_error : option string) (message : string)
    (* err.response?.data?.error and err.message *)
| ErrorObject (message : string)
| OtherValue (text : string).  (* String(err) *)

(** [{ success, token?, error? }], the body both endpoints answer with. *)
Record AuthResponse := {
  success : bool;
  token : option string;
  error_text : option string;
}.

(** [response.data.success && response.data.token], with the token. *)
Definition granted (d : AuthResponse) : option string :=
  if success d then
    match token d with
    | Some tok => if truthy tok then Some tok else None
    | None => None
    end
  else None.

Module RegisterForm.

Record state := {
  formData : gmap string string;
  loading : bool;
  error : string;
  showPassword : bool;
  showToken : bool;
}.

Definition default_scopes : string :=
  "read_customers,read_orders,read_products".

Definition initial : state :=
  {| formData :=
       <["email"%string := ""%string]>
         (<["password"%string := ""%string]>
            (<["shopDomain"%string := ""%string]>
               (<["accessToken"%string := ""%string]>
                  (<["scopes"%string := default_scopes]> ∅))));
     loading := false; error := ""; showPassword := false;
     showToken := false |}.

(** The [name] attributes of the inputs the form renders. *)
Definition inputs : list string :=
  ["email"; "password"; "shopDomain"; "accessToken"]%string.

(** [setFormData(prev => ({ ...prev, [name]: value })); setError('')] *)
Definition handleChange (name value : string) (s : state) : state :=
  {| formData := <[name := value]> (formData s); loading := loading s;
     error := ""; showPassword := showPassword s;
     showToken := showToken s |}.

Definition type_in (cs : list (string * string)) (s : state) : state :=
  fold_left (fun s c => handleChange c.1 c.2 s) cs s.

(** [handleSubmit] up to its [await]: the state and the body posted. *)
Definition handleSubmit (s : state) : state * gmap string string :=
  ({| formData := formData s; loading := true; error := "";
      showPassword := showPassword s; showToken := showToken s |},
   formData s).

Definition finished (msg : option string) (s : state) : state :=
  {| formData := formData s; loading := false;
     error := match msg with Some m => m | None => error s end;
     showPassword := showPassword s; showToken := showToken s |}.

(** [handleSubmit] after the POST settled: the state, and the token
    [onSuccess] is called with, if it is called.  [response.data] may
    be absent ([response.data?.success]). *)
Definition submit_settled (r : option AuthResponse + thrown) (s : state)
  : state * option string :=
  match r with
  | inl data =>
      match from_option granted None data with
      | Some tok => (finished None s, Some tok)
      | None =>
          (finished
             (Some (or_default (from_option error_text None data)
                      "Registration failed")) s, None)
      end
  | inr (AxiosFailure server_error message) =>
      let serverMessage := or_default server_error message in
      (finished
         (Some (if truthy serverMessage then serverMessage
                else "Registration failed"%string)) s, None)
  | inr (ErrorObject message) => (finished (Some message) s, None)
  | inr (OtherValue _) =>
      (finished (Some "Registration failed"%string) s, None)
  end.

End RegisterForm.

Module LoginForm.

Record state := {
  formData : gmap string string;
  loading : bool;
  error : string;
}.

Definition initial : state :=
  {| formData :=
       <["email"%string := ""%string]>
         (<["password"%string := ""%string]> ∅);
     loading := false; error := "" |}.

Definition handleChange (name value : string) (s : state) : state :=
  {| formData := <[name := value]> (formData s); loading := loading s;
     error := "" |}.

Definition handleSubmit (s : state) : state * gmap string string :=
  ({| formData := formData s; loading := true; error := "" |}, formData s).

Definition finished (msg : option string) (s : state) : state :=
  {| formData := formData s; loading := false;
     error := match msg with Some m => m | None => error s end |}.

(** [handleSubmit] after the POST settled; [response.data] is read
    without a guard, so it is a body here. *)
Definition submit_settled (r : AuthResponse + thrown) (s : state)
  : state * option string :=
  match r with
  | inl data =>
      match granted data with
      | Some tok => (finished None s, Some tok)
      | None =>
          (finished (Some (or_default (error_text data) "Login failed")) s,
           None)
      end
  | inr (AxiosFailure server_error _) =>
      (finished (Some (or_default server_error "Login failed")) s, None)
  | inr (ErrorObject message) => (finished (Some message) s, None)
  | inr (OtherValue text) => (finished (Some text) s, None)
  end.

End LoginForm.

(** The last value typed into the input [name], if any. *)
Fixpoint last_typed (name : string) (cs : list (string * string))
  : option string :=
  match cs with
  | [] => None
  | c :: cs' =>
      match last_typed name cs' with
      | Some v => Some v
      | None => if String.eqb c.1 name then Some c.2 else None
      end
  end.

(** The events of the session gate that leave the stored token alone. *)
Definition keeps_session (e : Home.event) : bool :=
  match e with
  | Home.LoginSucceeded _ | Home.LoggedOut => false
  | _ => true
  end.

(** The token in [localStorage], as [getItem] answers, [null] being
    [None]. *)
Definition stored_token (localStorage : gmap string string)
  : option string :=
  localStorage !! "authToken"%string.

(** Sample data for the views. *)
Definition sample_event (n : Z) : WebhookEvent :=
  {| we_id := n; event_type := "orders/create"; shopify_id := "1001";
     processed_at := "2024-01-01T00:00:00Z" |}.

Definition sample_live : WebhookStatus :=
  {| webhooks_active := true; last_webhook_event := None;
     webhook_count := 4;
     events := [sample_event 1; sample_event 2; sample_event 3;
                sample_event 4] |}.

Definition sample_order (n : Z) : RecentOrder :=
  {| ro_id := n; shopify_order_id := "5001"; total_price := "10.00";
     ro_currency := "USD"; created_at := "2024-01-01T00:00:00Z" |}.

(** A handler run that changes no display entity and not the
    timestamp. *)
Definition retained (p : World * World) : Prop :=
  display (dash p.2) = display (dash p.1)
  /\ lastDashboardUpdate (dash p.2) = lastDashboardUpdate (dash p.1).

(** C6 as the specification states it: all six requests of the cycle
    succeed; the six entities are replaced and the timestamp is set to
    a later value. *)
Definition all_succeed_as_stated (w : World) (silent : bool) (k : caller)
    (es : list event) (r : reply) (u : UserInfo) (o : Overview)
    (od : list OrderByDate) (tc : list TopCustomer)
    (ro : list RecentOrder) (ws : WebhookStatus) : Prop :=
  let t := next_task w in
  let before := run es (fetchAllData silent k w) in
  let after := step (GetSettled t r) before in
  replies_to t es ++ [r] ≡ₚ
    [MeReply (Resolved u); OverviewReply (Resolved o);
     OrdersByDateReply (Resolved od); TopCustomersReply (Resolved tc);
     RecentOrdersReply (Resolved ro); WebhookStatusReply (Resolved ws)] ->
  display (dash after)
  = {| d_userInfo := Some u; d_overview := Some o;
       d_ordersByDate := od; d_topCustomers := tc;
       d_recentOrders := ro; d_webhookStatus := Some ws |}
  /\ lastDashboardUpdate (dash before) < lastDashboardUpdate (dash after).

(** A loaded dashboard, 15 s after mount: the interval fires for the
    first time and starts a polled cycle (task [1]), and the user
    clicks the refresh button (task [2], at its sync POST). *)
Definition sample_polled_and_clicked : World :=
  run ([EffectRun; Tick]
       ++ map (GetSettled 0) (sample_replies (Resolved sample_live))
       ++ ticks 14999 ++ [ClickRefresh])
    (initial 0).

(** The sync POST has succeeded: the world [handleManualRefresh] calls
    [fetchAllData()] in, starting the refresh cycle (task [3]). *)
Definition sample_synced : World :=
  emit [Answered 2] (finish 2 sample_polled_and_clicked).

(** The six replies of the polled cycle, then five of the six replies
    of the refresh cycle, all within the same millisecond. *)
Definition sample_same_ms : list event :=
  map (GetSettled 1) (sample_replies (Resolved sample_live))
  ++ [GetSettled 3 (MeReply (Resolved sample_user));
      GetSettled 3 (OverviewReply (Resolved sample_overview));
      GetSettled 3 (OrdersByDateReply (Resolved []));
      GetSettled 3 (TopCustomersReply (Resolved []));
      GetSettled 3 (RecentOrdersReply (Resolved []))].

(** * Properties *)

Ltac case_ops :=
  repeat match goal with
    | |- context [match ?k with Detached => _ | _ => _ end] => destruct k
    | |- context [if ?b then _ else _] => destruct b eqn:?
    | |- context [match ?x with Some _ => _ | None => _ end] =>
        destruct x eqn:?
    end.

(** ** The average order value *)

(** C9. [avgOrderValue] is [0] when the overview is absent or when
    [Number(total_orders)] is not greater than zero, in particular for
    [total_orders = "0"] whatever the other fields hold; the division
    is evaluated only under a divisor greater than zero, and on
    [{total_revenue: "1000", total_orders: "4"}] the value is [250]. *)
Theorem avgOrderValue_guarded (overview : option Overview) :
  ((forall ov, overview = Some ov ->
      JS.gt (JS.Number (total_orders ov)) JS.zero = false) ->
   avgOrderValue overview = JS.zero)
  /\ (forall ov, overview = Some ov -> total_orders ov = "0"%string ->
      avgOrderValue overview = JS.zero)
  /\ (forall ov, overview = Some ov -> avgOrderValue overview <> JS.zero ->
      JS.gt (JS.Number (total_orders ov)) JS.zero = true)
  /\ (forall ov, overview = Some ov ->
      total_revenue ov = "1000"%string -> total_orders ov = "4"%string ->
      avgOrderValue overview = JS.of_Z 250).
Proof.
  destruct overview as [ov|]; cbn [avgOrderValue].
  - split; [|split; [|split]].
    + intros H. now rewrite (H ov eq_refl).
    + intros ov' [= <-] H0. now rewrite H0.
    + intros ov' [= <-] Hne.
      destruct (JS.gt (JS.Number (total_orders ov)) JS.zero); congruence.
    + intros ov' [= <-] Hrev Hord. rewrite Hrev, Hord. reflexivity.
  - repeat split; intros; congruence.
Qed.

Lemma avgOrderValue_guarded_witness :
  avgOrderValue
    (Some {| total_customers := "7"; total_orders := "0";
             total_revenue := "129.50"; currency := "USD" |}) = JS.zero
  /\ avgOrderValue
       (Some {| total_customers := "3"; total_orders := "4";
                total_revenue := "1000"; currency := "USD" |})
     = JS.Fin false 125 1.
Proof.
  split.
  - apply (proj1 (proj2 (avgOrderValue_guarded (Some _))) _ eq_refl).
    reflexivity.
  - apply (proj2 (proj2 (proj2 (avgOrderValue_guarded (Some _)))) _ eq_refl);
      reflexivity.
Defined.

(** The number model on values whose doubles are known. *)
Example Number_decimal :
  JS.Number "0.1" = JS.Fin false 3602879701896397 (-55)
  /\ JS.Number " 12.5e1 " = JS.of_Z 125
  /\ JS.Number "0x1F" = JS.of_Z 31
  /\ JS.Number "9007199254740993" = JS.Fin false 1 53.
Proof. repeat split; reflexivity. Qed.

Example Number_limits :
  JS.Number "1.7976931348623157e308"
  = JS.Fin false 9007199254740991 971
  /\ JS.Number "1.7976931348623159e308" = JS.Inf false
  /\ JS.Number "5e-324" = JS.Fin false 1 (-1074)
  /\ JS.Number "2.4e-324" = JS.zero
  /\ JS.Number "-0" = JS.Fin true 0 0.
Proof. repeat split; reflexivity. Qed.

Example Number_not_numeric :
  JS.Number "" = JS.zero
  /\ JS.Number "12 units" = JS.NaN
  /\ JS.Number "." = JS.NaN
  /\ JS.Number "-0x10" = JS.NaN
  /\ JS.Number "-Infinity" = JS.Inf true.
Proof. repeat split; reflexivity. Qed.

Example round_ties :
  JS.round (JS.Number "2.5") = JS.of_Z 3
  /\ JS.round (JS.Number "-2.5") = JS.of_Z (-2)
  /\ JS.round (JS.Number "-0.5") = JS.Fin true 0 0
  /\ JS.round (JS.div (JS.of_Z 1999) (JS.of_Z 3)) = JS.of_Z 666.
Proof. repeat split; reflexivity. Qed.

(** A [NaN] or negative order count yields [0], not a fault. *)
Example avgOrderValue_unparsable :
  avgOrderValue
    (Some {| total_customers := "1"; total_orders := "n/a";
             total_revenue := "10"; currency := "USD" |}) = JS.zero
  /\ avgOrderValue
       (Some {| total_customers := "1"; total_orders := "-2";
                total_revenue := "10"; currency := "USD" |}) = JS.zero.
Proof. split; reflexivity. Qed.

(** ** Elementary facts about the operations *)

Lemma fetchAllData_tasks silent k w :
  tasks (fetchAllData silent k w)
  = <[next_task w := AwaitAll silent no_slots k]> (tasks w).
Proof. unfold fetchAllData. now destruct silent. Qed.

Lemma fetchAllData_next silent k w :
  next_task (fetchAllData silent k w) = S (next_task w).
Proof. unfold fetchAllData. now destruct silent. Qed.

Lemma run_callbacks_cons tm l w :
  run_callbacks (tm :: l) w = run_callbacks l (run_callback (action tm) w).
Proof. reflexivity. Qed.

Lemma run_callbacks_clock l w :
  now (run_callbacks l w) = now w
  /\ timers (run_callbacks l w) = timers w
  /\ next_handle (run_callbacks l w) = next_handle w.
Proof.
  revert w. induction l as [|tm l IH]; intros w; [done|].
  rewrite run_callbacks_cons.
  destruct (IH (run_callback (action tm) w)) as (-> & -> & ->).
  by destruct (action tm).
Qed.

Lemma run_callbacks_dash l w :
  dash (run_callbacks l w)
  = if existsb is_reset l
    then set_webhookSetupAttempted false (dash w) else dash w.
Proof.
  revert w. induction l as [|tm l IH]; intros w; [done|].
  rewrite run_callbacks_cons, IH. cbn [existsb].
  unfold is_reset at 2. destruct (action tm); cbn; [done|].
  by destruct (existsb is_reset l).
Qed.

Lemma run_callbacks_next l w :
  (next_task w <= next_task (run_callbacks l w))%nat.
Proof.
  revert w. induction l as [|tm l IH]; intros w; [done|].
  rewrite run_callbacks_cons. etrans; [|apply IH].
  destruct (action tm); cbn; lia.
Qed.

Lemma run_callbacks_tasks l w t :
  (t < next_task w)%nat ->
  tasks (run_callbacks l w) !! t = tasks w !! t.
Proof.
  revert w. induction l as [|tm l IH]; intros w Ht; [done|].
  rewrite run_callbacks_cons, IH.
  - destruct (action tm); cbn; [|done].
    rewrite lookup_insert_ne; [done|lia].
  - destruct (action tm); cbn; lia.
Qed.

(** The tasks a batch of callbacks adds are detached silent cycles. *)
Lemma run_callbacks_new l w t tk :
  tasks (run_callbacks l w) !! t = Some tk ->
  tasks w !! t = Some tk
  \/ (tk = AwaitAll true no_slots Detached
      /\ (next_task w <= t < next_task (run_callbacks l w))%nat).
Proof.
  revert w. induction l as [|tm l IH]; intros w H; [by left|].
  rewrite run_callbacks_cons in *.
  destruct (IH _ H) as [H1|[-> H1]].
  - destruct (action tm); cbn in H1; [|by left].
    destruct (decide (t = next_task w)) as [->|Hne].
    + rewrite lookup_insert_eq in H1. injection H1 as <-. right. split; [done|].
      split; [lia|]. eapply Nat.lt_le_trans; [|apply run_callbacks_next].
      cbn. lia.
    + rewrite lookup_insert_ne in H1 by done. by left.
  - right. split; [done|]. destruct (action tm); cbn in *; lia.
Qed.

Lemma filter_app_length {A} (P : A -> bool) (l1 l2 : list A) :
  length (List.filter P (l1 ++ l2))
  = (length (List.filter P l1) + length (List.filter P l2))%nat.
Proof. by rewrite List.filter_app, length_app. Qed.

Lemma run_callbacks_trace l w :
  setup_requests (run_callbacks l w) = setup_requests w
  /\ logouts (run_callbacks l w) = logouts w
  /\ polls (run_callbacks l w)
     = (length (List.filter is_poll l) + polls w)%nat.
Proof.
  revert w. induction l as [|tm l IH]; intros w; [done|].
  rewrite run_callbacks_cons.
  destruct (IH (run_callback (action tm) w)) as (-> & -> & ->).
  destruct tm as [h d []]; cbn; [|done].
  unfold setup_requests, logouts, polls. cbn.
  repeat split; lia.
Qed.

Lemma fetch_fulfilled_tasks silent k v w :
  tasks (fetch_fulfilled silent k v w)
  = if triggers v w then <[next_task w := AwaitSetupPost]> (tasks w)
    else tasks w.
Proof.
  unfold fetch_fulfilled, triggers, setupWebhooksAutomatically; cbn.
  destruct (webhook_data v) as [ws|], silent, k; cbn;
    try destruct (webhooks_active ws); cbn;
    try destruct (webhookSetupAttempted (dash w)); cbn; done.
Qed.

Lemma fetch_fulfilled_next silent k v w :
  next_task (fetch_fulfilled silent k v w)
  = if triggers v w then S (next_task w) else next_task w.
Proof.
  unfold fetch_fulfilled, triggers, setupWebhooksAutomatically; cbn.
  destruct (webhook_data v) as [ws|], silent, k; cbn;
    try destruct (webhooks_active ws); cbn;
    try destruct (webhookSetupAttempted (dash w)); cbn; done.
Qed.

Lemma fetch_fulfilled_trace silent k v w :
  trace (fetch_fulfilled silent k v w)
  = if triggers v w
    then Sent (next_task w) POST_setup_webhooks :: trace w
    else trace w.
Proof.
  unfold fetch_fulfilled, triggers, setupWebhooksAutomatically; cbn.
  destruct (webhook_data v) as [ws|], silent, k; cbn;
    try destruct (webhooks_active ws); cbn;
    try destruct (webhookSetupAttempted (dash w)); cbn; done.
Qed.

Lemma fetch_fulfilled_clock silent k v w :
  now (fetch_fulfilled silent k v w) = now w
  /\ timers (fetch_fulfilled silent k v w) = timers w
  /\ next_handle (fetch_fulfilled silent k v w) = next_handle w.
Proof.
  unfold fetch_fulfilled, triggers, setupWebhooksAutomatically; cbn.
  destruct (webhook_data v) as [ws|], silent, k; cbn;
    try destruct (webhooks_active ws); cbn;
    try destruct (webhookSetupAttempted (dash w)); cbn; done.
Qed.

Lemma fetch_fulfilled_display silent k v w :
  display (dash (fetch_fulfilled silent k v w))
  = {| d_userInfo := Some (user_data v);
       d_overview := Some (overview_data v);
       d_ordersByDate := ordersDate_data v;
       d_topCustomers := topCustomers_data v;
       d_recentOrders := recentOrders_data v;
       d_webhookStatus := webhook_data v |}
  /\ lastDashboardUpdate (dash (fetch_fulfilled silent k v w)) = now w.
Proof.
  unfold fetch_fulfilled, triggers, setupWebhooksAutomatically; cbn.
  destruct (webhook_data v) as [ws|], silent, k; cbn;
    try destruct (webhooks_active ws); cbn;
    try destruct (webhookSetupAttempted (dash w)); cbn; done.
Qed.

Lemma fetch_rejected_frame silent k e w :
  tasks (fetch_rejected silent k e w) = tasks w
  /\ next_task (fetch_rejected silent k e w) = next_task w
  /\ now (fetch_rejected silent k e w) = now w
  /\ timers (fetch_rejected silent k e w) = timers w
  /\ next_handle (fetch_rejected silent k e w) = next_handle w
  /\ display (dash (fetch_rejected silent k e w)) = display (dash w)
  /\ lastDashboardUpdate (dash (fetch_rejected silent k e w))
     = lastDashboardUpdate (dash w)
  /\ trace (fetch_rejected silent k e w)
     = if auth_rejected e then LoggedOut :: trace w else trace w.
Proof.
  unfold fetch_rejected, onLogout.
  destruct (auth_rejected e), silent, k; done.
Qed.

Lemma step_next e w : (next_task w <= next_task (step e w))%nat.
Proof.
  destruct e as [t r|t r| | | | |]; cbn.
  - destruct (tasks w !! t) as [[silent got k| |]|]; try done.
    destruct (settle r got); try done.
    + rewrite fetch_fulfilled_next. cbn. case_ops; lia.
    + by destruct (fetch_rejected_frame silent k err (finish t w))
        as (_ & -> & _).
  - destruct (tasks w !! t) as [[silent got k| |]|]; try done;
      destruct r; cbn; case_ops; cbn; lia.
  - unfold tick. etrans; [|apply run_callbacks_next]. done.
  - lia.
  - unfold effect_body, clear_polling. case_ops; cbn; lia.
  - unfold effect_cleanup, clear_polling. case_ops; cbn; lia.
  - lia.
Qed.

Lemma step_tasks_frame e w t :
  (t < next_task w)%nat -> addressed e <> Some t ->
  tasks (step e w) !! t = tasks w !! t.
Proof.
  intros Ht Hne.
  destruct e as [t' r|t' r| | | | |]; cbn in *.
  - assert (t' <> t) by congruence.
    destruct (tasks w !! t') as [[silent got k| |]|]; try done.
    destruct (settle r got); cbn; try done.
    + by rewrite lookup_insert_ne.
    + rewrite fetch_fulfilled_tasks. cbn.
      destruct (triggers _ _);
        rewrite ?lookup_insert_ne, lookup_delete_ne by (done || lia); done.
    + destruct (fetch_rejected_frame silent k err (finish t' w)) as (-> & _).
      cbn. by rewrite lookup_delete_ne.
  - assert (t' <> t) by congruence.
    destruct (tasks w !! t') as [[silent got k| |]|]; try done;
      destruct r; cbn; case_ops; cbn;
      rewrite ?lookup_insert_ne, ?lookup_delete_ne by (done || lia); done.
  - unfold tick. by rewrite run_callbacks_tasks.
  - rewrite lookup_insert_ne; [done|lia].
  - unfold effect_body, clear_polling.
    case_ops; cbn; rewrite lookup_insert_ne; done || lia.
  - unfold effect_cleanup, clear_polling. case_ops; done.
  - done.
Qed.

(** Task numbers are never reused: a finished cycle stays finished. *)
Lemma step_absent e w t :
  (t < next_task w)%nat -> tasks w !! t = None ->
  tasks (step e w) !! t = None.
Proof.
  intros Ht Hnone.
  destruct (decide (addressed e = Some t)) as [Heq|Hne].
  - destruct e; cbn in *; try done; injection Heq as ->; by rewrite Hnone.
  - by rewrite step_tasks_frame.
Qed.

Lemma run_cons e es w : run (e :: es) w = run es (step e w).
Proof. reflexivity. Qed.

Lemma run_next es w : (next_task w <= next_task (run es w))%nat.
Proof.
  revert w. induction es as [|e es IH]; intros w; [done|].
  rewrite run_cons. etrans; [apply (step_next e)|apply IH].
Qed.

Lemma run_absent es w t :
  (t < next_task w)%nat -> tasks w !! t = None ->
  tasks (run es w) !! t = None.
Proof.
  revert w. induction es as [|e es IH]; intros w Ht Hnone; [done|].
  rewrite run_cons. apply IH.
  - eapply Nat.lt_le_trans; [done|apply step_next].
  - by apply step_absent.
Qed.

(** ** [Promise.all] and the replies of one cycle *)

Lemma settle_filled r got :
  filled (endpoint_of r) got = true -> settle r got = Ignored.
Proof.
  destruct r as [[]|[]|[]|[]|[]|[]], got as [[] [] [] [] [] []]; cbn;
    intros H; try done; by apply bool_decide_eq_true, is_Some_None in H.
Qed.

Lemma settle_failure r got e :
  filled (endpoint_of r) got = false -> mandatory_failure r = Some e ->
  settle r got = FirstRejection e.
Proof.
  destruct r as [[]|[]|[]|[]|[]|[]], got as [[] [] [] [] [] []]; cbn;
    intros H1 H2; try done; congruence.
Qed.

Lemma settle_fill r got :
  filled (endpoint_of r) got = false -> mandatory_failure r = None ->
  settle r got = stored (fill r got).
Proof.
  destruct r as [[]|[]|[]|[]|[]|[]], got as [[] [] [] [] [] []]; cbn;
    intros H1 H2; try done.
Qed.

Lemma filled_fill r got ep :
  mandatory_failure r = None ->
  filled ep (fill r got)
  = if decide (ep = endpoint_of r) then true else filled ep got.
Proof.
  destruct r as [[]|[]|[]|[]|[]|[]], ep; cbn; intros H; try done.
Qed.

Lemma all_values_filled got v ep :
  all_values got = Some v -> filled ep got = true.
Proof.
  destruct got as [[] [] [] [] [] []], ep; cbn; intros H; try done.
Qed.

Lemma stored_unfilled got ep :
  filled ep got = false -> stored got = Pending got.
Proof.
  intros H. unfold stored. destruct (all_values got) as [v|] eqn:Hv; [|done].
  apply (all_values_filled _ _ ep) in Hv. congruence.
Qed.

Lemma fill_comm r1 r2 got :
  endpoint_of r1 <> endpoint_of r2 ->
  fill r1 (fill r2 got) = fill r2 (fill r1 got).
Proof.
  destruct r1 as [[]|[]|[]|[]|[]|[]], r2 as [[]|[]|[]|[]|[]|[]]; cbn;
    intros H; done.
Qed.

Lemma fills_perm rs rs' :
  rs ≡ₚ rs' -> NoDup (map endpoint_of rs) ->
  forall got, fills rs got = fills rs' got.
Proof.
  induction 1 as [|r rs rs' Hp IH|r1 r2 rs|rs1 rs2 rs3 H12 IH12 H23 IH23];
    intros Hnd got.
  - done.
  - cbn. apply IH. by inversion Hnd.
  - cbn. rewrite fill_comm; [done|].
    inversion Hnd as [|? ? Hin _]; subst. set_solver.
  - rewrite IH12 by done. apply IH23. by rewrite <- H12.
Qed.

(** While the replies bring no mandatory failure and settle distinct
    outstanding requests, [Promise.all] stores them; it can only
    fulfil at the last one. *)
Lemma promise_all_fills rs got :
  (forall r, r ∈ rs -> mandatory_failure r = None) ->
  (forall r, r ∈ rs -> filled (endpoint_of r) got = false) ->
  NoDup (map endpoint_of rs) ->
  promise_all rs got
  = match rs with [] => Pending got | _ => stored (fills rs got) end.
Proof.
  revert got. induction rs as [|r rs IH]; intros got Hok Hun Hnd; [done|].
  cbn [promise_all]. rewrite settle_fill by (apply Hok || apply Hun; left).
  inversion Hnd as [|? ? Hnin Hnd']; subst.
  destruct rs as [|r2 rs];
    [cbn; unfold stored; by destruct (all_values _)|].
  rewrite (stored_unfilled _ (endpoint_of r2)).
  - rewrite IH; [done| | |done].
    + intros r' Hr'. apply Hok. by right.
    + intros r' Hr'. rewrite filled_fill by (apply Hok; left).
      rewrite decide_False; [apply Hun; by right|].
      intros Heq. apply Hnin. rewrite <- Heq. by apply list_elem_of_fmap_2.
  - rewrite filled_fill by (apply Hok; left).
    rewrite decide_False; [apply Hun; right; left|].
    intros Heq. apply Hnin. rewrite <- Heq. apply list_elem_of_fmap_2. left.
Qed.

(** The first mandatory failure to arrive rejects [Promise.all]. *)
Lemma promise_all_first_failure rs got e :
  (forall r, r ∈ rs -> filled (endpoint_of r) got = false) ->
  NoDup (map endpoint_of rs) ->
  first_failure rs = Some e ->
  promise_all rs got = FirstRejection e.
Proof.
  revert got. induction rs as [|r rs IH]; intros got Hun Hnd Hff; [done|].
  cbn in Hff. cbn [promise_all].
  inversion Hnd as [|? ? Hnin Hnd']; subst.
  destruct (mandatory_failure r) as [e'|] eqn:Hr.
  - injection Hff as ->. rewrite (settle_failure _ _ e); [done| |done].
    apply Hun. left.
  - rewrite settle_fill by (done || apply Hun; left).
    destruct rs as [|r2 rs]; [done|].
    rewrite (stored_unfilled _ (endpoint_of r2)).
    + apply IH; [|done|done].
      intros r' Hr'. rewrite filled_fill by done.
      rewrite decide_False; [apply Hun; by right|].
      intros Heq. apply Hnin. rewrite <- Heq. by apply list_elem_of_fmap_2.
    + rewrite filled_fill by done.
      rewrite decide_False; [apply Hun; right; left|].
      intros Heq. apply Hnin. rewrite <- Heq. apply list_elem_of_fmap_2. left.
Qed.

(** ** One cycle inside an arbitrary execution *)

Section Cycle.
Variables (t : nat) (silent : bool) (k : caller).

Lemma step_get_task w r got :
  tasks w !! t = Some (AwaitAll silent got k) ->
  step (GetSettled t r) w
  = match settle r got with
    | Ignored => w
    | Pending got' => set_task t (AwaitAll silent got' k) w
    | AllFulfilled v => fetch_fulfilled silent k v (finish t w)
    | FirstRejection e => fetch_rejected silent k e (finish t w)
    end.
Proof. intros H. cbn. by rewrite H. Qed.

Lemma fetch_fulfilled_gone v w :
  (t < next_task w)%nat ->
  tasks (fetch_fulfilled silent k v (finish t w)) !! t = None
  /\ (t < next_task (fetch_fulfilled silent k v (finish t w)))%nat.
Proof.
  intros Ht. rewrite fetch_fulfilled_tasks, fetch_fulfilled_next. cbn.
  destruct (triggers _ _);
    rewrite ?lookup_insert_ne, ?lookup_delete_eq by lia; split; done || lia.
Qed.

Lemma fetch_rejected_gone e w :
  (t < next_task w)%nat ->
  tasks (fetch_rejected silent k e (finish t w)) !! t = None
  /\ (t < next_task (fetch_rejected silent k e (finish t w)))%nat.
Proof.
  intros Ht.
  destruct (fetch_rejected_frame silent k e (finish t w)) as (-> & -> & _).
  cbn. by rewrite lookup_delete_eq.
Qed.

(** Where the cycle stands after [es]: still collecting, or over. *)
Lemma task_after es w got :
  tasks w !! t = Some (AwaitAll silent got k) -> (t < next_task w)%nat ->
  tasks (run es w) !! t
  = match promise_all (replies_to t es) got with
    | Pending got1 => Some (AwaitAll silent got1 k)
    | _ => None
    end.
Proof.
  revert w got. induction es as [|e es IH]; intros w got Htask Ht; [done|].
  rewrite run_cons.
  assert (Hframe : addressed e <> Some t ->
            tasks (run es (step e w)) !! t
            = match promise_all (replies_to t es) got with
              | Pending got1 => Some (AwaitAll silent got1 k)
              | _ => None
              end).
  { intros Hne. apply IH.
    - by rewrite step_tasks_frame.
    - eapply Nat.lt_le_trans; [done|apply step_next]. }
  destruct e as [t' r|t' r| | | | |]; cbn [replies_to];
    try (apply Hframe; by cbn).
  - destruct (decide (t' = t)) as [->|Hne];
      [|apply Hframe; cbn; congruence].
    rewrite (step_get_task _ _ _ Htask). cbn [promise_all].
    destruct (settle r got) as [|got'|v|err].
    + by apply IH.
    + apply IH; [apply lookup_insert_eq|done].
    + apply run_absent; by apply fetch_fulfilled_gone.
    + apply run_absent; by apply fetch_rejected_gone.
  - destruct (decide (t' = t)) as [->|Hne];
      [|apply Hframe; cbn; congruence].
    cbn. rewrite Htask. by apply IH.
Qed.

Lemma cycle_steps_absent es w :
  (t < next_task w)%nat -> tasks w !! t = None ->
  Forall (fun p => p.2 = p.1) (cycle_steps t es w).
Proof.
  revert w. induction es as [|e es IH]; intros w Ht Hnone; [constructor|].
  cbn [cycle_steps]. apply Forall_app. split.
  - destruct e as [t' r| | | | | |]; try constructor.
    destruct (decide (t' = t)) as [->|]; [|constructor].
    constructor; [|constructor]. cbn. by rewrite Hnone.
  - apply IH; [|by apply step_absent].
    eapply Nat.lt_le_trans; [done|apply step_next].
Qed.

(** Until [Promise.all] settles, the handlers only store values. *)
Lemma cycle_steps_pending es w got got1 :
  tasks w !! t = Some (AwaitAll silent got k) -> (t < next_task w)%nat ->
  promise_all (replies_to t es) got = Pending got1 ->
  Forall quiet (cycle_steps t es w).
Proof.
  revert w got. induction es as [|e es IH]; intros w got Htask Ht Hp;
    [constructor|].
  cbn [cycle_steps].
  assert (Hframe : addressed e <> Some t ->
            promise_all (replies_to t es) got = Pending got1 ->
            Forall quiet (cycle_steps t es (step e w))).
  { intros Hne Hp'. eapply IH; [|
      eapply Nat.lt_le_trans; [done|apply step_next] | done ].
    by rewrite step_tasks_frame. }
  destruct e as [t' r|t' r| | | | |]; cbn [replies_to] in Hp;
    try (apply Hframe; by cbn).
  - destruct (decide (t' = t)) as [->|Hne];
      [|apply Hframe; [cbn; congruence|done]].
    rewrite (step_get_task _ _ _ Htask). cbn [promise_all] in Hp.
    destruct (settle r got) as [|got'|v|err]; try done.
    + constructor; [done|]. by eapply IH.
    + constructor; [done|].
      eapply IH; [apply lookup_insert_eq|done|done].
  - destruct (decide (t' = t)) as [->|Hne];
      [|apply Hframe; [cbn; congruence|done]].
    cbn. rewrite Htask. by eapply IH.
Qed.

(** A cycle that [Promise.all] settles: quiet handler runs, then the
    one run of the success block or of the [catch] block, then
    nothing. *)
Lemma cycle_steps_settled es w got s :
  tasks w !! t = Some (AwaitAll silent got k) -> (t < next_task w)%nat ->
  promise_all (replies_to t es) got = s -> settled s = true ->
  exists pre w1 post,
    cycle_steps t es w = pre ++ (w1, conclude silent k s (finish t w1)) :: post
    /\ Forall quiet pre /\ Forall quiet post.
Proof.
  intros Htask Ht Hp Hs. revert w got Htask Ht Hp.
  induction es as [|ev es IH]; intros w got Htask Ht Hp;
    [cbn in Hp; by subst s|].
  cbn [cycle_steps].
  assert (Hframe : addressed ev <> Some t ->
            promise_all (replies_to t es) got = s ->
            exists pre w1 post,
              cycle_steps t es (step ev w)
              = pre ++ (w1, conclude silent k s (finish t w1)) :: post
              /\ Forall quiet pre /\ Forall quiet post).
  { intros Hne Hp'. eapply IH; [|
      eapply Nat.lt_le_trans; [done|apply step_next] | done ].
    by rewrite step_tasks_frame. }
  destruct ev as [t' r|t' r| | | | |]; cbn [replies_to] in Hp;
    try (apply Hframe; by cbn).
  - destruct (decide (t' = t)) as [->|Hne];
      [|apply Hframe; [cbn; congruence|done]].
    rewrite (step_get_task _ _ _ Htask). cbn [promise_all] in Hp.
    destruct (settle r got) as [|got'|v|err].
    + destruct (IH w got Htask Ht Hp) as (pre & w1 & post & -> & ? & ?).
      exists ((w, w) :: pre), w1, post. repeat split; try done.
      by constructor.
    + destruct (IH (set_task t (AwaitAll silent got' k) w) got')
        as (pre & w1 & post & -> & ? & ?);
        [apply lookup_insert_eq|done|done|].
      eexists (_ :: pre), w1, post. repeat split; try done.
      by constructor.
    + subst s. exists [], w, (cycle_steps t es
        (fetch_fulfilled silent k v (finish t w))).
      repeat split; [constructor|].
      eapply Forall_impl;
        [apply cycle_steps_absent; by apply fetch_fulfilled_gone|].
      intros [a b] Hab. cbn in Hab. subst. done.
    + subst s. exists [], w, (cycle_steps t es
        (fetch_rejected silent k err (finish t w))).
      repeat split; [constructor|].
      eapply Forall_impl;
        [apply cycle_steps_absent; by apply fetch_rejected_gone|].
      intros [a b] Hab. cbn in Hab. subst. done.
  - destruct (decide (t' = t)) as [->|Hne];
      [|apply Hframe; [cbn; congruence|done]].
    cbn. rewrite Htask. by eapply IH.
Qed.
End Cycle.

Lemma filled_fills rs got ep :
  (forall r, r ∈ rs -> mandatory_failure r = None) ->
  ep ∉ map endpoint_of rs ->
  filled ep (fills rs got) = filled ep got.
Proof.
  revert got. induction rs as [|r rs IH]; intros got Hok Hnin; [done|].
  cbn. rewrite IH.
  - rewrite filled_fill by (apply Hok; left).
    rewrite decide_False; [done|]. intros ->. apply Hnin. left.
  - intros r' Hr'. apply Hok. by right.
  - intros Hin. apply Hnin. by right.
Qed.

Lemma all_endpoints_nodup : NoDup all_endpoints.
Proof. apply (bool_decide_unpack _). by vm_compute. Qed.

Lemma fills_snoc rs r got : fills (rs ++ [r]) got = fill r (fills rs got).
Proof. unfold fills. by rewrite fold_left_app. Qed.

Lemma fetchAllData_started silent k w :
  tasks (fetchAllData silent k w) !! next_task w
  = Some (AwaitAll silent no_slots k)
  /\ (next_task w < next_task (fetchAllData silent k w))%nat.
Proof.
  rewrite fetchAllData_tasks, fetchAllData_next, lookup_insert_eq.
  split; [done|lia].
Qed.

(** A cycle whose replies are, in any order and interleaved with any
    other events, the six replies [expected] (none a mandatory
    failure): nothing is applied before the last reply, and the last
    reply runs the success block on the collected values. *)
Lemma cycle_fulfilled w silent k es r expected v :
  let t := next_task w in
  let before := run es (fetchAllData silent k w) in
  replies_to t es ++ [r] ≡ₚ expected ->
  NoDup (map endpoint_of expected) ->
  (forall r', r' ∈ expected -> mandatory_failure r' = None) ->
  all_values (fills expected no_slots) = Some v ->
  Forall quiet (cycle_steps t es (fetchAllData silent k w))
  /\ step (GetSettled t r) before
     = fetch_fulfilled silent k v (finish t before).
Proof.
  intros t before Hperm Hnd Hok Hv. subst t.
  destruct (fetchAllData_started silent k w) as [Htask Hlt].
  set (rs := replies_to (next_task w) es) in *.
  assert (Hnd' : NoDup (map endpoint_of (rs ++ [r]))) by by rewrite Hperm.
  assert (Hok' : forall r', r' ∈ rs ++ [r] -> mandatory_failure r' = None).
  { intros r' Hr'. apply Hok. by rewrite <- Hperm. }
  rewrite map_app in Hnd'. apply NoDup_app in Hnd' as (Hnd1 & Hdisj & _).
  assert (Hr : filled (endpoint_of r) (fills rs no_slots) = false).
  { rewrite filled_fills; [by destruct r| |].
    - intros r' Hr'. apply Hok'. apply elem_of_app. by left.
    - intros Hin. apply (Hdisj _ Hin). left. }
  assert (Hpending : promise_all rs no_slots = Pending (fills rs no_slots)).
  { rewrite promise_all_fills; [| | |done].
    - destruct rs; [done|]. by apply (stored_unfilled _ (endpoint_of r)).
    - intros r' Hr'. apply Hok'. apply elem_of_app. by left.
    - intros r' _. by destruct r'. }
  split.
  - eapply cycle_steps_pending; [exact Htask|exact Hlt|exact Hpending].
  - assert (Hbefore : tasks before !! next_task w
                      = Some (AwaitAll silent (fills rs no_slots) k)).
    { unfold before. rewrite (task_after _ _ _ _ _ _ Htask Hlt).
      fold rs. by rewrite Hpending. }
    rewrite (step_get_task _ _ _ _ _ _ Hbefore).
    rewrite settle_fill; [|done|].
    + rewrite <- fills_snoc. unfold stored.
      rewrite (fills_perm _ _ Hperm), Hv; [done|].
      by rewrite Hperm.
    + apply Hok'. apply elem_of_app. right. left.
Qed.

(** ** The fetch cycle *)

(** C3. A cycle whose five mandatory requests succeed and whose
    webhook-status request fails, the replies arriving in any order:
    the cycle succeeds all the same; the five entities are replaced by
    the fetched values, the webhook status becomes [null], the
    timestamp is recorded and [onLogout] is not called, whatever the
    error of the webhook-status request was. *)
Theorem fetch_cycle_webhook_status_fails w silent k es r u o od tc ro e :
  let t := next_task w in
  let before := run es (fetchAllData silent k w) in
  let after := step (GetSettled t r) before in
  replies_to t es ++ [r] ≡ₚ
    [MeReply (Resolved u); OverviewReply (Resolved o);
     OrdersByDateReply (Resolved od); TopCustomersReply (Resolved tc);
     RecentOrdersReply (Resolved ro); WebhookStatusReply (Rejected e)] ->
  Forall quiet (cycle_steps t es (fetchAllData silent k w))
  /\ display (dash after)
     = {| d_userInfo := Some u; d_overview := Some o;
          d_ordersByDate := od; d_topCustomers := tc;
          d_recentOrders := ro; d_webhookStatus := None |}
  /\ lastDashboardUpdate (dash after) = now before
  /\ trace after = trace before
  /\ tasks after !! t = None.
Proof.
  intros t before after Hperm.
  destruct (cycle_fulfilled w silent k es r _
              {| user_data := u; overview_data := o; ordersDate_data := od;
                 topCustomers_data := tc; recentOrders_data := ro;
                 webhook_data := None |} Hperm) as [Hquiet Hstep].
  - apply all_endpoints_nodup.
  - intros r' Hr'. repeat (apply elem_of_cons in Hr' as [->|Hr']; [done|]).
    by apply elem_of_nil in Hr'.
  - done.
  - split; [done|]. unfold after. fold t before in Hstep. rewrite Hstep.
    destruct (fetch_fulfilled_display silent k
                {| user_data := u; overview_data := o; ordersDate_data := od;
                   topCustomers_data := tc; recentOrders_data := ro;
                   webhook_data := None |} (finish t before)) as [-> ->].
    rewrite fetch_fulfilled_trace, fetch_fulfilled_tasks. cbn.
    by rewrite lookup_delete_eq.
Qed.

Lemma quiet_unchanged p : quiet p -> unchanged p.
Proof. intros [Hd Ht]. unfold unchanged, logouts. by rewrite Hd, Ht. Qed.

Lemma promise_all_rejection rs got e :
  promise_all rs got = FirstRejection e -> first_failure rs <> None.
Proof.
  revert got. induction rs as [|r rs IH]; intros got H; [done|].
  cbn in *. destruct (mandatory_failure r) eqn:Hr; [done|].
  destruct (decide (filled (endpoint_of r) got = true)) as [Hf|Hf].
  - rewrite settle_filled in H by done. by eapply IH.
  - apply not_true_is_false in Hf. rewrite settle_fill in H by done.
    unfold stored in H. destruct (all_values _); [done|]. by eapply IH.
Qed.

Lemma unfilled_no_slots (rs : list reply) r :
  r ∈ rs -> filled (endpoint_of r) no_slots = false.
Proof. intros _. by destruct r. Qed.

Lemma first_failure_exists (rs : list reply) r e :
  r ∈ rs -> mandatory_failure r = Some e ->
  exists e', first_failure rs = Some e'.
Proof.
  induction rs as [|r' rs IH]; intros Hin Hm; [by apply elem_of_nil in Hin|].
  cbn. destruct (mandatory_failure r') as [e'|] eqn:Hr'; [by exists e'|].
  apply elem_of_cons in Hin as [->|Hin]; [congruence|by apply IH].
Qed.

(** C4, as the code has it. A cycle in which a mandatory request
    fails, in whatever way: no handler of the cycle changes a display
    entity or the timestamp.  Whether the session stays active is
    decided by the first mandatory failure to arrive alone: no handler
    calls [onLogout] exactly when that failure is not a 401 or 403. *)
Theorem fetch_cycle_non_auth_failure w silent k es :
  let t := next_task w in
  NoDup (map endpoint_of (replies_to t es)) ->
  (exists r e, r ∈ replies_to t es /\ mandatory_failure r = Some e) ->
  Forall retained (cycle_steps t es (fetchAllData silent k w))
  /\ exists e,
       first_failure (replies_to t es) = Some e
       /\ (auth_rejected e = false
           <-> Forall unchanged
                 (cycle_steps t es (fetchAllData silent k w))).
Proof.
  intros t Hnd (r & e0 & Hin & Hm).
  destruct (first_failure_exists _ _ _ Hin Hm) as [e Hff].
  destruct (fetchAllData_started silent k w) as [Htask Hlt].
  destruct (cycle_steps_settled t silent k es _ no_slots (FirstRejection e)
              Htask Hlt) as (pre & w1 & post & -> & Hpre & Hpost).
  - apply promise_all_first_failure; [apply unfilled_no_slots|done|done].
  - done.
  - cbn [conclude].
    destruct (fetch_rejected_frame silent k e (finish t w1))
      as (_ & _ & _ & _ & _ & Hd & Hs & Htr).
    split.
    + apply Forall_app. split; [|constructor].
      * eapply Forall_impl; [exact Hpre|]. intros p [Hp _].
        unfold retained. by rewrite Hp.
      * unfold retained. cbn [fst snd]. by rewrite Hd, Hs.
      * eapply Forall_impl; [exact Hpost|]. intros p [Hp _].
        unfold retained. by rewrite Hp.
    + exists e. split; [done|]. split.
      * intros Hauth. apply Forall_app. split; [|constructor].
        -- eapply Forall_impl; [exact Hpre|apply quiet_unchanged].
        -- unfold unchanged, logouts. cbn [fst snd].
           by rewrite Hd, Hs, Htr, Hauth.
        -- eapply Forall_impl; [exact Hpost|apply quiet_unchanged].
      * intros Hall. apply Forall_app in Hall as [_ Hall].
        inversion Hall as [|p l (_ & _ & Hl) _]; subst.
        unfold logouts in Hl. cbn [fst snd] in Hl. rewrite Htr in Hl.
        destruct (auth_rejected e); [|done]. cbn in Hl. lia.
Qed.

Lemma sum_quiet_logouts l :
  Forall quiet l ->
  sum_list_with (fun p => (logouts p.2 - logouts p.1)%nat) l = 0%nat.
Proof.
  induction 1 as [|p l [_ Ht] _ IH]; [done|].
  cbn. unfold logouts at 1 2. rewrite Ht, IH. lia.
Qed.

(** C5, as the code has it. A cycle in which the first mandatory
    failure to arrive is a 401 or 403 calls [onLogout] exactly once,
    whatever else arrives and in whatever order; a cycle without a
    mandatory failure never calls it, whatever the webhook-status
    request fails with. *)
Theorem fetch_cycle_auth_failure w silent k es :
  let t := next_task w in
  (forall e, NoDup (map endpoint_of (replies_to t es)) ->
     first_failure (replies_to t es) = Some e ->
     auth_rejected e = true ->
     cycle_logouts t es (fetchAllData silent k w) = 1%nat)
  /\ (first_failure (replies_to t es) = None ->
      cycle_logouts t es (fetchAllData silent k w) = 0%nat).
Proof.
  intros t.
  destruct (fetchAllData_started silent k w) as [Htask Hlt].
  split.
  - intros e Hnd Hff Hauth.
    destruct (cycle_steps_settled t silent k es _ no_slots (FirstRejection e)
                Htask Hlt) as (pre & w1 & post & Heq & Hpre & Hpost).
    + apply promise_all_first_failure; [apply unfilled_no_slots|done|done].
    + done.
    + unfold cycle_logouts. rewrite Heq, sum_list_with_app. cbn.
      rewrite !sum_quiet_logouts by done. unfold logouts.
      destruct (fetch_rejected_frame silent k e (finish t w1))
        as (_ & _ & _ & _ & _ & _ & _ & ->).
      rewrite Hauth. cbn. lia.
  - intros Hnone. unfold cycle_logouts.
    destruct (promise_all (replies_to t es) no_slots) as [|got1|v|e] eqn:Hp.
    + rewrite sum_quiet_logouts; [done|].
      eapply (cycle_steps_pending t silent k es _ no_slots no_slots);
        [done|done|].
      exfalso. clear -Hp. revert Hp. generalize no_slots.
      induction (replies_to t es) as [|r rs IH]; intros got; [done|].
      cbn. destruct (settle r got) eqn:?; try done; apply IH.
    + rewrite sum_quiet_logouts; [done|].
      by eapply (cycle_steps_pending t silent k es _ no_slots got1).
    + destruct (cycle_steps_settled t silent k es _ no_slots (AllFulfilled v)
                  Htask Hlt) as (pre & w1 & post & -> & Hpre & Hpost);
        [done|done|].
      rewrite sum_list_with_app. cbn.
      rewrite !sum_quiet_logouts by done. unfold logouts.
      rewrite fetch_fulfilled_trace. cbn.
      destruct (triggers _ _); cbn; lia.
    + by apply promise_all_rejection in Hp.
Qed.

(** ** Invariants of the remediation guard *)

Lemma fetch_fulfilled_guard silent k v w :
  webhookSetupAttempted (dash (fetch_fulfilled silent k v w))
  = match k with
    | FromSetup => false
    | _ => webhookSetupAttempted (dash w) || triggers v w
    end.
Proof.
  unfold fetch_fulfilled, triggers, setupWebhooksAutomatically; cbn.
  destruct (webhook_data v) as [ws|], silent, k; cbn;
    try destruct (webhooks_active ws); cbn;
    try destruct (webhookSetupAttempted (dash w)) eqn:?; cbn; done.
Qed.

Lemma fetch_rejected_guard silent k e w :
  webhookSetupAttempted (dash (fetch_rejected silent k e w))
  = match k with
    | FromSetup => false
    | _ => webhookSetupAttempted (dash w)
    end.
Proof. unfold fetch_rejected, onLogout. by destruct (auth_rejected e), silent, k. Qed.

Lemma triggers_guard v w :
  triggers v w = true -> webhookSetupAttempted (dash w) = false.
Proof.
  unfold triggers. destruct (webhook_data v); [|done].
  destruct (webhookSetupAttempted (dash w)); [|done].
  by rewrite andb_false_r.
Qed.

Lemma resets_rearm t l :
  List.filter is_reset (concat (map (rearm t) l))
  = List.filter (fun tm => negb (is_due t tm)) (List.filter is_reset l).
Proof.
  induction l as [|tm l IH]; [done|].
  cbn [map concat]. rewrite List.filter_app, IH. unfold rearm, is_reset at 1 3.
  destruct tm as [h d []]; cbn; destruct (is_due t _) eqn:Hd; cbn;
    rewrite ?Hd; done.
Qed.

Lemma filter_length_le {A} (f : A -> bool) l :
  (length (List.filter f l) <= length l)%nat.
Proof. induction l as [|x l IH]; cbn; [done|]. destruct (f x); cbn; lia. Qed.

Lemma filter_filter_comm {A} (f g : A -> bool) l :
  List.filter f (List.filter g l) = List.filter g (List.filter f l).
Proof.
  induction l as [|x l IH]; cbn; [done|].
  destruct (f x) eqn:Hf, (g x) eqn:Hg; cbn; rewrite ?Hf, ?Hg, ?IH; done.
Qed.

Lemma resets_clearInterval h w :
  resets (clearInterval h w)
  = List.filter (fun tm => negb (handle tm =? h)%positive) (resets w).
Proof. unfold resets. cbn. apply filter_filter_comm. Qed.

Lemma tick_guard w :
  webhookSetupAttempted (dash (tick w))
  = webhookSetupAttempted (dash w)
    && negb (existsb (is_due (now w + 1)) (resets w)).
Proof.
  unfold tick. rewrite run_callbacks_dash. cbn [dash].
  assert (existsb is_reset (List.filter (is_due (now w + 1)) (timers w))
          = existsb (is_due (now w + 1)) (resets w)) as ->.
  { unfold resets. induction (timers w) as [|tm l IH]; [done|]. cbn.
    destruct (is_due _ tm) eqn:Hd, (is_reset tm) eqn:Hr; cbn;
      rewrite ?Hd, ?Hr, ?IH; cbn; done. }
  destruct (existsb _ _); cbn; by rewrite ?andb_true_r, ?andb_false_r.
Qed.

Lemma tick_resets w :
  resets (tick w)
  = List.filter (fun tm => negb (is_due (now w + 1) tm)) (resets w).
Proof.
  unfold tick, resets.
  destruct (run_callbacks_clock
              (List.filter (is_due (now w + 1)) (timers w))
              (advance w))
    as (_ & -> & _).
  cbn. apply resets_rearm.
Qed.

Lemma tick_tasks w t tk :
  tasks (tick w) !! t = Some tk ->
  tasks w !! t = Some tk \/ remediating tk = false.
Proof.
  unfold tick. intros H.
  apply run_callbacks_new in H as [H|[-> _]]; [by left|by right].
Qed.

Lemma guard_ok_mono w w' :
  guard_ok w ->
  (webhookSetupAttempted (dash w') = false ->
   webhookSetupAttempted (dash w) = false) ->
  (forall t tk, tasks w' !! t = Some tk -> remediating tk = true ->
     exists tk0, tasks w !! t = Some tk0 /\ remediating tk0 = true) ->
  (resets w = [] -> resets w' = []) ->
  (length (resets w') <= length (resets w))%nat ->
  guard_ok w'.
Proof.
  intros [Hit Hir Hone Hnr Hor] Hg Ht Hr Hl. split.
  - intros Hidle t tk Htk. destruct (remediating tk) eqn:Hrem; [|done].
    destruct (Ht _ _ Htk Hrem) as (tk0 & Htk0 & Hrem0).
    rewrite (Hit (Hg Hidle) _ _ Htk0) in Hrem0. done.
  - intros Hidle. apply Hr, Hir, Hg, Hidle.
  - intros t1 t2 tk1 tk2 H1 H2 Hr1 Hr2.
    destruct (Ht _ _ H1 Hr1) as (? & ? & ?).
    destruct (Ht _ _ H2 Hr2) as (? & ? & ?). by eapply Hone.
  - intros t tk Htk Hrem. destruct (Ht _ _ Htk Hrem) as (? & ? & ?).
    apply Hr. by eapply Hnr.
  - lia.
Qed.

Lemma guard_ok_none w :
  (forall t tk, tasks w !! t = Some tk -> remediating tk = false) ->
  resets w = [] -> guard_ok w.
Proof.
  intros Ht Hr. split; try done.
  - intros t1 t2 tk1 tk2 H1 _ Hr1 _. rewrite (Ht _ _ H1) in Hr1. done.
  - rewrite Hr. cbn. lia.
Qed.

Lemma guard_ok_task w t0 :
  webhookSetupAttempted (dash w) = true ->
  (forall t tk, tasks w !! t = Some tk -> remediating tk = true -> t = t0) ->
  resets w = [] -> guard_ok w.
Proof.
  intros Hg Ht Hr. split; try done; try congruence.
  - intros t1 t2 tk1 tk2 H1 H2 Hr1 Hr2.
    rewrite (Ht _ _ H1 Hr1), (Ht _ _ H2 Hr2). done.
  - rewrite Hr. cbn. lia.
Qed.

Lemma guard_ok_timer w :
  webhookSetupAttempted (dash w) = true ->
  (forall t tk, tasks w !! t = Some tk -> remediating tk = false) ->
  (length (resets w) <= 1)%nat -> guard_ok w.
Proof.
  intros Hg Ht Hr. split; try done; try congruence.
  - intros t1 t2 tk1 tk2 H1 _ Hr1 _. rewrite (Ht _ _ H1) in Hr1. done.
  - intros t tk Htk Hrem. rewrite (Ht _ _ Htk) in Hrem. done.
Qed.

(** While an attempt is in flight it is the only one, the guard is
    set and no reset is pending. *)
Lemma guard_ok_holder w t tk :
  guard_ok w -> tasks w !! t = Some tk -> remediating tk = true ->
  webhookSetupAttempted (dash w) = true
  /\ resets w = []
  /\ forall t' tk', tasks w !! t' = Some tk' -> t <> t' ->
                    remediating tk' = false.
Proof.
  intros [Hit Hir Hone Hnr Hor] Htk Hrem. repeat split.
  - destruct (webhookSetupAttempted (dash w)) eqn:Hg; [done|].
    rewrite (Hit eq_refl _ _ Htk) in Hrem. done.
  - by eapply Hnr.
  - intros t' tk' Htk' Hne. destruct (remediating tk') eqn:Hrem'; [|done].
    destruct Hne. by eapply Hone.
Qed.


Lemma guard_ok_idle w :
  guard_ok w -> webhookSetupAttempted (dash w) = false ->
  (forall t tk, tasks w !! t = Some tk -> remediating tk = false)
  /\ resets w = [].
Proof. intros [Hit Hir _ _ _] Hg. split; [by apply Hit|by apply Hir]. Qed.

Lemma resets_effect_body w :
  resets (effect_body w)
  = match pollingIntervalRef (dash w) with
    | Some h => List.filter (fun tm => negb (handle tm =? h)%positive)
                  (resets w)
    | None => resets w
    end.
Proof.
  unfold effect_body, clear_polling, resets.
  destruct (pollingIntervalRef (dash w)) as [h|]; cbn;
    rewrite List.filter_app; cbn; rewrite app_nil_r; [|done].
  apply filter_filter_comm.
Qed.

Lemma step_guard_ok e w : guard_ok w -> guard_ok (step e w).
Proof.
  intros Hok.
  destruct e as [t r|t r| | | | |]; cbn [step].
  - destruct (tasks w !! t) as [[silent got k| |]|] eqn:Htask; try done.
    destruct (settle r got) as [|got'|v|err]; [done| | |].
    + (* stored *)
      apply (guard_ok_mono w); cbn; try done.
      intros t' tk' Htk' Hrem.
      destruct (decide (t' = t)) as [->|Hne].
      * rewrite lookup_insert_eq in Htk'. injection Htk' as <-. eauto.
      * rewrite lookup_insert_ne in Htk' by done. eauto.
    + (* fulfilled *)
      destruct (fetch_fulfilled_clock silent k v (finish t w))
        as (_ & Htm & _).
      assert (Hres : resets (fetch_fulfilled silent k v (finish t w))
                     = resets w) by (unfold resets; by rewrite Htm).
      destruct (remediating (AwaitAll silent got k)) eqn:Hrem.
      * destruct k; try done.
        destruct (guard_ok_holder _ _ _ Hok Htask Hrem) as (Hg & Hr & Hothers).
        apply guard_ok_none; [|by rewrite Hres].
        intros t' tk'. rewrite fetch_fulfilled_tasks.
        assert (triggers v (finish t w) = false) as ->.
        { destruct (triggers v (finish t w)) eqn:Htr; [|done].
          apply triggers_guard in Htr. cbn in Htr. congruence. }
        cbn. intros Htk'.
        apply lookup_delete_Some in Htk' as [Hne Htk']. eauto.
      * destruct (triggers v (finish t w)) eqn:Htr.
        -- pose proof (triggers_guard _ _ Htr) as Hg. cbn in Hg.
           destruct (guard_ok_idle _ Hok Hg) as [Hnone Hr].
           apply (guard_ok_task _ (next_task w)); [| |by rewrite Hres].
           ++ rewrite fetch_fulfilled_guard, Htr.
              destruct k; cbn in Hrem |- *; rewrite ?orb_true_r; done.
           ++ intros t' tk'. rewrite fetch_fulfilled_tasks, Htr. cbn.
              intros Htk' Hrem'.
              destruct (decide (t' = next_task w)) as [->|Hne]; [done|].
              rewrite lookup_insert_ne in Htk' by done.
              apply lookup_delete_Some in Htk' as [_ Htk'].
              rewrite (Hnone _ _ Htk') in Hrem'. done.
        -- apply (guard_ok_mono w); try done; rewrite ?Hres; try done.
           ++ rewrite fetch_fulfilled_guard, Htr.
              destruct k; cbn in Hrem |- *; rewrite ?orb_false_r; done.
           ++ intros t' tk'. rewrite fetch_fulfilled_tasks, Htr. cbn.
              intros Htk' Hrem'.
              apply lookup_delete_Some in Htk' as [_ Htk']. eauto.
    + (* rejected *)
      destruct (fetch_rejected_frame silent k err (finish t w))
        as (Htk & _ & _ & Htm & _).
      assert (Hres : resets (fetch_rejected silent k err (finish t w))
                     = resets w) by (unfold resets; by rewrite Htm).
      destruct (remediating (AwaitAll silent got k)) eqn:Hrem.
      * destruct (guard_ok_holder _ _ _ Hok Htask Hrem) as (Hg & Hr & Hothers).
        apply guard_ok_none; [|by rewrite Hres].
        intros t' tk'. rewrite Htk. cbn. intros Htk'.
        apply lookup_delete_Some in Htk' as [Hne Htk']. eauto.
      * apply (guard_ok_mono w); try done; rewrite ?Hres; try done.
        -- rewrite fetch_rejected_guard. destruct k; cbn in Hrem |- *; done.
        -- intros t' tk'. rewrite Htk. cbn. intros Htk' Hrem'.
           apply lookup_delete_Some in Htk' as [_ Htk']. eauto.
  - destruct (tasks w !! t) as [[silent got k| |]|] eqn:Htask; try done.
    + (* the setup POST settled *)
      destruct (guard_ok_holder _ _ _ Hok Htask eq_refl)
        as (Hg & Hr & Hothers).
      destruct r as [[]|err]; cbn [setup_settled].
      * apply (guard_ok_task _ (next_task w)); [done| |done].
        intros t' tk'. cbn. intros Htk' Hrem'.
        destruct (decide (t' = next_task w)) as [->|Hne]; [done|].
        rewrite lookup_insert_ne in Htk' by done.
        apply lookup_delete_Some in Htk' as [Hne' Htk'].
        rewrite (Hothers _ _ Htk' Hne') in Hrem'. done.
      * apply guard_ok_timer; [done| |].
        -- intros t' tk'. cbn. intros Htk'.
           apply lookup_delete_Some in Htk' as [Hne' Htk']. eauto.
        -- unfold resets in *. cbn. rewrite List.filter_app, Hr. cbn. lia.
    + (* the sync POST settled *)
      apply (guard_ok_mono w); try done.
      * destruct r as [[]|err]; cbn; [done|]. by destruct (auth_rejected err).
      * intros t' tk' Htk' Hrem'.
        assert (delete t (tasks w) !! t' = Some tk') as Hdel.
        { destruct r as [[]|err]; cbn in Htk'.
          - destruct (decide (t' = next_task w)) as [->|Hne].
            + rewrite lookup_insert_eq in Htk'. injection Htk' as <-. done.
            + by rewrite lookup_insert_ne in Htk'.
          - by destruct (auth_rejected err). }
        apply lookup_delete_Some in Hdel as [_ Hdel]. eauto.
      * destruct r as [[]|err]; cbn; [done|]. by destruct (auth_rejected err).
      * destruct r as [[]|err]; cbn; [done|]. by destruct (auth_rejected err).
  - (* Tick *)
    destruct (existsb (is_due (now w + 1)) (resets w)) eqn:Hdue.
    + apply guard_ok_none.
      * intros t tk Htk. apply tick_tasks in Htk as [Htk|Hrem]; [|done].
        destruct (remediating tk) eqn:Hrem; [|done].
        destruct (guard_ok_holder _ _ _ Hok Htk Hrem) as (_ & Hr & _).
        by rewrite Hr in Hdue.
      * rewrite tick_resets. pose proof (one_reset _ Hok) as Hone.
        destruct (resets w) as [|tm [|tm' l]]; cbn in *; [done| |lia].
        rewrite orb_false_r in Hdue. by rewrite Hdue.
    + apply (guard_ok_mono w); try done.
      * rewrite tick_guard, Hdue. by rewrite andb_true_r.
      * intros t tk Htk Hrem. apply tick_tasks in Htk as [Htk|Hrem'];
          [eauto|congruence].
      * rewrite tick_resets. by intros ->.
      * rewrite tick_resets. apply filter_length_le.
  - (* ClickRefresh *)
    apply (guard_ok_mono w); try done.
    intros t tk. cbn. intros Htk Hrem.
    destruct (decide (t = next_task w)) as [->|Hne].
    + rewrite lookup_insert_eq in Htk. injection Htk as <-. done.
    + rewrite lookup_insert_ne in Htk by done. eauto.
  - (* EffectRun *)
    apply (guard_ok_mono w); try done.
    + unfold effect_body, clear_polling.
      by destruct (pollingIntervalRef (dash w)).
    + intros t tk Htk Hrem.
      assert (<[next_task w := AwaitAll false no_slots Detached]> (tasks w)
              !! t = Some tk) as Hins.
      { unfold effect_body, clear_polling in Htk.
        by destruct (pollingIntervalRef (dash w)). }
      destruct (decide (t = next_task w)) as [->|Hne].
      * rewrite lookup_insert_eq in Hins. injection Hins as <-. done.
      * rewrite lookup_insert_ne in Hins by done. eauto.
    + rewrite resets_effect_body. intros ->. by destruct (pollingIntervalRef _).
    + rewrite resets_effect_body. destruct (pollingIntervalRef _); [|done].
      apply filter_length_le.
  - (* EffectCleanup *)
    unfold effect_cleanup, clear_polling.
    destruct (pollingIntervalRef (dash w)) as [h|] eqn:Href; [|done].
    apply (guard_ok_mono w); try done; [eauto| |].
    + rewrite resets_clearInterval. by intros ->.
    + rewrite resets_clearInterval. apply filter_length_le.
  - (* ClickLogout *)
    apply (guard_ok_mono w); try done. eauto.
Qed.

(** ** Invariants of the timers *)

Lemma timers_ok_view w w' :
  timers w' = timers w -> next_handle w' = next_handle w ->
  pollingIntervalRef (dash w') = pollingIntervalRef (dash w) ->
  timers_ok w -> timers_ok w'.
Proof.
  intros Ht Hn Hr [H1 H2 H3 H4 H5].
  split; rewrite ?Ht, ?Hn, ?Hr; done.
Qed.

Lemma fetch_fulfilled_ref silent k v w :
  pollingIntervalRef (dash (fetch_fulfilled silent k v w))
  = pollingIntervalRef (dash w).
Proof.
  unfold fetch_fulfilled, triggers, setupWebhooksAutomatically; cbn.
  destruct (webhook_data v) as [ws|], silent, k; cbn;
    try destruct (webhooks_active ws); cbn;
    try destruct (webhookSetupAttempted (dash w)) eqn:?; cbn; done.
Qed.

Lemma fetch_rejected_ref silent k e w :
  pollingIntervalRef (dash (fetch_rejected silent k e w))
  = pollingIntervalRef (dash w).
Proof. unfold fetch_rejected, onLogout. by destruct (auth_rejected e), silent, k. Qed.

Lemma tick_ref w :
  pollingIntervalRef (dash (tick w)) = pollingIntervalRef (dash w).
Proof.
  unfold tick. rewrite run_callbacks_dash. cbn. by destruct (existsb _ _).
Qed.

Lemma tick_timers w :
  timers (tick w) = concat (map (rearm (now w + 1)) (timers w))
  /\ next_handle (tick w) = next_handle w
  /\ now (tick w) = now w + 1.
Proof.
  unfold tick.
  destruct (run_callbacks_clock
              (List.filter (is_due (now w + 1)) (timers w))
              (advance w))
    as (-> & -> & ->).
  done.
Qed.

(** A re-armed timer is a pending timer under the same handle. *)
Lemma in_rearm t l tm :
  In tm (concat (map (rearm t) l)) ->
  exists tm0, In tm0 l /\ handle tm = handle tm0 /\ action tm = action tm0
              /\ (due tm = due tm0
                  \/ (is_due t tm0 = true /\ action tm0 = PollTick)).
Proof.
  induction l as [|tm1 l IH]; cbn; [done|].
  rewrite in_app_iff. intros [Hin|Hin].
  - exists tm1. split; [by left|]. unfold rearm in Hin.
    destruct (is_due t tm1) eqn:Hd.
    + destruct (action tm1) eqn:Ha; [|done].
      destruct Hin as [<-|[]]. cbn. eauto.
    + destruct Hin as [<-|[]]. eauto.
  - destruct (IH Hin) as (tm0 & ? & ?). exists tm0. split; [by right|done].
Qed.

Lemma polls_rearm t l :
  length (List.filter is_poll (concat (map (rearm t) l)))
  = length (List.filter is_poll l).
Proof.
  induction l as [|tm l IH]; [done|].
  cbn [map concat]. rewrite filter_app_length, IH. unfold rearm.
  destruct tm as [h d []]; cbn; destruct (is_due t _); cbn; done.
Qed.

Lemma step_timers_ok e w : timers_ok w -> timers_ok (step e w).
Proof.
  intros Hok.
  destruct e as [t r|t r| | | | |]; cbn [step].
  - destruct (tasks w !! t) as [[silent got k| |]|]; try done.
    destruct (settle r got) as [|got'|v|err]; [done| | |].
    + by apply (timers_ok_view w).
    + destruct (fetch_fulfilled_clock silent k v (finish t w))
        as (_ & Htm & Hnh).
      apply (timers_ok_view w); [done|done| |done].
      by rewrite fetch_fulfilled_ref.
    + destruct (fetch_rejected_frame silent k err (finish t w))
        as (_ & _ & _ & Htm & Hnh & _).
      apply (timers_ok_view w); [done|done| |done].
      by rewrite fetch_rejected_ref.
  - destruct (tasks w !! t) as [[silent got k| |]|]; try done.
    + destruct r as [[]|err]; [by apply (timers_ok_view w)|].
      destruct Hok as [H1 H2 H3 H4 H5]. split; cbn.
      * intros tm [Hin|[<-|[]]]%in_app_iff; cbn; [|lia].
        specialize (H1 _ Hin). lia.
      * intros h Hh. specialize (H2 _ Hh). lia.
      * intros tm [Hin|[<-|[]]]%in_app_iff; [by apply H3|done].
      * intros tm [Hin|[<-|[]]]%in_app_iff; [by apply H4|].
        cbn. intros _ Hh. specialize (H2 _ Hh). lia.
      * rewrite filter_app_length. cbn. lia.
    + destruct r as [[]|err]; cbn [sync_settled];
        [by apply (timers_ok_view w)|].
      apply (timers_ok_view w); try done; by destruct (auth_rejected err).
  - (* Tick *)
    destruct (tick_timers w) as (Htm & Hnh & _).
    destruct Hok as [H1 H2 H3 H4 H5].
    split; rewrite ?Htm, ?Hnh, ?tick_ref.
    + intros tm (tm0 & Hin & -> & _)%in_rearm. by apply H1.
    + done.
    + intros tm (tm0 & Hin & -> & -> & _)%in_rearm. by apply H3.
    + intros tm (tm0 & Hin & -> & -> & _)%in_rearm. by apply H4.
    + by rewrite polls_rearm.
  - by apply (timers_ok_view w).
  - (* EffectRun *)
    destruct Hok as [H1 H2 H3 H4 H5].
    assert (Hnone : forall tm,
              In tm (timers (clear_polling w)) -> action tm = ResetGuard).
    { intros tm. unfold clear_polling.
      destruct (pollingIntervalRef (dash w)) as [h|] eqn:Href.
      - cbn. intros [Hin Hne]%filter_In.
        destruct (action tm) eqn:Ha; [|done].
        specialize (H3 _ Hin Ha). injection H3 as ->.
        by rewrite Pos.eqb_refl in Hne.
      - intros Hin. destruct (action tm) eqn:Ha; [|done].
        specialize (H3 _ Hin Ha). done. }
    assert (Hsub : forall tm, In tm (timers (clear_polling w)) ->
                              In tm (timers w)).
    { intros tm. unfold clear_polling.
      destruct (pollingIntervalRef (dash w)); [|done].
      cbn. by intros [Hin _]%filter_In. }
    assert (Hnh : next_handle (clear_polling w) = next_handle w).
    { unfold clear_polling. by destruct (pollingIntervalRef (dash w)). }
    unfold effect_body. split; cbn; rewrite ?Hnh.
    + intros tm [Hin|[<-|[]]]%in_app_iff; cbn; [|lia].
      specialize (H1 _ (Hsub _ Hin)). lia.
    + intros h [= <-]. lia.
    + intros tm [Hin|[<-|[]]]%in_app_iff; [|done].
      intros Ha. rewrite (Hnone _ Hin) in Ha. done.
    + intros tm [Hin|[<-|[]]]%in_app_iff; [|done].
      intros _ [= Heq]. specialize (H1 _ (Hsub _ Hin)). lia.
    + rewrite filter_app_length. cbn.
      assert (List.filter is_poll (timers (clear_polling w)) = []) as ->;
        [|done].
      induction (timers (clear_polling w)) as [|tm l IH]; [done|].
      cbn. unfold is_poll at 1. rewrite (Hnone tm) by by left.
      apply IH; intros tm' Hin; [apply Hnone|apply Hsub]; by right.
  - (* EffectCleanup *)
    unfold effect_cleanup, clear_polling.
    destruct (pollingIntervalRef (dash w)) as [h|] eqn:Href; [|done].
    destruct Hok as [H1 H2 H3 H4 H5]. split; cbn; rewrite ?Href.
    + intros tm [Hin _]%filter_In. by apply H1.
    + intros h0 [= <-]. by apply H2.
    + intros tm [Hin _]%filter_In Ha. rewrite <- Href. by apply H3.
    + intros tm [Hin _]%filter_In Ha. rewrite <- Href. by apply H4.
    + rewrite filter_filter_comm. etrans; [apply filter_length_le|done].
  - (* ClickLogout *)
    by apply (timers_ok_view w).
Qed.

(** ** Reachable worlds *)

Lemma initial_ok t0 : guard_ok (initial t0) /\ timers_ok (initial t0).
Proof.
  split.
  - by apply guard_ok_none.
  - split; cbn; try done. lia.
Qed.

Lemma run_ok es w :
  guard_ok w -> timers_ok w ->
  guard_ok (run es w) /\ timers_ok (run es w).
Proof.
  revert w. induction es as [|e es IH]; intros w Hg Ht; [done|].
  rewrite run_cons. apply IH; [by apply step_guard_ok|by apply step_timers_ok].
Qed.

Lemma reachable_ok t0 es :
  guard_ok (run es (initial t0)) /\ timers_ok (run es (initial t0)).
Proof. apply run_ok; apply initial_ok. Qed.

Lemma step_now e w :
  now (step e w) = match e with Tick => now w + 1 | _ => now w end.
Proof.
  destruct e as [t r|t r| | | | |]; cbn [step].
  - destruct (tasks w !! t) as [[silent got k| |]|]; try done.
    destruct (settle r got) as [|got'|v|err]; try done.
    + by destruct (fetch_fulfilled_clock silent k v (finish t w)) as (-> & _).
    + by destruct (fetch_rejected_frame silent k err (finish t w))
        as (_ & _ & -> & _).
  - destruct (tasks w !! t) as [[silent got k| |]|]; try done;
      destruct r as [[]|err]; cbn; try done.
    by destruct (auth_rejected err).
  - by destruct (tick_timers w) as (_ & _ & ->).
  - done.
  - unfold effect_body, clear_polling. by destruct (pollingIntervalRef _).
  - unfold effect_cleanup, clear_polling. by destruct (pollingIntervalRef _).
  - done.
Qed.

Lemma step_now_mono e w : now w <= now (step e w).
Proof. rewrite step_now. destruct e; lia. Qed.

Lemma run_now_mono es w : now w <= now (run es w).
Proof.
  revert w. induction es as [|e es IH]; intros w; [done|].
  rewrite run_cons. etrans; [apply (step_now_mono e)|apply IH].
Qed.

(** The last-updated timestamp never runs ahead of the clock, so a
    cycle that completes never moves it backwards. *)
Lemma step_stamp e w :
  lastDashboardUpdate (dash w) <= now w ->
  lastDashboardUpdate (dash (step e w)) <= now (step e w).
Proof.
  intros H. rewrite step_now.
  destruct e as [t r|t r| | | | |]; cbn [step].
  - destruct (tasks w !! t) as [[silent got k| |]|]; try done.
    destruct (settle r got) as [|got'|v|err]; try done.
    + destruct (fetch_fulfilled_display silent k v (finish t w)) as (_ & ->).
      done.
    + by destruct (fetch_rejected_frame silent k err (finish t w))
        as (_ & _ & _ & _ & _ & _ & -> & _).
  - destruct (tasks w !! t) as [[silent got k| |]|]; try done;
      destruct r as [[]|err]; cbn; try done.
    by destruct (auth_rejected err).
  - unfold tick. rewrite run_callbacks_dash. cbn.
    destruct (existsb _ _); cbn; lia.
  - done.
  - unfold effect_body, clear_polling. by destruct (pollingIntervalRef _).
  - unfold effect_cleanup, clear_polling. by destruct (pollingIntervalRef _).
  - done.
Qed.

Lemma reachable_stamp t0 es :
  lastDashboardUpdate (dash (run es (initial t0)))
  <= now (run es (initial t0)).
Proof.
  assert (forall w, lastDashboardUpdate (dash w) <= now w ->
                    lastDashboardUpdate (dash (run es w)) <= now (run es w))
    as H.
  { induction es as [|e es IH]; intros w Hw; [done|].
    rewrite run_cons. by apply IH, step_stamp. }
  apply H. done.
Qed.

Lemma run_stamp es w :
  lastDashboardUpdate (dash w) <= now w ->
  lastDashboardUpdate (dash (run es w)) <= now (run es w).
Proof.
  revert w. induction es as [|e es IH]; intros w Hw; [done|].
  rewrite run_cons. by apply IH, step_stamp.
Qed.

(** ** The successful cycle and the clock *)

(** C6, as the code has it. A cycle whose six requests all succeed,
    the replies arriving in any order and interleaved with any other
    events: the earlier replies leave the component untouched, and the
    handler of the last one replaces all six display entities with the
    fetched values at once and sets the last-updated timestamp to the
    clock.  The new value is later than the stored one exactly when
    the clock has moved past it; it is never earlier, the clock not
    having been behind the timestamp when the cycle started. *)
Theorem fetch_cycle_all_succeed w silent k es r u o od tc ro ws :
  let t := next_task w in
  let before := run es (fetchAllData silent k w) in
  let after := step (GetSettled t r) before in
  replies_to t es ++ [r] ≡ₚ
    [MeReply (Resolved u); OverviewReply (Resolved o);
     OrdersByDateReply (Resolved od); TopCustomersReply (Resolved tc);
     RecentOrdersReply (Resolved ro); WebhookStatusReply (Resolved ws)] ->
  Forall quiet (cycle_steps t es (fetchAllData silent k w))
  /\ display (dash after)
     = {| d_userInfo := Some u; d_overview := Some o;
          d_ordersByDate := od; d_topCustomers := tc;
          d_recentOrders := ro; d_webhookStatus := Some ws |}
  /\ lastDashboardUpdate (dash after) = now before
  /\ (lastDashboardUpdate (dash before) < lastDashboardUpdate (dash after)
      <-> lastDashboardUpdate (dash before) < now before)
  /\ (lastDashboardUpdate (dash w) <= now w ->
      lastDashboardUpdate (dash before)
      <= lastDashboardUpdate (dash after)).
Proof.
  intros t before after Hperm.
  destruct (cycle_fulfilled w silent k es r _
              {| user_data := u; overview_data := o; ordersDate_data := od;
                 topCustomers_data := tc; recentOrders_data := ro;
                 webhook_data := Some ws |} Hperm) as [Hquiet Hstep].
  - apply all_endpoints_nodup.
  - intros r' Hr'. repeat (apply elem_of_cons in Hr' as [->|Hr']; [done|]).
    by apply elem_of_nil in Hr'.
  - done.
  - split; [done|]. unfold after. fold t before in Hstep. rewrite Hstep.
    destruct (fetch_fulfilled_display silent k
                {| user_data := u; overview_data := o; ordersDate_data := od;
                   topCustomers_data := tc; recentOrders_data := ro;
                   webhook_data := Some ws |} (finish t before)) as [-> ->].
    cbn. split; [done|]. split; [done|]. split; [done|].
    intros Hw. apply run_stamp. by destruct silent.
Qed.




(** ** Remediation *)

(** C1. [setupWebhooksAutomatically] invoked while the guard is set
    returns at once: the world is unchanged, so no request is issued
    and no state changes.  In every reachable world at most one
    remediation attempt is in flight, and while one is in flight the
    guard is set. *)
Theorem remediation_guarded :
  (forall w, webhookSetupAttempted (dash w) = true ->
             setupWebhooksAutomatically w = w)
  /\ (forall t0 es t1 t2 tk1 tk2,
        tasks (run es (initial t0)) !! t1 = Some tk1 ->
        tasks (run es (initial t0)) !! t2 = Some tk2 ->
        remediating tk1 = true -> remediating tk2 = true -> t1 = t2)
  /\ (forall t0 es t tk,
        tasks (run es (initial t0)) !! t = Some tk ->
        remediating tk = true ->
        webhookSetupAttempted (dash (run es (initial t0))) = true).
Proof.
  split; [|split].
  - intros w Hg. unfold setupWebhooksAutomatically. by rewrite Hg.
  - intros t0 es. destruct (reachable_ok t0 es) as [Hok _].
    apply (one_remediation _ Hok).
  - intros t0 es t tk Htk Hrem. destruct (reachable_ok t0 es) as [Hok _].
    by destruct (guard_ok_holder _ _ _ Hok Htk Hrem) as (? & _).
Qed.

Lemma settle_webhook r got v ws :
  settle r got = AllFulfilled v -> webhook_data v = Some ws ->
  r = WebhookStatusReply (Resolved ws) \/ webhookRes got = Some (Some ws).
Proof.
  destruct r as [[]|[]|[]|[]|[]|[]], got as [[] [] [] [] [] []]; cbn;
    try done; intros [= <-]; cbn; intros [= ->]; eauto.
Qed.

Lemma settle_pending_webhook r got got' ws :
  settle r got = Pending got' -> webhookRes got' = Some (Some ws) ->
  webhookRes got = Some (Some ws) \/ r = WebhookStatusReply (Resolved ws).
Proof.
  destruct r as [[]|[]|[]|[]|[]|[]], got as [[] [] [] [] [] []]; cbn;
    unfold stored; cbn; intros Hs Hw; try done;
    injection Hs as <-; cbn in Hw; first [by left|right; congruence].
Qed.

Lemma promise_all_webhook rs got got1 ws :
  promise_all rs got = Pending got1 ->
  webhookRes got1 = Some (Some ws) ->
  webhookRes got = Some (Some ws) \/ WebhookStatusReply (Resolved ws) ∈ rs.
Proof.
  revert got. induction rs as [|r rs IH]; intros got Hp Hw.
  - injection Hp as ->. by left.
  - cbn in Hp. destruct (settle r got) as [|got'|v|err] eqn:Hs; try done.
    + destruct (IH _ Hp Hw); [by left|right; by right].
    + destruct (IH _ Hp Hw) as [Hgot'|Hin]; [|right; by right].
      destruct (settle_pending_webhook _ _ _ _ Hs Hgot') as [Hgot| ->];
        [by left|right; left].
Qed.

Lemma step_setup_requests e w :
  setup_requests (step e w) <> setup_requests w ->
  exists t r silent got k v ws,
    e = GetSettled t r
    /\ tasks w !! t = Some (AwaitAll silent got k)
    /\ settle r got = AllFulfilled v
    /\ webhook_data v = Some ws
    /\ webhooks_active ws = false
    /\ webhookSetupAttempted (dash w) = false.
Proof.
  destruct e as [t r|t r| | | | |]; cbn [step].
  - destruct (tasks w !! t) as [[silent got k| |]|] eqn:Htask; try done.
    destruct (settle r got) as [|got'|v|err] eqn:Hs; try done.
    + unfold setup_requests. rewrite fetch_fulfilled_trace. cbn.
      destruct (triggers v (finish t w)) eqn:Htr; [|done]. intros _.
      unfold triggers in Htr. cbn in Htr.
      destruct (webhook_data v) as [ws|] eqn:Hws; [|done].
      apply andb_true_iff in Htr as [Ha Hg].
      apply negb_true_iff in Ha, Hg.
      exists t, r, silent, got, k, v, ws. done.
    + unfold setup_requests.
      destruct (fetch_rejected_frame silent k err (finish t w))
        as (_ & _ & _ & _ & _ & _ & _ & ->).
      cbn. by destruct (auth_rejected err).
  - destruct (tasks w !! t) as [[silent got k| |]|]; try done;
      destruct r as [[]|err]; cbn; try done;
      unfold setup_requests; cbn; by destruct (auth_rejected err).
  - unfold tick. intros H. destruct H.
    by destruct (run_callbacks_trace
                   (List.filter (is_due (now w + 1)) (timers w))
                   (advance w))
      as (-> & _).
  - done.
  - unfold effect_body, clear_polling. by destruct (pollingIntervalRef _).
  - unfold effect_cleanup, clear_polling. by destruct (pollingIntervalRef _).
  - done.
Qed.

(** C10. A remediation attempt is started only by the handler that
    completes a fetch cycle, only when the cycle's webhook-status
    request succeeded with [webhooks_active = false], and only while
    the guard is clear, that is, while no attempt is in flight; a
    fulfilled cycle starts one exactly when these hold, and never when
    its webhook status is the substituted [null]. *)
Theorem remediation_trigger :
  (forall e w, setup_requests (step e w) <> setup_requests w ->
     exists t r silent got k v ws,
       e = GetSettled t r
       /\ tasks w !! t = Some (AwaitAll silent got k)
       /\ settle r got = AllFulfilled v
       /\ webhook_data v = Some ws
       /\ webhooks_active ws = false
       /\ webhookSetupAttempted (dash w) = false)
  /\ (forall w silent k es r,
        let t := next_task w in
        let before := run es (fetchAllData silent k w) in
        let after := step (GetSettled t r) before in
        setup_requests after <> setup_requests before ->
        exists ws,
          WebhookStatusReply (Resolved ws) ∈ replies_to t es ++ [r]
          /\ webhooks_active ws = false
          /\ webhookSetupAttempted (dash before) = false)
  /\ (forall t0 es e,
        let w := run es (initial t0) in
        setup_requests (step e w) <> setup_requests w ->
        forall t tk, tasks w !! t = Some tk -> remediating tk = false)
  /\ (forall silent k v w,
        setup_requests (fetch_fulfilled silent k v w)
        = (setup_requests w + if triggers v w then 1 else 0)%nat)
  /\ (forall v w, webhook_data v = None -> triggers v w = false).
Proof.
  split; [exact step_setup_requests|]. split; [|split; [|split]].
  - intros w silent k es r t before after Hne. subst t before after.
    destruct (step_setup_requests _ _ Hne)
      as (t' & r' & silent' & got & k' & v & ws
          & [= <- <-] & Htask & Hs & Hws & Ha & Hg).
    exists ws. split; [|done].
    destruct (fetchAllData_started silent k w) as [Hstart Hlt].
    rewrite (task_after _ _ _ es _ _ Hstart Hlt) in Htask.
    destruct (promise_all (replies_to (next_task w) es) no_slots)
      as [|got1| |] eqn:Hp; try done.
    injection Htask as <- <- <-. apply elem_of_app.
    destruct (settle_webhook _ _ _ _ Hs Hws) as [->|Hgot];
      [right; left|left].
    by destruct (promise_all_webhook _ _ _ _ Hp Hgot).
  - intros t0 es e w Hne.
    destruct (step_setup_requests _ _ Hne)
      as (_ & _ & _ & _ & _ & _ & _ & _ & _ & _ & _ & _ & Hg).
    destruct (reachable_ok t0 es) as [Hok _].
    by destruct (guard_ok_idle _ Hok Hg).
  - intros silent k v w. unfold setup_requests.
    rewrite fetch_fulfilled_trace. destruct (triggers v w); cbn; lia.
  - intros v w Hnone. unfold triggers. by rewrite Hnone.
Qed.

(** ** The cool-down after a failed attempt *)

Lemma in_resets w tm :
  In tm (timers w) -> action tm = ResetGuard -> In tm (resets w).
Proof.
  intros Hin Ha. apply filter_In. split; [done|]. unfold is_reset.
  by rewrite Ha.
Qed.

Lemma only_reset w tm :
  guard_ok w -> In tm (timers w) -> action tm = ResetGuard ->
  resets w = [tm].
Proof.
  intros Hok Hin Ha. pose proof (in_resets _ _ Hin Ha) as Hr.
  pose proof (one_reset _ Hok) as Hone.
  destruct (resets w) as [|tm1 [|tm2 l]]; cbn in *; [done| |lia].
  by destruct Hr as [->|[]].
Qed.

Lemma in_rearm_keep t l tm :
  In tm l -> is_due t tm = false -> In tm (concat (map (rearm t) l)).
Proof.
  induction l as [|tm1 l IH]; cbn; [done|].
  intros [->|Hin] Hd; apply in_app_iff.
  - left. unfold rearm. rewrite Hd. by left.
  - right. by apply IH.
Qed.

Lemma cooling_step D e w :
  cooling D w -> now (step e w) < D -> cooling D (step e w).
Proof.
  intros (Hg & Ht & Hset & tm & Hin & Ha & Hdue) Hnow.
  split; [by apply step_guard_ok|]. split; [by apply step_timers_ok|].
  pose proof (only_reset _ _ Hg Hin Ha) as Hres.
  assert (Hnorem : forall t tk, tasks w !! t = Some tk ->
                                remediating tk = false).
  { intros t tk Htk. destruct (remediating tk) eqn:Hrem; [|done].
    destruct (guard_ok_holder _ _ _ Hg Htk Hrem) as (_ & Hr & _).
    congruence. }
  destruct e as [t r|t r| | | | |]; cbn [step] in *.
  - destruct (tasks w !! t) as [[silent got k| |]|] eqn:Htask;
      try (split; [done|by exists tm]).
    pose proof (Hnorem _ _ Htask) as Hk.
    destruct (settle r got) as [|got'|v|err];
      try (split; [done|by exists tm]).
    + destruct (fetch_fulfilled_clock silent k v (finish t w))
        as (_ & -> & _).
      rewrite fetch_fulfilled_guard. cbn.
      split; [|by exists tm]. rewrite Hset. by destruct k.
    + destruct (fetch_rejected_frame silent k err (finish t w))
        as (_ & _ & _ & -> & _).
      rewrite fetch_rejected_guard. cbn.
      split; [|by exists tm]. by destruct k.
  - destruct (tasks w !! t) as [[silent got k| |]|] eqn:Htask;
      try (split; [done|by exists tm]).
    + by specialize (Hnorem _ _ Htask).
    + destruct r as [[]|err]; cbn; [split; [done|by exists tm]|].
      destruct (auth_rejected err); (split; [done|by exists tm]).
  - destruct (tick_timers w) as (Htm & _ & Hn). rewrite Hn in Hnow.
    assert (Hnd : is_due (now w + 1) tm = false).
    { unfold is_due. apply Z.leb_gt. lia. }
    split.
    + rewrite tick_guard, Hset, Hres. cbn. by rewrite Hnd.
    + exists tm. rewrite Htm. split; [by apply in_rearm_keep|done].
  - split; [done|by exists tm].
  - unfold effect_body, clear_polling.
    destruct (pollingIntervalRef (dash w)) as [h|] eqn:Href; cbn.
    + split; [done|]. exists tm. split; [|done].
      apply in_app_iff. left. apply filter_In. split; [done|].
      apply negb_true_iff, Pos.eqb_neq. intros Heq.
      apply (resets_not_ref _ Ht _ Hin Ha). by rewrite Href, Heq.
    + split; [done|]. exists tm. split; [|done]. apply in_app_iff. by left.
  - unfold effect_cleanup, clear_polling.
    destruct (pollingIntervalRef (dash w)) as [h|] eqn:Href; cbn;
      [|split; [done|by exists tm]].
    split; [done|]. exists tm. split; [|done].
    apply filter_In. split; [done|].
    apply negb_true_iff, Pos.eqb_neq. intros Heq.
    apply (resets_not_ref _ Ht _ Hin Ha). by rewrite Href, Heq.
  - split; [done|by exists tm].
Qed.



Lemma failed_attempt_cooling w t e :
  guard_ok w -> timers_ok w -> tasks w !! t = Some AwaitSetupPost ->
  cooling (now w + 30000) (step (PostSettled t (Rejected e)) w)
  /\ now (step (PostSettled t (Rejected e)) w) = now w.
Proof.
  intros Hg Ht Htask.
  pose proof (step_guard_ok (PostSettled t (Rejected e)) w Hg) as Hg'.
  pose proof (step_timers_ok (PostSettled t (Rejected e)) w Ht) as Ht'.
  destruct (guard_ok_holder _ _ _ Hg Htask eq_refl) as (Hset & _).
  cbn [step] in *. rewrite Htask in *. cbn [setup_settled] in *.
  split; [|done]. split; [exact Hg'|]. split; [exact Ht'|].
  split; [done|]. eexists.
  split; [apply in_app_iff; right; left; reflexivity|done].
Qed.


(** ** Manual refresh *)



(** ** The polling timer *)

Lemma clear_polling_polls w :
  timers_ok w -> poll_timers (clear_polling w) = [].
Proof.
  intros Hok. unfold poll_timers, clear_polling.
  destruct (pollingIntervalRef (dash w)) as [h|] eqn:Href; cbn.
  - assert (forall l, (forall tm, In tm l -> In tm (timers w)) ->
        List.filter is_poll
          (List.filter (fun tm => negb (handle tm =? h)%positive) l) = [])
      as H; [|by apply H].
    induction l as [|tm l IH]; intros Hsub; [done|]. cbn.
    destruct (handle tm =? h)%positive eqn:Hh; cbn.
    + apply IH. intros tm' Hin. apply Hsub. by right.
    + destruct (is_poll tm) eqn:Hp.
      * unfold is_poll in Hp. destruct (action tm) eqn:Ha; [|done].
        pose proof (polls_are_ref _ Hok tm (Hsub _ (or_introl eq_refl)) Ha)
          as Hr.
        rewrite Href in Hr. injection Hr as ->.
        by rewrite Pos.eqb_refl in Hh.
      * apply IH. intros tm' Hin. apply Hsub. by right.
  - assert (forall l, (forall tm, In tm l -> In tm (timers w)) ->
                      List.filter is_poll l = []) as H; [|by apply H].
    induction l as [|tm l IH]; intros Hsub; [done|]. cbn.
    destruct (is_poll tm) eqn:Hp.
    + unfold is_poll in Hp. destruct (action tm) eqn:Ha; [|done].
      pose proof (polls_are_ref _ Hok tm (Hsub _ (or_introl eq_refl)) Ha)
        as Hr.
      congruence.
    + apply IH. intros tm' Hin. apply Hsub. by right.
Qed.

(** Without a pending interval nothing polls, and only the effect can
    start one. *)
Lemma step_no_polls e w :
  poll_timers w = [] -> is_effect_run e = false ->
  poll_timers (step e w) = [] /\ polls (step e w) = polls w.
Proof.
  intros Hnone He. unfold poll_timers in *.
  destruct e as [t r|t r| | | | |]; cbn [step]; try done.
  - destruct (tasks w !! t) as [[silent got k| |]|]; try done.
    destruct (settle r got) as [|got'|v|err]; try done.
    + destruct (fetch_fulfilled_clock silent k v (finish t w))
        as (_ & -> & _).
      unfold polls. rewrite fetch_fulfilled_trace. cbn.
      by destruct (triggers _ _).
    + destruct (fetch_rejected_frame silent k err (finish t w))
        as (_ & _ & _ & -> & _ & _ & _ & Htr).
      unfold polls. rewrite Htr. cbn. by destruct (auth_rejected err).
  - destruct (tasks w !! t) as [[silent got k| |]|]; try done;
      destruct r as [[]|err]; cbn; try done.
    + rewrite List.filter_app, Hnone. done.
    + by destruct (auth_rejected err).
  - destruct (tick_timers w) as (-> & _). split.
    + apply length_zero_iff_nil. rewrite polls_rearm, Hnone. done.
    + unfold tick.
      destruct (run_callbacks_trace
                  (List.filter (is_due (now w + 1)) (timers w))
                  (advance w))
        as (_ & _ & ->).
      by rewrite filter_filter_comm, Hnone.
  - unfold effect_cleanup, clear_polling.
    destruct (pollingIntervalRef (dash w)) as [h|]; [|done]. cbn.
    by rewrite filter_filter_comm, Hnone.
Qed.

Lemma run_no_polls es w :
  poll_timers w = [] -> existsb is_effect_run es = false ->
  poll_timers (run es w) = [] /\ polls (run es w) = polls w.
Proof.
  revert w. induction es as [|e es IH]; intros w Hnone Hno; [done|].
  cbn in Hno. apply orb_false_iff in Hno as [He Hno].
  destruct (step_no_polls e w Hnone He) as [Hnone' Hp].
  rewrite run_cons. destruct (IH _ Hnone' Hno) as [-> ->]. done.
Qed.

(** C8. In every reachable world at most one polling interval is
    pending.  The effect's cleanup cancels it: however much time
    passes afterwards and whatever else happens, short of the effect
    running again, no interval is pending and no timer-driven fetch
    runs.  The effect itself cancels the interval of a previous run
    before it starts the new one, which is then the only one. *)
Theorem polling_cancelled t0 es0 :
  let w := run es0 (initial t0) in
  (length (poll_timers w) <= 1)%nat
  /\ (forall es,
        existsb is_effect_run es = false ->
        poll_timers (run es (step EffectCleanup w)) = []
        /\ polls (run es (step EffectCleanup w)) = polls w)
  /\ poll_timers (clear_polling w) = []
  /\ poll_timers (step EffectRun w)
     = [{| handle := next_handle w; due := now w + 15000;
           action := PollTick |}].
Proof.
  intros w. destruct (reachable_ok t0 es0) as [_ Hok]. fold w in Hok.
  split; [apply (one_poll _ Hok)|].
  pose proof (clear_polling_polls w Hok) as Hclear.
  split; [|split; [done|]].
  - intros es Hno.
    destruct (run_no_polls es (step EffectCleanup w) Hclear Hno) as [-> ->].
    split; [done|]. cbn. unfold effect_cleanup, clear_polling.
    by destruct (pollingIntervalRef (dash w)).
  - cbn [step]. unfold effect_body, poll_timers in *.
    assert (next_handle (clear_polling w) = next_handle w
            /\ now (clear_polling w) = now w) as [Hnh Hnow].
    { unfold clear_polling. by destruct (pollingIntervalRef (dash w)). }
    cbn. rewrite List.filter_app, Hclear, Hnh, Hnow. done.
Qed.

(** C4 fails as stated. [/me] is rejected with 401 before [/overview]
    fails with 503: [Promise.all] rejects with the 401 and the session
    ends, although a mandatory request failed with a non-authentication
    error. *)
Lemma non_auth_failure_counterexample :
  ~ non_auth_failure_as_stated (initial 0) false Detached
      [GetSettled 0 (MeReply (Rejected (AxiosError (Some 401))));
       GetSettled 0 (OverviewReply (Rejected (AxiosError (Some 503))))].
Proof.
  intros H. unfold non_auth_failure_as_stated in H. cbn zeta in H.
  assert (Hnd : NoDup [Me; OverviewEp]).
  { apply (bool_decide_unpack _). by vm_compute. }
  specialize (H Hnd).
  assert (Hex : exists r e,
             r ∈ [MeReply (Rejected (AxiosError (Some 401)));
                  OverviewReply (Rejected (AxiosError (Some 503)))]
             /\ mandatory_failure r = Some e /\ auth_rejected e = false).
  { exists (OverviewReply (Rejected (AxiosError (Some 503)))),
      (AxiosError (Some 503)).
    split; [right; left|done]. }
  specialize (H Hex). inversion H as [|p l (_ & _ & Hl) _]; subst.
  vm_compute in Hl. discriminate.
Qed.

(** C5 fails as stated. Only [/webhook-status] is rejected, with 401:
    its [catch] turns the failure into [null], the cycle succeeds and
    [onLogout] is not called. *)
Lemma auth_failure_counterexample :
  ~ auth_failure_as_stated (initial 0) false Detached
      (map (GetSettled 0)
         (sample_replies (Rejected (AxiosError (Some 401))))).
Proof.
  intros H. unfold auth_failure_as_stated in H. cbn zeta in H.
  assert (Hnd : NoDup all_endpoints) by apply all_endpoints_nodup.
  specialize (H Hnd).
  assert (Hex : exists r e,
             r ∈ sample_replies (Rejected (AxiosError (Some 401)))
             /\ failure r = Some e /\ auth_rejected e = true).
  { exists (WebhookStatusReply (Rejected (AxiosError (Some 401)))),
      (AxiosError (Some 401)).
    split; [|done]. do 5 right. left. }
  specialize (H Hex). vm_compute in H. discriminate.
Qed.

(** The refresh cycle of the sample is the one the handler of the
    successful sync POST starts. *)
Example sample_synced_cycle :
  step (PostSettled 2 (Resolved tt)) sample_polled_and_clicked
  = fetchAllData false FromRefresh sample_synced.
Proof. vm_compute. reflexivity. Qed.

(** C6 fails as stated. A polled cycle and a manual refresh are in
    flight and their replies arrive within the same millisecond: the
    refresh cycle succeeds and replaces the six entities, but the
    timestamp it sets is the one the polled cycle has just set, not a
    later one. *)
Lemma all_succeed_counterexample :
  ~ all_succeed_as_stated sample_synced false FromRefresh sample_same_ms
      (WebhookStatusReply (Resolved sample_live))
      sample_user sample_overview [] [] [] sample_live.
Proof.
  intros H. unfold all_succeed_as_stated in H. cbn zeta in H.
  assert (Hperm : replies_to (next_task sample_synced) sample_same_ms
                  ++ [WebhookStatusReply (Resolved sample_live)]
                  ≡ₚ sample_replies (Resolved sample_live)).
  { vm_compute. reflexivity. }
  destruct (H Hperm) as [_ Hlt]. vm_compute in Hlt. discriminate.
Qed.

(** ** Witnesses *)

Lemma remediation_guarded_witness :
  setupWebhooksAutomatically (run sample_mounted (initial 0))
  = run sample_mounted (initial 0)
  /\ webhookSetupAttempted (dash (run sample_mounted (initial 0))) = true.
Proof.
  split.
  - apply (proj1 remediation_guarded). reflexivity.
  - apply (proj2 (proj2 remediation_guarded) 0 sample_mounted 1%nat
             AwaitSetupPost); reflexivity.
Defined.


Lemma fetch_cycle_webhook_status_fails_witness :
  display
    (dash (step (GetSettled 0
                   (WebhookStatusReply (Rejected (AxiosError (Some 500)))))
             (run sample_five (fetchAllData false Detached (initial 0)))))
  = {| d_userInfo := Some sample_user; d_overview := Some sample_overview;
       d_ordersByDate := []; d_topCustomers := []; d_recentOrders := [];
       d_webhookStatus := None |}.
Proof.
  refine (proj1 (proj2 (fetch_cycle_webhook_status_fails (initial 0) false
            Detached sample_five
            (WebhookStatusReply (Rejected (AxiosError (Some 500))))
            sample_user sample_overview [] [] [] (AxiosError (Some 500)) _))).
  reflexivity.
Defined.

Lemma fetch_cycle_all_succeed_witness :
  lastDashboardUpdate
    (dash (step (GetSettled 0 (WebhookStatusReply (Resolved sample_status)))
             (run sample_five (fetchAllData false Detached (initial 0)))))
  = now (run sample_five (fetchAllData false Detached (initial 0))).
Proof.
  refine (proj1 (proj2 (proj2 (fetch_cycle_all_succeed (initial 0) false
            Detached sample_five
            (WebhookStatusReply (Resolved sample_status))
            sample_user sample_overview [] [] [] sample_status _)))).
  reflexivity.
Defined.

Lemma fetch_cycle_non_auth_failure_witness :
  Forall retained
    (cycle_steps 0 sample_failing (fetchAllData false Detached (initial 0))).
Proof.
  refine (proj1 (fetch_cycle_non_auth_failure (initial 0) false Detached
                   sample_failing _ _)).
  - apply (bool_decide_unpack _). vm_compute. exact I.
  - exists (OverviewReply (Rejected (AxiosError (Some 500)))),
      (AxiosError (Some 500)).
    split; [right; left|reflexivity].
Defined.

Lemma fetch_cycle_auth_failure_witness :
  cycle_logouts 0 sample_rejected (fetchAllData true Detached (initial 0))
  = 1%nat.
Proof.
  refine (proj1 (fetch_cycle_auth_failure (initial 0) true Detached
                   sample_rejected) (AxiosError (Some 403)) _ _ _).
  - apply (bool_decide_unpack _). vm_compute. exact I.
  - reflexivity.
  - reflexivity.
Defined.


Lemma polling_cancelled_witness :
  polls (run (ticks 15001)
           (step EffectCleanup (run sample_mounted (initial 0))))
  = polls (run sample_mounted (initial 0)).
Proof.
  refine (proj2 (proj1 (proj2 (polling_cancelled 0 sample_mounted))
                   (ticks 15001) _)).
  vm_compute. reflexivity.
Defined.

Lemma remediation_trigger_witness :
  exists ws,
    WebhookStatusReply (Resolved ws)
      ∈ replies_to (next_task (initial 0)) (tail sample_five)
        ++ [WebhookStatusReply (Resolved sample_status)]
    /\ webhooks_active ws = false
    /\ webhookSetupAttempted
         (dash (run (tail sample_five)
                  (fetchAllData true Detached (initial 0)))) = false.
Proof.
  refine (proj1 (proj2 remediation_trigger) (initial 0) true Detached
            (tail sample_five)
            (WebhookStatusReply (Resolved sample_status)) _).
  vm_compute. discriminate.
Defined.

(** * Further properties of the dashboard loop *)

Lemma promise_all_not_ignored rs got : promise_all rs got <> Ignored.
Proof.
  revert got. induction rs as [|r rs IH]; intros got; [done|].
  cbn. destruct (settle r got); try done; apply IH.
Qed.

(** Every handler run of a cycle is quiet or is the one run that
    settles it. *)
Lemma cycle_steps_all t silent k es w got (P : World * World -> Prop) :
  tasks w !! t = Some (AwaitAll silent got k) -> (t < next_task w)%nat ->
  (forall p, quiet p -> P p) ->
  (forall w1 s, settled s = true ->
                P (w1, conclude silent k s (finish t w1))) ->
  Forall P (cycle_steps t es w).
Proof.
  intros Htask Ht Hq Hs.
  destruct (promise_all (replies_to t es) got) as [|got1|v|e] eqn:Hp.
  - by apply promise_all_not_ignored in Hp.
  - eapply Forall_impl; [|exact Hq].
    by eapply (cycle_steps_pending t silent k es w got got1).
  - destruct (cycle_steps_settled t silent k es w got (AllFulfilled v)
                Htask Ht Hp eq_refl) as (pre & w1 & post & -> & Hpre & Hpost).
    apply Forall_app. split; [|constructor].
    + eapply Forall_impl; [exact Hpre|exact Hq].
    + by apply Hs.
    + eapply Forall_impl; [exact Hpost|exact Hq].
  - destruct (cycle_steps_settled t silent k es w got (FirstRejection e)
                Htask Ht Hp eq_refl) as (pre & w1 & post & -> & Hpre & Hpost).
    apply Forall_app. split; [|constructor].
    + eapply Forall_impl; [exact Hpre|exact Hq].
    + by apply Hs.
    + eapply Forall_impl; [exact Hpost|exact Hq].
Qed.

Lemma conclude_loading silent k s w :
  settled s = true ->
  loading (dash (conclude silent k s w))
  = if silent then loading (dash w) else false.
Proof.
  destruct s as [| |v|e]; try done; intros _; cbn [conclude].
  - unfold fetch_fulfilled, setupWebhooksAutomatically. cbn.
    destruct (webhook_data v) as [ws|], silent, k; cbn;
      try destruct (webhooks_active ws); cbn;
      try destruct (webhookSetupAttempted (dash w)) eqn:?; cbn; done.
  - unfold fetch_rejected, onLogout.
    by destruct (auth_rejected e), silent, k.
Qed.

(** X1. A silent fetch, as the polling interval and the remediation
    run it, never touches the loading indicator: not when it starts,
    not in any of its handlers, whatever its replies are and whatever
    else happens meanwhile; nor does the passing of time. *)
Theorem silent_cycle_keeps_loading w k es :
  loading (dash (fetchAllData true k w)) = loading (dash w)
  /\ Forall (fun p => loading (dash p.2) = loading (dash p.1))
       (cycle_steps (next_task w) es (fetchAllData true k w))
  /\ loading (dash (step Tick w)) = loading (dash w).
Proof.
  split; [done|]. split.
  - destruct (fetchAllData_started true k w) as [Htask Hlt].
    apply (cycle_steps_all _ true k es _ no_slots); try done.
    + intros p [Hd _]. by rewrite Hd.
    + intros w1 s Hs. cbn [fst snd]. by rewrite conclude_loading.
  - cbn [step]. unfold tick. rewrite run_callbacks_dash. cbn.
    by destruct (existsb _ _).
Qed.

(** X2. A non-silent fetch sets the loading indicator when it starts.
    Once [Promise.all] has settled, all six replies in or a first
    mandatory failure of whatever kind, every handler run of the cycle
    but one leaves the component and the trace untouched; that one is
    the run of the success block or of the [catch] block, and it
    leaves the loading indicator cleared. *)
Theorem loud_cycle_clears_loading w k es :
  let t := next_task w in
  settled (promise_all (replies_to t es) no_slots) = true ->
  loading (dash (fetchAllData false k w)) = true
  /\ exists pre before after post,
       cycle_steps t es (fetchAllData false k w)
       = pre ++ (before, after) :: post
       /\ Forall quiet pre /\ Forall quiet post
       /\ after
          = conclude false k (promise_all (replies_to t es) no_slots)
              (finish t before)
       /\ loading (dash after) = false.
Proof.
  intros t Hs. split; [done|].
  destruct (fetchAllData_started false k w) as [Htask Hlt].
  destruct (cycle_steps_settled t false k es _ no_slots _ Htask Hlt
              eq_refl Hs) as (pre & w1 & post & Heq & Hpre & Hpost).
  exists pre, w1, (conclude false k
                     (promise_all (replies_to t es) no_slots) (finish t w1)),
    post.
  repeat split; try done. by rewrite conclude_loading.
Qed.

Lemma loud_cycle_clears_loading_witness :
  exists pre before after post,
    cycle_steps 0 sample_failing (fetchAllData false Detached (initial 0))
    = pre ++ (before, after) :: post
    /\ Forall quiet pre /\ Forall quiet post
    /\ after
       = conclude false Detached
           (promise_all (replies_to 0 sample_failing) no_slots)
           (finish 0 before)
    /\ loading (dash after) = false.
Proof.
  refine (proj2 (loud_cycle_clears_loading (initial 0) Detached
                   sample_failing _)).
  reflexivity.
Defined.

Lemma step_no_request e w :
  webhookSetupAttempted (dash w) = true ->
  setup_requests (step e w) = setup_requests w.
Proof.
  intros Hset.
  destruct (decide (setup_requests (step e w) = setup_requests w))
    as [|Hne]; [done|].
  destruct (step_setup_requests _ _ Hne)
    as (_ & _ & _ & _ & _ & _ & _ & _ & _ & _ & _ & _ & Hg).
  congruence.
Qed.

Lemma cooling_no_request D es w :
  cooling D w -> now (run es w) < D ->
  setup_requests (run es w) = setup_requests w.
Proof.
  revert w. induction es as [|e es IH]; intros w Hc Hnow; [done|].
  rewrite run_cons in *.
  assert (Hc' : cooling D (step e w)).
  { apply cooling_step; [done|].
    eapply Z.le_lt_trans; [apply run_now_mono|done]. }
  rewrite (IH _ Hc' Hnow). apply step_no_request.
  by destruct Hc as (_ & _ & Hset & _).
Qed.

(** X3. The backend is not hammered with registration requests: in
    the 30 s after a failed attempt none is issued, whatever happens
    (poll cycles finding the integration inactive, manual refreshes,
    effect runs), and while an attempt is in flight, at its POST or at
    the refetch that follows a success, no event issues another. *)
Theorem one_request_per_attempt t0 es0 t e es :
  let w := run es0 (initial t0) in
  let failed := step (PostSettled t (Rejected e)) w in
  tasks w !! t = Some AwaitSetupPost ->
  now (run es failed) < now failed + 30000 ->
  setup_requests (run es failed) = setup_requests failed
  /\ (forall t1 es1 t' tk ev,
        tasks (run es1 (initial t1)) !! t' = Some tk ->
        remediating tk = true ->
        setup_requests (step ev (run es1 (initial t1)))
        = setup_requests (run es1 (initial t1))).
Proof.
  intros w failed Htask Hnow. split.
  - destruct (reachable_ok t0 es0) as [Hg Ht].
    destruct (failed_attempt_cooling w t e Hg Ht Htask) as [Hcool Hn].
    fold failed in Hcool, Hn. rewrite Hn in Hnow.
    by apply (cooling_no_request (now w + 30000)).
  - intros t1 es1 t' tk ev Htk Hrem. apply step_no_request.
    destruct (reachable_ok t1 es1) as [Hg _].
    by destruct (guard_ok_holder _ _ _ Hg Htk Hrem) as (? & _).
Qed.

Lemma one_request_per_attempt_witness :
  setup_requests
    (run (ticks 15000
          ++ map (GetSettled 2) (sample_replies (Resolved sample_status)))
       (step (PostSettled 1 (Rejected OtherError))
          (run sample_mounted (initial 0))))
  = setup_requests
      (step (PostSettled 1 (Rejected OtherError))
         (run sample_mounted (initial 0))).
Proof.
  refine (proj1 (one_request_per_attempt 0 sample_mounted 1 OtherError
                   (ticks 15000
                    ++ map (GetSettled 2)
                         (sample_replies (Resolved sample_status)))
                   eq_refl _)).
  vm_compute. reflexivity.
Defined.

Lemma step_stamp_cases e w :
  lastDashboardUpdate (dash (step e w)) = lastDashboardUpdate (dash w)
  \/ lastDashboardUpdate (dash (step e w)) = now w.
Proof.
  destruct e as [t r|t r| | | | |]; cbn [step].
  - destruct (tasks w !! t) as [[silent got k| |]|]; try by left.
    destruct (settle r got) as [|got'|v|err]; try by left.
    + right.
      by destruct (fetch_fulfilled_display silent k v (finish t w)) as (_ & ->).
    + left. by destruct (fetch_rejected_frame silent k err (finish t w))
        as (_ & _ & _ & _ & _ & _ & -> & _).
  - left. destruct (tasks w !! t) as [[silent got k| |]|]; try done;
      destruct r as [[]|err]; cbn; try done.
    by destruct (auth_rejected err).
  - left. unfold tick. rewrite run_callbacks_dash. cbn.
    by destruct (existsb _ _).
  - by left.
  - left. unfold effect_body, clear_polling.
    by destruct (pollingIntervalRef _).
  - left. unfold effect_cleanup, clear_polling.
    by destruct (pollingIntervalRef _).
  - by left.
Qed.

(** X4. With a clock that does not run backwards, the last-updated
    timestamp is never ahead of the clock and never decreases: each
    event leaves it as it is or sets it to the current time. *)
Theorem timestamp_monotone t0 es e :
  let w := run es (initial t0) in
  lastDashboardUpdate (dash w) <= now w
  /\ lastDashboardUpdate (dash w) <= lastDashboardUpdate (dash (step e w))
  /\ (lastDashboardUpdate (dash (step e w)) = lastDashboardUpdate (dash w)
      \/ lastDashboardUpdate (dash (step e w)) = now w).
Proof.
  intros w. pose proof (reachable_stamp t0 es) as Hle. fold w in Hle.
  split; [done|]. split; [|apply step_stamp_cases].
  destruct (step_stamp_cases e w) as [-> | ->]; lia.
Qed.

(** ** The polling cadence *)

Lemma polls_filter_rearm t l :
  List.filter is_poll (concat (map (rearm t) l))
  = concat (map (rearm t) (List.filter is_poll l)).
Proof.
  induction l as [|tm l IH]; [done|].
  cbn [map concat]. rewrite List.filter_app, IH.
  destruct tm as [h d []]; cbn; unfold rearm; cbn;
    destruct (is_due t _); cbn; done.
Qed.

Lemma tick_polling w :
  poll_timers (tick w)
  = concat (map (rearm (now w + 1)) (poll_timers w))
  /\ polls (tick w)
     = (length (List.filter (is_due (now w + 1)) (poll_timers w))
        + polls w)%nat.
Proof.
  unfold poll_timers. destruct (tick_timers w) as (-> & _). split.
  - apply polls_filter_rearm.
  - unfold tick.
    destruct (run_callbacks_trace
                (List.filter (is_due (now w + 1)) (timers w)) (advance w))
      as (_ & _ & ->).
    by rewrite filter_filter_comm.
Qed.

(** Only the effect and the clock touch the interval; only the clock
    makes it fire. *)
Lemma step_polling e w :
  is_effect e = false -> e <> Tick ->
  poll_timers (step e w) = poll_timers w /\ polls (step e w) = polls w.
Proof.
  intros He Hne. unfold poll_timers.
  destruct e as [t r|t r| | | | |]; cbn [step]; try done.
  - destruct (tasks w !! t) as [[silent got k| |]|]; try done.
    destruct (settle r got) as [|got'|v|err]; try done.
    + destruct (fetch_fulfilled_clock silent k v (finish t w))
        as (_ & -> & _).
      unfold polls. rewrite fetch_fulfilled_trace. cbn.
      by destruct (triggers _ _).
    + destruct (fetch_rejected_frame silent k err (finish t w))
        as (_ & _ & _ & -> & _ & _ & _ & Htr).
      unfold polls. rewrite Htr. cbn. by destruct (auth_rejected err).
  - destruct (tasks w !! t) as [[silent got k| |]|]; try done;
      destruct r as [[]|err]; cbn; try done.
    + rewrite List.filter_app. cbn. by rewrite app_nil_r.
    + by destruct (auth_rejected err).
Qed.

Lemma polling_since_step T0 P0 e w :
  is_effect e = false ->
  polling_since T0 P0 w -> polling_since T0 P0 (step e w).
Proof.
  intros He (c & h & Hc & Hpt & Hp & Hnow).
  assert (e = Tick \/ e <> Tick) as [->|Hne]
    by (destruct e; (by left) || (by right)).
  - cbn [step]. destruct (tick_polling w) as [Hpt' Hp'].
    destruct (tick_timers w) as (_ & _ & Hn).
    rewrite Hpt in Hpt', Hp'. cbn in Hpt', Hp'. unfold rearm, is_due in *.
    cbn in Hpt', Hp'.
    destruct (T0 + 15000 * (c + 1) <=? now w + 1) eqn:Hdue.
    + apply Z.leb_le in Hdue. exists (c + 1), h.
      split; [lia|]. split.
      * rewrite Hpt'. cbn. do 2 f_equal. lia.
      * rewrite Hp', Hn. cbn. lia.
    + apply Z.leb_gt in Hdue. exists c, h.
      split; [done|]. split; [by rewrite Hpt'|].
      rewrite Hp', Hn. cbn. lia.
  - destruct (step_polling e w He Hne) as [Hpt' Hp'].
    exists c, h. rewrite Hpt', Hp', step_now.
    split; [done|]. split; [done|]. split; [done|]. by destruct e.
Qed.

Lemma polling_since_run T0 P0 es w :
  existsb is_effect es = false ->
  polling_since T0 P0 w -> polling_since T0 P0 (run es w).
Proof.
  revert w. induction es as [|e es IH]; intros w Hno Hp; [done|].
  cbn in Hno. apply orb_false_iff in Hno as [He Hno].
  rewrite run_cons. apply IH; [done|]. by apply polling_since_step.
Qed.

Lemma effect_body_polling w :
  timers_ok w -> polling_since (now w) (polls w) (step EffectRun w).
Proof.
  intros Hok. exists 0, (next_handle w).
  pose proof (clear_polling_polls w Hok) as Hclear.
  assert (next_handle (clear_polling w) = next_handle w
          /\ now (clear_polling w) = now w
          /\ trace (clear_polling w) = trace w) as (Hnh & Hnow & Htr).
  { unfold clear_polling. by destruct (pollingIntervalRef (dash w)). }
  split; [done|]. split; [|split].
  - cbn [step]. unfold effect_body, poll_timers in *. cbn.
    rewrite List.filter_app, Hclear, Hnh, Hnow. done.
  - cbn [step]. unfold effect_body, polls. cbn. rewrite Htr. lia.
  - rewrite step_now. lia.
Qed.

(** X5. Once the effect has run, and until it runs again or is
    cleaned up, the timer-driven fetches come every 15000 ms exactly:
    whatever else happens, their number is the time elapsed since the
    effect ran divided by the period, rounded down; the first one
    comes one full period after mount. *)
Theorem polling_cadence t0 es0 es :
  let w := run es0 (initial t0) in
  let later := run es (step EffectRun w) in
  existsb is_effect es = false ->
  Z.of_nat (polls later) = Z.of_nat (polls w) + (now later - now w) / 15000.
Proof.
  intros w later Hno.
  destruct (reachable_ok t0 es0) as [_ Hok]. fold w in Hok.
  destruct (polling_since_run (now w) (polls w) es _ Hno
              (effect_body_polling w Hok)) as (c & h & Hc & _ & Hp & Hnow).
  fold later in Hp, Hnow. rewrite Hp. f_equal.
  apply (Z.div_unique _ _ _ (now later - now w - 15000 * c)); lia.
Qed.

Lemma polling_cadence_witness :
  Z.of_nat
    (polls (run (ticks 14999 ++ ClickRefresh :: ticks 30002)
              (step EffectRun (run [] (initial 7)))))
  = Z.of_nat (polls (run [] (initial 7)))
    + (now (run (ticks 14999 ++ ClickRefresh :: ticks 30002)
              (step EffectRun (run [] (initial 7))))
       - now (run [] (initial 7))) / 15000.
Proof.
  refine (polling_cadence 7 [] (ticks 14999 ++ ClickRefresh :: ticks 30002) _).
  vm_compute. reflexivity.
Defined.

(** ** Manual refreshes through the button *)

Lemma refresh_ok_mono w w' :
  refresh_ok w ->
  (refreshing (dash w') = false -> refreshing (dash w) = false) ->
  (forall t tk, tasks w' !! t = Some tk -> refreshing_task tk = true ->
     exists tk0, tasks w !! t = Some tk0 /\ refreshing_task tk0 = true) ->
  refresh_ok w'.
Proof.
  intros [Hidle Hone] Hr Ht. split.
  - intros Hf t tk Htk. destruct (refreshing_task tk) eqn:Hrt; [|done].
    destruct (Ht _ _ Htk Hrt) as (tk0 & Htk0 & Hrt0).
    rewrite (Hidle (Hr Hf) _ _ Htk0) in Hrt0. done.
  - intros t1 t2 tk1 tk2 H1 H2 Hr1 Hr2.
    destruct (Ht _ _ H1 Hr1) as (? & ? & ?).
    destruct (Ht _ _ H2 Hr2) as (? & ? & ?). by eapply Hone.
Qed.

Lemma refresh_ok_none w :
  (forall t tk, tasks w !! t = Some tk -> refreshing_task tk = false) ->
  refresh_ok w.
Proof.
  intros Ht. split; [done|].
  intros t1 t2 tk1 tk2 H1 _ Hr1 _. rewrite (Ht _ _ H1) in Hr1. done.
Qed.

Lemma refresh_ok_single w t0 :
  refreshing (dash w) = true ->
  (forall t tk, tasks w !! t = Some tk -> refreshing_task tk = true ->
                t = t0) ->
  refresh_ok w.
Proof.
  intros Hr Ht. split; [congruence|].
  intros t1 t2 tk1 tk2 H1 H2 Hr1 Hr2.
  by rewrite (Ht _ _ H1 Hr1), (Ht _ _ H2 Hr2).
Qed.

Lemma refresh_ok_holder w t tk :
  refresh_ok w -> tasks w !! t = Some tk -> refreshing_task tk = true ->
  refreshing (dash w) = true
  /\ forall t' tk', tasks w !! t' = Some tk' -> t <> t' ->
                    refreshing_task tk' = false.
Proof.
  intros [Hidle Hone] Htk Hrt. split.
  - destruct (refreshing (dash w)) eqn:Hr; [done|].
    rewrite (Hidle eq_refl _ _ Htk) in Hrt. done.
  - intros t' tk' Htk' Hne. destruct (refreshing_task tk') eqn:Hrt'; [|done].
    destruct Hne. by eapply Hone.
Qed.

Lemma fetch_fulfilled_refreshing silent k v w :
  refreshing (dash (fetch_fulfilled silent k v w))
  = match k with FromRefresh => false | _ => refreshing (dash w) end.
Proof.
  unfold fetch_fulfilled, setupWebhooksAutomatically; cbn.
  destruct (webhook_data v) as [ws|], silent, k; cbn;
    try destruct (webhooks_active ws); cbn;
    try destruct (webhookSetupAttempted (dash w)) eqn:?; cbn; done.
Qed.

Lemma fetch_rejected_refreshing silent k e w :
  refreshing (dash (fetch_rejected silent k e w))
  = match k with FromRefresh => false | _ => refreshing (dash w) end.
Proof.
  unfold fetch_rejected, onLogout. by destruct (auth_rejected e), silent, k.
Qed.

Lemma step_refresh_ok e w :
  refresh_ok w ->
  (e = ClickRefresh -> refreshing (dash w) = false) ->
  refresh_ok (step e w).
Proof.
  intros Hok Hclick.
  destruct e as [t r|t r| | | | |]; cbn [step].
  - destruct (tasks w !! t) as [[silent got k| |]|] eqn:Htask; try done.
    assert (Hdel : forall w',
              tasks w' = delete t (tasks w)
              \/ tasks w' = <[next_task w := AwaitSetupPost]>
                              (delete t (tasks w)) ->
              forall t' tk', tasks w' !! t' = Some tk' ->
                refreshing_task tk' = true ->
                t <> t' /\ tasks w !! t' = Some tk').
    { intros w' [-> | ->] t' tk' Htk' Hrt'.
      - by apply lookup_delete_Some in Htk'.
      - destruct (decide (t' = next_task w)) as [->|Hne].
        + rewrite lookup_insert_eq in Htk'. by injection Htk' as <-.
        + rewrite lookup_insert_ne in Htk' by done.
          by apply lookup_delete_Some in Htk'. }
    destruct (settle r got) as [|got'|v|err]; [done| | |].
    + apply (refresh_ok_mono w); cbn; try done.
      intros t' tk' Htk' Hrt'.
      destruct (decide (t' = t)) as [->|Hne].
      * rewrite lookup_insert_eq in Htk'. injection Htk' as <-. eauto.
      * rewrite lookup_insert_ne in Htk' by done. eauto.
    + assert (Htasks : tasks (fetch_fulfilled silent k v (finish t w))
                       = delete t (tasks w)
                       \/ tasks (fetch_fulfilled silent k v (finish t w))
                          = <[next_task w := AwaitSetupPost]>
                              (delete t (tasks w))).
      { rewrite fetch_fulfilled_tasks. cbn.
        destruct (triggers _ _); [by right|by left]. }
      destruct (refreshing_task (AwaitAll silent got k)) eqn:Hrt.
      * destruct (refresh_ok_holder _ _ _ Hok Htask Hrt) as [_ Hothers].
        apply refresh_ok_none. intros t' tk' Htk'.
        destruct (refreshing_task tk') eqn:Hrt'; [|done].
        destruct (Hdel _ Htasks _ _ Htk' Hrt') as [Hne Htk0].
        by rewrite (Hothers _ _ Htk0 Hne) in Hrt'.
      * apply (refresh_ok_mono w); try done.
        -- rewrite fetch_fulfilled_refreshing. by destruct k.
        -- intros t' tk' Htk' Hrt'.
           destruct (Hdel _ Htasks _ _ Htk' Hrt'); eauto.
    + assert (Htasks : tasks (fetch_rejected silent k err (finish t w))
                       = delete t (tasks w)
                       \/ tasks (fetch_rejected silent k err (finish t w))
                          = <[next_task w := AwaitSetupPost]>
                              (delete t (tasks w))).
      { left. by destruct (fetch_rejected_frame silent k err (finish t w))
          as (-> & _). }
      destruct (refreshing_task (AwaitAll silent got k)) eqn:Hrt.
      * destruct (refresh_ok_holder _ _ _ Hok Htask Hrt) as [_ Hothers].
        apply refresh_ok_none. intros t' tk' Htk'.
        destruct (refreshing_task tk') eqn:Hrt'; [|done].
        destruct (Hdel _ Htasks _ _ Htk' Hrt') as [Hne Htk0].
        by rewrite (Hothers _ _ Htk0 Hne) in Hrt'.
      * apply (refresh_ok_mono w); try done.
        -- rewrite fetch_rejected_refreshing. by destruct k.
        -- intros t' tk' Htk' Hrt'.
           destruct (Hdel _ Htasks _ _ Htk' Hrt'); eauto.
  - destruct (tasks w !! t) as [[silent got k| |]|] eqn:Htask; try done.
    + (* the setup POST settled *)
      apply (refresh_ok_mono w); try done.
      * by destruct r as [[]|err].
      * intros t' tk' Htk' Hrt'.
        assert (delete t (tasks w) !! t' = Some tk') as Hd.
        { destruct r as [[]|err]; cbn in Htk'; [|done].
          destruct (decide (t' = next_task w)) as [->|Hne].
          - rewrite lookup_insert_eq in Htk'. by injection Htk' as <-.
          - by rewrite lookup_insert_ne in Htk'. }
        apply lookup_delete_Some in Hd as [_ Hd]. eauto.
    + (* the sync POST settled *)
      destruct (refresh_ok_holder _ _ _ Hok Htask eq_refl) as [Hr Hothers].
      destruct r as [[]|err]; cbn [sync_settled].
      * apply (refresh_ok_single _ (next_task w)); [done|]. cbn.
        intros t' tk' Htk' Hrt'.
        destruct (decide (t' = next_task w)) as [->|Hne]; [done|].
        rewrite lookup_insert_ne in Htk' by done.
        apply lookup_delete_Some in Htk' as [Hne' Htk'].
        by rewrite (Hothers _ _ Htk' Hne') in Hrt'.
      * apply refresh_ok_none. intros t' tk' Htk'.
        assert (delete t (tasks w) !! t' = Some tk') as Hd
            by by destruct (auth_rejected err).
        apply lookup_delete_Some in Hd as [Hne' Hd]. eauto.
  - (* Tick *)
    apply (refresh_ok_mono w); try done.
    + unfold tick. rewrite run_callbacks_dash. cbn.
      by destruct (existsb _ _).
    + intros t tk Htk Hrt. unfold tick in Htk.
      apply run_callbacks_new in Htk as [Htk|[-> _]]; [eauto|done].
  - (* ClickRefresh *)
    specialize (Hclick eq_refl).
    apply (refresh_ok_single _ (next_task w)); [done|]. cbn.
    intros t tk Htk Hrt.
    destruct (decide (t = next_task w)) as [->|Hne]; [done|].
    rewrite lookup_insert_ne in Htk by done.
    by rewrite (idle_refresh _ Hok Hclick _ _ Htk) in Hrt.
  - (* EffectRun *)
    apply (refresh_ok_mono w); try done.
    + unfold effect_body, clear_polling.
      by destruct (pollingIntervalRef (dash w)).
    + intros t tk Htk Hrt.
      assert (<[next_task w := AwaitAll false no_slots Detached]> (tasks w)
              !! t = Some tk) as Hins.
      { unfold effect_body, clear_polling in Htk.
        by destruct (pollingIntervalRef (dash w)). }
      destruct (decide (t = next_task w)) as [->|Hne].
      * rewrite lookup_insert_eq in Hins. by injection Hins as <-.
      * rewrite lookup_insert_ne in Hins by done. eauto.
  - (* EffectCleanup *)
    unfold effect_cleanup, clear_polling.
    destruct (pollingIntervalRef (dash w)); [|done].
    apply (refresh_ok_mono w); eauto.
  - (* ClickLogout *)
    apply (refresh_ok_mono w); eauto.
Qed.

Lemma ui_run_refresh_ok es w : refresh_ok w -> refresh_ok (ui_run es w).
Proof.
  revert w. induction es as [|e es IH]; intros w Hok; [done|].
  cbn. apply IH. destruct e; cbn [ui_step]; try by apply step_refresh_ok.
  - unfold click_refresh_button.
    destruct (loading (dash w)); cbn; [done|].
    destruct (refreshing (dash w)) eqn:Hr; [done|].
    by apply (step_refresh_ok ClickRefresh).
  - unfold click_logout_button.
    destruct (loading (dash w)); [done|].
    by apply (step_refresh_ok ClickLogout).
Qed.

(** X6. Manual refreshes started through the button never overlap:
    the button is disabled while [refreshing] is set, [refreshing]
    stays set for as long as a refresh is at its sync POST or at the
    fetch that follows, and so at most one refresh is in flight in any
    execution, whatever the replies and however often it is clicked. *)
Theorem refresh_never_overlaps t0 es :
  let w := ui_run es (initial t0) in
  (forall t1 t2 tk1 tk2,
     tasks w !! t1 = Some tk1 -> tasks w !! t2 = Some tk2 ->
     refreshing_task tk1 = true -> refreshing_task tk2 = true -> t1 = t2)
  /\ (forall t tk, tasks w !! t = Some tk -> refreshing_task tk = true ->
        refreshing (dash w) = true
        /\ click_refresh_button w = w).
Proof.
  intros w.
  assert (Hok : refresh_ok w).
  { apply ui_run_refresh_ok. by apply refresh_ok_none. }
  split; [apply (one_refresh _ Hok)|].
  intros t tk Htk Hrt.
  destruct (refresh_ok_holder _ _ _ Hok Htk Hrt) as [Hr _].
  split; [done|]. unfold click_refresh_button.
  by rewrite Hr, orb_true_r.
Qed.

Lemma refresh_never_overlaps_witness :
  refreshing
    (dash (ui_run (sample_mounted ++ [ClickRefresh; ClickRefresh; Tick])
             (initial 0))) = true.
Proof.
  refine (proj1 (proj2 (refresh_never_overlaps 0
            (sample_mounted ++ [ClickRefresh; ClickRefresh; Tick]))
            2%nat AwaitSyncPost _ _)); reflexivity.
Defined.

(** ** What a single event can do *)

Lemma settle_rejection r got e :
  settle r got = FirstRejection e ->
  mandatory_failure r = Some e /\ filled (endpoint_of r) got = false.
Proof.
  destruct r as [[]|[]|[]|[]|[]|[]], got as [[] [] [] [] [] []]; cbn;
    intros H; try done; by injection H as ->.
Qed.

Lemma tick_display w :
  display (dash (tick w)) = display (dash w)
  /\ logouts (tick w) = logouts w.
Proof.
  unfold tick. split.
  - rewrite run_callbacks_dash. cbn. by destruct (existsb _ _).
  - by destruct (run_callbacks_trace
                   (List.filter (is_due (now w + 1)) (timers w))
                   (advance w)) as (_ & -> & _).
Qed.

Lemma effect_display w :
  display (dash (effect_body w)) = display (dash w)
  /\ logouts (effect_body w) = logouts w
  /\ display (dash (effect_cleanup w)) = display (dash w)
  /\ logouts (effect_cleanup w) = logouts w.
Proof.
  unfold effect_body, effect_cleanup, clear_polling.
  by destruct (pollingIntervalRef (dash w)).
Qed.

(** X18. The page never shows a half-updated dashboard: an event
    either leaves all six display entities as they are, or it is the
    reply that completes a fetch cycle, every request of which was
    answered, and it replaces all six at once with the data of that
    cycle and stamps the update with the current time. *)
Theorem display_atomic (e : event) (w : World) :
  display (dash (step e w)) = display (dash w)
  \/ exists t r silent got k v,
       e = GetSettled t r
       /\ tasks w !! t = Some (AwaitAll silent got k)
       /\ settle r got = AllFulfilled v
       /\ display (dash (step e w))
          = {| d_userInfo := Some (user_data v);
               d_overview := Some (overview_data v);
               d_ordersByDate := ordersDate_data v;
               d_topCustomers := topCustomers_data v;
               d_recentOrders := recentOrders_data v;
               d_webhookStatus := webhook_data v |}
       /\ lastDashboardUpdate (dash (step e w)) = now w.
Proof.
  destruct e as [t r|t r| | | | |]; cbn [step].
  - destruct (tasks w !! t) as [[silent got k| |]|] eqn:Ht; try by left.
    destruct (settle r got) as [|got'|v|err] eqn:Hs; try by left.
    + right. exists t, r, silent, got, k, v.
      destruct (fetch_fulfilled_display silent k v (finish t w))
        as (Hd & Hl).
      by rewrite Hd, Hl.
    + left. by destruct (fetch_rejected_frame silent k err (finish t w))
        as (_ & _ & _ & _ & _ & -> & _).
  - left. destruct (tasks w !! t) as [[silent got k| |]|]; try done;
      destruct r as [[]|err]; cbn; try done.
    by destruct (auth_rejected err).
  - left. apply tick_display.
  - by left.
  - left. apply effect_display.
  - left. apply effect_display.
  - by left.
Qed.

(** X19. The session is ended only for a reason: an event calls
    [onLogout] at most once, and only when it is a click on the Logout
    button, a 401 or 403 on a mandatory request that rejects a pending
    fetch cycle, or a 401 or 403 on the sync request of a manual
    refresh; and each of these does call it.  A failure of the
    webhook-status request or of the registration request never ends
    the session, nor does a timer, a click on the refresh button or
    the effect. *)
Theorem logout_causes (e : event) (w : World) :
  (logouts (step e w) = logouts w
   \/ logouts (step e w) = S (logouts w))
  /\ (logouts (step e w) = S (logouts w)
      <-> e = ClickLogout
          \/ exists t err,
               auth_rejected err = true
               /\ ((exists r silent got k,
                      e = GetSettled t r
                      /\ tasks w !! t = Some (AwaitAll silent got k)
                      /\ filled (endpoint_of r) got = false
                      /\ mandatory_failure r = Some err)
                   \/ (e = PostSettled t (Rejected err)
                       /\ tasks w !! t = Some AwaitSyncPost))).
Proof.
  assert (Hno : forall n : nat, n = S n -> False) by (intros; lia).
  destruct e as [t r|t r| | | | |]; cbn [step].
  - destruct (tasks w !! t) as [[silent got k| |]|] eqn:Ht.
    + destruct (settle r got) as [|got'|v|err] eqn:Hs.
      * split; [by left|]. split; [intros H; by apply Hno in H|].
        intros [|(t' & err & Hau & [(r' & s' & g' & k' & [= <- <-] & Ht' & Hf & Hm)|[? _]])];
          try done.
        rewrite Ht in Ht'. injection Ht' as <- <- <-.
        rewrite (settle_failure _ _ _ Hf Hm) in Hs. done.
      * split; [by left|]. split; [intros H; by apply Hno in H|].
        intros [|(t' & err & Hau & [(r' & s' & g' & k' & [= <- <-] & Ht' & Hf & Hm)|[? _]])];
          try done.
        rewrite Ht in Ht'. injection Ht' as <- <- <-.
        rewrite (settle_failure _ _ _ Hf Hm) in Hs. done.
      * assert (Heq : logouts (fetch_fulfilled silent k v (finish t w))
                      = logouts w).
        { unfold logouts. rewrite fetch_fulfilled_trace.
          by destruct (triggers v (finish t w)). }
        rewrite Heq.
        split; [by left|]. split; [intros H; by apply Hno in H|].
        intros [|(t' & err & Hau & [(r' & s' & g' & k' & [= <- <-] & Ht' & Hf & Hm)|[? _]])];
          try done.
        rewrite Ht in Ht'. injection Ht' as <- <- <-.
        rewrite (settle_failure _ _ _ Hf Hm) in Hs. done.
      * destruct (fetch_rejected_frame silent k err (finish t w))
          as (_ & _ & _ & _ & _ & _ & _ & Htr).
        apply settle_rejection in Hs as [Hm Hf].
        unfold logouts. rewrite Htr.
        destruct (auth_rejected err) eqn:Hau; cbn.
        -- split; [by right|]. split; [intros _|done].
           right. exists t, err. split; [done|]. left.
           by exists r, silent, got, k.
        -- split; [by left|]. split; [intros H; by apply Hno in H|].
           intros [|(t' & err' & Hau' & [(r' & s' & g' & k' & [= <- <-] & Ht' & Hf' & Hm')|[? _]])];
             try done.
           congruence.
    + split; [by left|]. split; [intros H; by apply Hno in H|].
      intros [|(t' & err & Hau & [(r' & s' & g' & k' & [= <- <-] & Ht' & _)|[? _]])];
        try done.
      congruence.
    + split; [by left|]. split; [intros H; by apply Hno in H|].
      intros [|(t' & err & Hau & [(r' & s' & g' & k' & [= <- <-] & Ht' & _)|[? _]])];
        try done.
      congruence.
    + split; [by left|]. split; [intros H; by apply Hno in H|].
      intros [|(t' & err & Hau & [(r' & s' & g' & k' & [= <- <-] & Ht' & _)|[? _]])];
        try done.
      congruence.
  - destruct (tasks w !! t) as [[silent got k| |]|] eqn:Ht.
    + split; [by left|]. split; [intros H; by apply Hno in H|].
      intros [|(t' & err & Hau & [(? & ? & ? & ? & ? & _)|[[= <- ->] Ht']])];
        try done.
      congruence.
    + assert (Heq : logouts (setup_settled r (emit [Answered t] (finish t w)))
                    = logouts w) by by destruct r.
      rewrite Heq.
      split; [by left|]. split; [intros H; by apply Hno in H|].
      intros [|(t' & err & Hau & [(? & ? & ? & ? & ? & _)|[[= <- ->] Ht']])];
        try done.
      congruence.
    + destruct r as [[]|err]; cbn.
      * split; [by left|]. split; [intros H; by apply Hno in H|].
        by intros [|(t' & err & Hau & [(? & ? & ? & ? & ? & _)|[? _]])].
      * destruct (auth_rejected err) eqn:Hau; cbn.
        -- split; [by right|]. split; [intros _|done].
           right. exists t, err. split; [done|]. by right.
        -- split; [by left|]. split; [intros H; by apply Hno in H|].
           intros [|(t' & err' & Hau' & [(? & ? & ? & ? & ? & _)|[[= <- <-] _]])];
             try done.
           congruence.
    + split; [by left|]. split; [intros H; by apply Hno in H|].
      intros [|(t' & err & Hau & [(? & ? & ? & ? & ? & _)|[[= <- ->] Ht']])];
        try done.
      congruence.
  - destruct (tick_display w) as [_ ->].
    split; [by left|]. split; [intros H; by apply Hno in H|].
    by intros [|(t' & err & Hau & [(? & ? & ? & ? & ? & _)|[? _]])].
  - split; [by left|]. split; [intros H; by apply Hno in H|].
    by intros [|(t' & err & Hau & [(? & ? & ? & ? & ? & _)|[? _]])].
  - destruct (effect_display w) as (_ & -> & _).
    split; [by left|]. split; [intros H; by apply Hno in H|].
    by intros [|(t' & err & Hau & [(? & ? & ? & ? & ? & _)|[? _]])].
  - destruct (effect_display w) as (_ & _ & _ & ->).
    split; [by left|]. split; [intros H; by apply Hno in H|].
    by intros [|(t' & err & Hau & [(? & ? & ? & ? & ? & _)|[? _]])].
  - split; [by right|]. split; [by left|done].
Qed.

(** * Further properties of the views, the session gate and the forms *)

(** ** The average order value, again *)

Lemma strip_exp p e : e <= (JS.strip p e).2.
Proof.
  revert e. induction p as [p IH|p IH|]; intros e; cbn; try lia.
  specialize (IH (e + 1)). lia.
Qed.

Lemma normal_shape neg m e :
  0 <= e ->
  exists m' e', JS.normal neg m e = JS.Fin neg m' e' /\ 0 <= e'.
Proof.
  intros He. destruct m as [|p|p]; cbn; try by exists 0, 0.
  pose proof (strip_exp p e) as Hs. destruct (JS.strip p e) as [p' e'].
  cbn in Hs. exists (Z.pos p'), e'. split; [done|lia].
Qed.

Lemma round_ratio_not_nan neg n d : JS.round_ratio neg n d <> JS.NaN.
Proof.
  unfold JS.round_ratio. cbv zeta.
  repeat match goal with
         | |- context [if ?b then _ else _] => destruct b
         end; try done;
    unfold JS.normal;
    repeat match goal with
           | |- context [match ?x with _ => _ end] => destruct x
           end; done.
Qed.

Lemma round_shape x :
  JS.round x = JS.NaN /\ x = JS.NaN
  \/ (exists b, JS.round x = JS.Inf b /\ x = JS.Inf b)
  \/ (exists neg m e, JS.round x = JS.Fin neg m e /\ 0 <= e
                      /\ exists n' m' e', x = JS.Fin n' m' e').
Proof.
  destruct x as [|b|neg m e]; [by left|right; left; by exists b|].
  right. right. cbn.
  destruct (0 <=? e) eqn:He.
  - apply Z.leb_le in He. exists neg, m, e. eauto 10.
  - destruct (_ =? 0).
    + exists neg, 0, 0. split; [done|]. split; [lia|eauto].
    + match goal with
      | |- context [JS.normal ?a ?b 0] =>
          destruct (normal_shape a b 0 ltac:(done)) as (m' & e' & -> & He')
      end.
      eauto 10.
Qed.

Lemma gt_zero_cases y :
  JS.gt y JS.zero = true ->
  y = JS.Inf false \/ exists neg m e, y = JS.Fin neg m e /\ m <> 0.
Proof.
  destruct y as [|[]|neg m e]; cbn; try done; [by left|].
  unfold JS.fin_compare. cbn. intros H. right.
  destruct (_ ?= _) eqn:Hc; try done. apply Z.compare_gt_iff in Hc.
  exists neg, m, e. split; [done|]. intros ->. destruct neg; cbn in Hc; lia.
Qed.

Lemma div_nan x y :
  JS.gt y JS.zero = true ->
  JS.div x y = JS.NaN
  <-> x = JS.NaN \/ ((exists b, x = JS.Inf b) /\ y = JS.Inf false).
Proof.
  intros [-> | (ny & m & e & -> & Hm)]%gt_zero_cases.
  - destruct x as [|b|neg mx ex]; cbn; split; try done; eauto;
      intros [|[[b' ?] _]]; done.
  - apply Z.eqb_neq in Hm.
    destruct x as [|b|neg mx ex]; cbn; rewrite ?Hm;
      split; try done; try (intros [|[_ ?]]; done); [by left|].
    destruct (mx =? 0); [done|]. intros H. by apply round_ratio_not_nan in H.
Qed.

(** X7. The average order value is an integer, [NaN] or an infinity,
    never a fraction; it is [NaN] exactly when the order count is
    positive and the revenue does not parse as a number, or both are
    infinite. *)
Theorem avgOrderValue_shape (overview : option Overview) :
  (avgOrderValue overview = JS.NaN
   \/ (exists b, avgOrderValue overview = JS.Inf b)
   \/ (exists neg m e, avgOrderValue overview = JS.Fin neg m e /\ 0 <= e))
  /\ (avgOrderValue overview = JS.NaN
      <-> exists ov,
            overview = Some ov
            /\ JS.gt (JS.Number (total_orders ov)) JS.zero = true
            /\ (JS.Number (total_revenue ov) = JS.NaN
                \/ ((exists b, JS.Number (total_revenue ov) = JS.Inf b)
                    /\ JS.Number (total_orders ov) = JS.Inf false))).
Proof.
  destruct overview as [ov|]; cbn [avgOrderValue].
  - destruct (JS.gt (JS.Number (total_orders ov)) JS.zero) eqn:Hgt.
    + split.
      * destruct (round_shape (JS.div (JS.Number (total_revenue ov))
                                 (JS.Number (total_orders ov))))
          as [[-> _]|[(b & -> & _)|(neg & m & e & -> & He & _)]]; eauto 10.
      * split.
        -- intros H.
           destruct (round_shape (JS.div (JS.Number (total_revenue ov))
                                    (JS.Number (total_orders ov))))
             as [[_ Hx]|[(b & Hr & _)|(neg & m & e & Hr & _)]];
             [|congruence|congruence].
           exists ov. split; [done|]. split; [done|].
           by apply (div_nan _ _ Hgt).
        -- intros (ov' & [= <-] & _ & Hd).
           apply (div_nan _ _ Hgt) in Hd. by rewrite Hd.
    + split; [right; right; by exists false, 0, 0|].
      split; [done|]. intros (ov' & [= <-] & Hgt' & _). congruence.
  - split; [right; right; by exists false, 0, 0|].
    split; [done|]. by intros (ov' & ? & _).
Qed.

(** X8. The first version of the page computed the average without
    the guard: it agrees with the guarded one whenever the order count
    is positive (and for an absent overview), but on a zero order
    count it yields [NaN] or an infinity where the guarded one yields
    [0]. *)
Theorem unguarded_average (overview : option Overview) :
  ((forall ov, overview = Some ov ->
      JS.gt (JS.Number (total_orders ov)) JS.zero = true) ->
   TenantPage.avgOrderValue overview = avgOrderValue overview)
  /\ (forall ov neg e,
        overview = Some ov ->
        JS.Number (total_orders ov) = JS.Fin neg 0 e ->
        avgOrderValue overview = JS.zero
        /\ (TenantPage.avgOrderValue overview = JS.NaN
            \/ exists b, TenantPage.avgOrderValue overview = JS.Inf b)).
Proof.
  destruct overview as [ov|]; cbn [avgOrderValue TenantPage.avgOrderValue].
  - split.
    + intros H. by rewrite (H ov eq_refl).
    + intros ov' neg e [= <-] Hz. rewrite Hz. split.
      * cbn. unfold JS.fin_compare. cbn. by destruct neg.
      * destruct (JS.Number (total_revenue ov)) as [|b|nx mx ex]; cbn;
          [by left|right; eauto|].
        destruct (mx =? 0); [by left|right; eauto].
  - split; [done|]. by intros ov neg e.
Qed.

Lemma unguarded_average_witness :
  TenantPage.avgOrderValue (Some sample_overview)
  = avgOrderValue (Some sample_overview)
  /\ (TenantPage.avgOrderValue
        (Some {| total_customers := "0"; total_orders := "0";
                 total_revenue := "0"; currency := "INR" |}) = JS.NaN
      \/ exists b,
           TenantPage.avgOrderValue
             (Some {| total_customers := "0"; total_orders := "0";
                      total_revenue := "0"; currency := "INR" |})
           = JS.Inf b).
Proof.
  split.
  - apply (proj1 (unguarded_average (Some sample_overview))).
    intros ov [= <-]. reflexivity.
  - eapply (proj2 (unguarded_average (Some _))); reflexivity.
Defined.

(** ** Derived view values *)

(** X9. The activity strip is shown only for an active integration
    with at least one event, and then shows the first events in their
    order, three at most, all of them when there are no more than
    three; otherwise it is not rendered. *)
Theorem recent_activity_bounds (webhookStatus : option WebhookStatus) :
  (forall shown,
     recent_activity webhookStatus = Some shown ->
     exists ws,
       webhookStatus = Some ws /\ webhooks_active ws = true
       /\ shown <> []
       /\ length shown = Nat.min 3 (length (events ws))
       /\ shown `prefix_of` events ws
       /\ ((length (events ws) <= 3)%nat -> shown = events ws))
  /\ (recent_activity webhookStatus = None
      <-> forall ws, webhookStatus = Some ws ->
                     events ws = [] \/ webhooks_active ws = false).
Proof.
  destruct webhookStatus as [ws|]; unfold recent_activity;
    [|split; [done|by split]].
  destruct (0 <? length (events ws))%nat eqn:Hlen;
    destruct (webhooks_active ws) eqn:Ha; cbn [andb].
  - apply Nat.ltb_lt in Hlen. split.
    + intros shown [= <-]. exists ws. split; [done|]. split; [done|].
      split; [|split; [|split]].
      * destruct (events ws); cbn in *; [lia|done].
      * apply length_take.
      * apply prefix_take.
      * intros Hle. by apply take_ge.
    + split; [done|]. intros H.
      destruct (H ws eq_refl) as [He|]; [|congruence].
      rewrite He in Hlen. cbn in Hlen. lia.
  - split; [done|]. split; [|done]. intros _ ws' [= <-]. by right.
  - apply Nat.ltb_ge in Hlen. split; [done|]. split; [|done].
    intros _ ws' [= <-]. left. destruct (events ws); cbn in *; [done|lia].
  - split; [done|]. split; [|done]. intros _ ws' [= <-]. by right.
Qed.

Lemma recent_activity_bounds_witness :
  exists ws,
    Some sample_live = Some ws /\ webhooks_active ws = true
    /\ [sample_event 1; sample_event 2; sample_event 3] <> []
    /\ length [sample_event 1; sample_event 2; sample_event 3]
       = Nat.min 3 (length (events ws))
    /\ [sample_event 1; sample_event 2; sample_event 3]
         `prefix_of` events ws
    /\ ((length (events ws) <= 3)%nat ->
        [sample_event 1; sample_event 2; sample_event 3] = events ws).
Proof.
  refine (proj1 (recent_activity_bounds (Some sample_live))
            [sample_event 1; sample_event 2; sample_event 3] _).
  reflexivity.
Defined.

Lemma imap_badges {A} (l : list A) (n : nat) :
  map fst (imap (fun i x => (x, (n + i <? 3)%nat)) l) = l
  /\ map fst (List.filter snd (imap (fun i x => (x, (n + i <? 3)%nat)) l))
     = take (3 - n) l.
Proof.
  revert n. induction l as [|x l IH]; intros n; [by destruct (3 - n)%nat|].
  cbn [imap map].
  assert (imap ((fun i x0 => (x0, (n + i <? 3)%nat)) ∘ S) l
          = imap (fun i x0 => (x0, (S n + i <? 3)%nat)) l) as ->.
  { apply imap_ext. intros i y _. cbn. by rewrite Nat.add_succ_r. }
  destruct (IH (S n)) as [-> Hb]. split; [done|].
  cbn [List.filter snd]. rewrite Nat.add_0_r.
  destruct (n <? 3)%nat eqn:Hn.
  - apply Nat.ltb_lt in Hn. cbn [map fst]. rewrite Hb.
    replace (3 - n)%nat with (S (3 - S n)) by lia. done.
  - apply Nat.ltb_ge in Hn. rewrite Hb.
    replace (3 - S n)%nat with 0%nat by lia.
    replace (3 - n)%nat with 0%nat by lia. done.
Qed.

(** X10. The orders table keeps every fetched order, in the order
    fetched, and marks as new exactly the first three; only an empty
    list gives the placeholder row. *)
Theorem order_rows_badges (recentOrders : list RecentOrder) :
  (order_rows recentOrders = NoOrders <-> recentOrders = [])
  /\ (forall rows,
        order_rows recentOrders = Rows rows ->
        map fst rows = recentOrders
        /\ map fst (List.filter snd rows) = take 3 recentOrders).
Proof.
  destruct recentOrders as [|o os]; [by split|].
  split; [by split|]. intros rows [= <-].
  apply (imap_badges (o :: os) 0).
Qed.

Lemma order_rows_badges_witness :
  map fst
    [(sample_order 1, true); (sample_order 2, true);
     (sample_order 3, true); (sample_order 4, false)]
  = [sample_order 1; sample_order 2; sample_order 3; sample_order 4]
  /\ map fst
       (List.filter snd
          [(sample_order 1, true); (sample_order 2, true);
           (sample_order 3, true); (sample_order 4, false)])
     = take 3
         [sample_order 1; sample_order 2; sample_order 3; sample_order 4].
Proof.
  refine (proj2 (order_rows_badges
            [sample_order 1; sample_order 2; sample_order 3;
             sample_order 4]) _ _).
  reflexivity.
Defined.

(** ** The session gate *)

Lemma bearer_inj (a b : string) :
  ("Bearer " ++ a)%string = ("Bearer " ++ b)%string -> a = b.
Proof. intros H. vm_compute in H. by injection H. Qed.

Lemma home_authenticated_step e s :
  (Home.isAuthenticated s = true ->
   is_Some (Home.localStorage s !! "authToken"%string)) ->
  Home.isAuthenticated (Home.step e s) = true ->
  is_Some (Home.localStorage (Home.step e s) !! "authToken"%string).
Proof.
  intros Hinv. destruct e as [|tok| |v|]; cbn.
  - destruct (Home.localStorage s !! "authToken"%string) as [t|]; [eauto|].
    done.
  - intros _. rewrite lookup_insert_eq. eauto.
  - done.
  - done.
  - destruct (Home.localStorage s !! "authToken"%string) as [t|]; [eauto|].
    done.
Qed.

Lemma home_authenticated_run es s :
  (Home.isAuthenticated s = true ->
   is_Some (Home.localStorage s !! "authToken"%string)) ->
  Home.isAuthenticated (Home.run es s) = true ->
  is_Some (Home.localStorage (Home.run es s) !! "authToken"%string).
Proof.
  revert s. induction es as [|e es IH]; intros s H0; [done|].
  cbn. apply IH. by apply home_authenticated_step.
Qed.

(** X11. Whatever storage the page starts from and whatever happens,
    the session gate is authenticated only while a token is stored, so
    whenever it renders the dashboard, the [Authorization] header the
    dashboard builds carries that stored token and not the text of a
    missing key. *)
Theorem home_token_invariant ls es :
  let s := Home.run es (Home.initial ls) in
  (Home.isAuthenticated s = true ->
   is_Some (Home.localStorage s !! "authToken"%string))
  /\ (Home.render s = Home.DashboardScreen ->
      exists token,
        Home.localStorage s !! "authToken"%string = Some token
        /\ getAuthHeaders (Home.localStorage s)
           = ("Bearer " ++ token)%string).
Proof.
  intros s.
  assert (Hinv : Home.isAuthenticated s = true ->
                 is_Some (Home.localStorage s !! "authToken"%string)).
  { apply home_authenticated_run. done. }
  split; [done|]. unfold Home.render.
  destruct (Home.loading s); [done|].
  destruct (Home.isAuthenticated s); cbn; [|by destruct (Home.showRegister s)].
  intros _. destruct (Hinv eq_refl) as [token Htok].
  exists token. split; [done|]. unfold getAuthHeaders. by rewrite Htok.
Qed.

Lemma home_token_invariant_witness :
  is_Some
    (Home.localStorage
       (Home.run [Home.MountEffect; Home.SwitchTo true;
                  Home.LoginSucceeded "t0k3n"; Home.Reloaded]
          (Home.initial ∅)) !! "authToken"%string).
Proof.
  refine (proj1 (home_token_invariant ∅
            [Home.MountEffect; Home.SwitchTo true;
             Home.LoginSucceeded "t0k3n"; Home.Reloaded]) _).
  reflexivity.
Defined.

(** X12. A session survives a page load exactly when the stored token
    is a non-empty string: after a login with a non-empty token the
    reloaded page shows the dashboard, after a login with an empty
    token or after a logout it shows the login form; and a reload
    always lands on the login form, never on the register form. *)
Theorem home_reload (s : Home.state) :
  (Home.render (Home.reload s) = Home.DashboardScreen
   <-> exists token,
         Home.localStorage s !! "authToken"%string = Some token
         /\ token <> ""%string)
  /\ (forall token,
        Home.render (Home.reload (Home.handleLoginSuccess token s))
        = if truthy token then Home.DashboardScreen else Home.LoginScreen)
  /\ Home.render (Home.reload (Home.handleLogout s)) = Home.LoginScreen
  /\ Home.render (Home.reload s) <> Home.RegisterScreen
  /\ Home.render (Home.reload s) <> Home.LoadingScreen.
Proof.
  assert (Htruthy : forall t, truthy t = true <-> t <> ""%string).
  { intros t. unfold truthy. rewrite negb_true_iff.
    split.
    - intros H ->. done.
    - intros H. by apply String.eqb_neq. }
  unfold Home.reload, Home.render. cbn.
  split; [|split; [|split; [|split]]].
  - destruct (Home.localStorage s !! "authToken"%string) as [t|] eqn:Hl;
      cbn.
    + destruct (truthy t) eqn:Ht; cbn; split; try done.
      * intros _. exists t. split; [done|]. by apply Htruthy.
      * intros (t' & [= <-] & Hne). apply Htruthy in Hne. congruence.
    + split; [done|]. by intros (t' & ? & _).
  - intros token. rewrite lookup_insert_eq. by destruct (truthy token).
  - by rewrite lookup_delete_eq.
  - destruct (Home.localStorage s !! "authToken"%string) as [t|]; cbn;
      [destruct (truthy t); cbn|]; congruence.
  - destruct (Home.localStorage s !! "authToken"%string) as [t|]; cbn;
      [destruct (truthy t); cbn|]; congruence.
Qed.

(** ** The forms *)

Lemma truthy_nonempty (t : string) : truthy t = true <-> t <> ""%string.
Proof.
  unfold truthy. rewrite negb_true_iff. split.
  - by intros H ->.
  - intros H. by apply String.eqb_neq.
Qed.

Lemma or_default_nonempty (a : option string) (b : string) :
  b <> ""%string -> or_default a b <> ""%string.
Proof.
  intros Hb. unfold or_default. destruct a as [t|]; [|done].
  destruct (truthy t) eqn:Ht; [|done]. by apply truthy_nonempty.
Qed.

Lemma or_default_cases (a : option string) (b : string) :
  or_default a b = b \/ a = Some (or_default a b).
Proof.
  unfold or_default. destruct a as [t|]; [|by left].
  destruct (truthy t); [by right|by left].
Qed.

Lemma granted_spec (d : AuthResponse) (tok : string) :
  granted d = Some tok
  <-> success d = true /\ token d = Some tok /\ tok <> ""%string.
Proof.
  unfold granted. destruct (success d); [|by split; [|intros (? & _)]].
  destruct (token d) as [t|]; [|by split; [|intros (_ & ? & _)]].
  destruct (truthy t) eqn:Ht; split.
  - intros [= ->]. by rewrite <- truthy_nonempty.
  - by intros (_ & [= ->] & _).
  - done.
  - intros (_ & [= ->] & Hne). apply truthy_nonempty in Hne. congruence.
Qed.

(** X13. Submitting the register form always ends with the spinner off
    and the typed values kept.  [onSuccess] is called, with the token,
    exactly when the answer has a body that says [success] and carries
    a non-empty token; then no error is shown.  In every other case an
    error text is shown, and it is empty only when an [Error] with an
    empty message was thrown. *)
Theorem register_outcome
    (r : option AuthResponse + thrown) (s : RegisterForm.state) :
  let done_ :=
    RegisterForm.submit_settled r (RegisterForm.handleSubmit s).1 in
  RegisterForm.loading done_.1 = false
  /\ RegisterForm.formData done_.1 = RegisterForm.formData s
  /\ (forall tok,
        done_.2 = Some tok
        <-> exists d, r = inl (Some d) /\ success d = true
                      /\ token d = Some tok /\ tok <> ""%string)
  /\ (done_.2 <> None -> RegisterForm.error done_.1 = ""%string)
  /\ (done_.2 = None ->
      (RegisterForm.error done_.1 = ""%string
       <-> r = inr (ErrorObject ""))).
Proof.
  assert (Hrf : "Registration failed"%string <> ""%string) by done.
  cbn zeta. split; [|split; [|split; [|split]]].
  - destruct r as [[d|]|[se m|m|t]]; cbn; try done.
    by destruct (granted d).
  - destruct r as [[d|]|[se m|m|t]]; cbn; try done.
    by destruct (granted d).
  - intros tok. destruct r as [[d|]|[se m|m|t]]; cbn;
      try (split; [done|by intros (? & ? & _)]).
    destruct (granted d) as [t|] eqn:Hg; cbn.
    + apply granted_spec in Hg as (Hs & Ht & Hne). split.
      * intros [= <-]. by exists d.
      * intros (d' & [= <-] & _ & Ht' & _). congruence.
    + split; [done|]. intros (d' & [= <-] & Hs & Ht & Hne).
      assert (granted d = Some tok) by by apply granted_spec.
      congruence.
  - destruct r as [[d|]|[se m|m|t]]; cbn; try done.
    by destruct (granted d).
  - destruct r as [[d|]|[se m|m|t]]; cbn.
    + destruct (granted d); cbn; [done|]. intros _.
      split; [|done]. intros H. by apply or_default_nonempty in H.
    + done.
    + intros _. split; [|done].
      destruct (truthy (or_default se m)) eqn:Ht; [|done].
      intros H. apply truthy_nonempty in Ht. done.
    + intros _. split; [by intros ->|by intros [= ->]].
    + done.
Qed.

Lemma register_outcome_witness :
  RegisterForm.error
    (RegisterForm.submit_settled
       (inl (Some {| success := true; token := Some "t0k3n"%string;
                     error_text := None |}))
       (RegisterForm.handleSubmit RegisterForm.initial).1).1 = ""%string.
Proof.
  refine (proj1 (proj2 (proj2 (proj2
    (register_outcome
       (inl (Some {| success := true; token := Some "t0k3n"%string;
                     error_text := None |}))
       RegisterForm.initial)))) _).
  intros H. discriminate H.
Defined.

(** X14. Submitting the login form always ends with the spinner off and
    the typed values kept.  [onSuccess] is called, with the token,
    exactly when the body says [success] and carries a non-empty token.
    A failure of the request itself shows the server's error text or
    [Login failed], never the transport's message.  The error shown
    after a failure is empty only when an [Error] with an empty message,
    or a value whose text is empty, was thrown. *)
Theorem login_outcome (r : AuthResponse + thrown) (s : LoginForm.state) :
  let done_ := LoginForm.submit_settled r (LoginForm.handleSubmit s).1 in
  LoginForm.loading done_.1 = false
  /\ LoginForm.formData done_.1 = LoginForm.formData s
  /\ (forall tok,
        done_.2 = Some tok
        <-> exists d, r = inl d /\ success d = true
                      /\ token d = Some tok /\ tok <> ""%string)
  /\ (done_.2 <> None -> LoginForm.error done_.1 = ""%string)
  /\ (forall server_error message,
        r = inr (AxiosFailure server_error message) ->
        LoginForm.error done_.1 = "Login failed"%string
        \/ server_error = Some (LoginForm.error done_.1))
  /\ (done_.2 = None ->
      (LoginForm.error done_.1 = ""%string
       <-> r = inr (ErrorObject "") \/ r = inr (OtherValue ""))).
Proof.
  assert (Hlf : "Login failed"%string <> ""%string) by done.
  cbn zeta. split; [|split; [|split; [|split; [|split]]]].
  - destruct r as [d|[se m|m|t]]; cbn; try done.
    by destruct (granted d).
  - destruct r as [d|[se m|m|t]]; cbn; try done.
    by destruct (granted d).
  - intros tok. destruct r as [d|[se m|m|t]]; cbn;
      try (split; [done|by intros (? & ? & _)]).
    destruct (granted d) as [t|] eqn:Hg; cbn.
    + apply granted_spec in Hg as (Hs & Ht & Hne). split.
      * intros [= <-]. by exists d.
      * intros (d' & [= <-] & _ & Ht' & _). congruence.
    + split; [done|]. intros (d' & [= <-] & Hs & Ht & Hne).
      assert (granted d = Some tok) by by apply granted_spec.
      congruence.
  - destruct r as [d|[se m|m|t]]; cbn; try done.
    by destruct (granted d).
  - intros se m ->. cbn. apply or_default_cases.
  - destruct r as [d|[se m|m|t]]; cbn.
    + destruct (granted d); cbn; [done|]. intros _.
      split; [|by intros [|]]. intros H. by apply or_default_nonempty in H.
    + intros _. split; [|by intros [|]].
      intros H. by apply or_default_nonempty in H.
    + intros _. split; [intros ->; by left|by intros [[= ->]|]].
    + intros _. split; [intros ->; by right|by intros [|[= ->]]].
Qed.

Lemma login_outcome_witness :
  LoginForm.error
    (LoginForm.submit_settled
       (inr (AxiosFailure None "Network Error"))
       (LoginForm.handleSubmit LoginForm.initial).1).1
  = "Login failed"%string
  \/ None
     = Some
         (LoginForm.error
            (LoginForm.submit_settled
               (inr (AxiosFailure None "Network Error"))
               (LoginForm.handleSubmit LoginForm.initial).1).1).
Proof.
  exact (proj1 (proj2 (proj2 (proj2 (proj2
    (login_outcome (inr (AxiosFailure None "Network Error"))
       LoginForm.initial)))))
    None "Network Error"%string eq_refl).
Defined.

Lemma home_storage_kept (es : list Home.event) (s : Home.state) :
  forallb keeps_session es = true ->
  Home.localStorage (Home.run es s) = Home.localStorage s.
Proof.
  revert s. induction es as [|e es IH]; intros s H; [done|].
  cbn in H. apply andb_true_iff in H as [He Hes].
  cbn. rewrite IH by done. by destruct e.
Qed.

(** X15. A token that either form hands to [onSuccess] opens a session
    that lasts: the gate is authenticated at once, and after any
    further events other than a logout or another login, a page load
    still lands on the dashboard, whose requests carry that token. *)
Theorem accepted_login_persists
    (r : AuthResponse + thrown) (f : LoginForm.state)
    (r' : option AuthResponse + thrown) (g : RegisterForm.state)
    (tok : string) (h : Home.state) (es : list Home.event) :
  (LoginForm.submit_settled r f).2 = Some tok
  \/ (RegisterForm.submit_settled r' g).2 = Some tok ->
  forallb keeps_session es = true ->
  let h' := Home.handleLoginSuccess tok h in
  Home.isAuthenticated h' = true
  /\ Home.render (Home.reload (Home.run es h')) = Home.DashboardScreen
  /\ getAuthHeaders (Home.localStorage (Home.run es h'))
     = ("Bearer " ++ tok)%string.
Proof.
  intros Hout Hes h'.
  assert (Hne : truthy tok = true).
  { destruct Hout as [H|H].
    - destruct r as [d|[se m|m|t]]; cbn in H; try done.
      destruct (granted d) as [t|] eqn:Hg; [|done].
      injection H as ->. apply granted_spec in Hg as (_ & _ & Hne).
      by apply truthy_nonempty.
    - destruct r' as [[d|]|[se m|m|t]]; cbn in H; try done.
      destruct (granted d) as [t|] eqn:Hg; [|done].
      injection H as ->. apply granted_spec in Hg as (_ & _ & Hne).
      by apply truthy_nonempty. }
  assert (Hls : Home.localStorage (Home.run es h') !! "authToken"%string
                = Some tok).
  { rewrite home_storage_kept by done. cbn. by rewrite lookup_insert_eq. }
  split; [done|]. split.
  - unfold Home.reload, Home.render. cbn. rewrite Hls. cbn.
    by rewrite Hne.
  - unfold getAuthHeaders. by rewrite Hls.
Qed.

Lemma accepted_login_persists_witness :
  Home.render
    (Home.reload
       (Home.run [Home.SwitchTo true; Home.Reloaded; Home.MountEffect]
          (Home.handleLoginSuccess "t0k3n" (Home.initial ∅))))
  = Home.DashboardScreen.
Proof.
  refine (proj1 (proj2
    (accepted_login_persists
       (inl {| success := true; token := Some "t0k3n"%string;
               error_text := None |})
       LoginForm.initial (inl None) RegisterForm.initial
       "t0k3n" (Home.initial ∅)
       [Home.SwitchTo true; Home.Reloaded; Home.MountEffect] _ _))).
  - left. reflexivity.
  - reflexivity.
Defined.

Lemma type_in_lookup (cs : list (string * string))
    (s : RegisterForm.state) (name : string) :
  RegisterForm.formData (RegisterForm.type_in cs s) !! name
  = match last_typed name cs with
    | Some v => Some v
    | None => RegisterForm.formData s !! name
    end.
Proof.
  revert s. induction cs as [|[n v] cs IH]; intros s; [done|].
  cbn. unfold RegisterForm.type_in in IH. rewrite IH.
  destruct (last_typed name cs); [done|]. cbn.
  destruct (String.eqb n name) eqn:Hn.
  - apply String.eqb_eq in Hn as ->. by rewrite lookup_insert_eq.
  - apply String.eqb_neq in Hn. by rewrite lookup_insert_ne.
Qed.

Lemma last_typed_other (name : string) (cs : list (string * string)) :
  Forall (fun c => c.1 <> name) cs -> last_typed name cs = None.
Proof.
  induction 1 as [|[n v] cs Hn _ IH]; [done|].
  cbn. rewrite IH. cbn in Hn.
  by rewrite (proj2 (String.eqb_neq n name)).
Qed.

(** X16. Whatever is typed into the inputs the register form renders,
    the body it posts holds, for each input, the last value typed into
    it (the empty string if none was), the [scopes] it started with,
    and no other field. *)
Theorem register_typed_values (cs : list (string * string)) :
  Forall (fun c => c.1 ∈ RegisterForm.inputs) cs ->
  let body :=
    (RegisterForm.handleSubmit
       (RegisterForm.type_in cs RegisterForm.initial)).2 in
  body !! "scopes"%string = Some RegisterForm.default_scopes
  /\ (forall name, name ∈ RegisterForm.inputs ->
        body !! name = Some (default ""%string (last_typed name cs)))
  /\ (forall name, is_Some (body !! name)
        <-> name ∈ "scopes"%string :: RegisterForm.inputs).
Proof.
  intros Hcs body. subst body. cbn [RegisterForm.handleSubmit snd].
  assert (Hin : forall name, name ∈ RegisterForm.inputs ->
            RegisterForm.formData RegisterForm.initial !! name
            = Some ""%string).
  { intros name Hn. unfold RegisterForm.inputs in Hn.
    repeat (apply elem_of_cons in Hn as [->|Hn]; [by vm_compute|]).
    by apply elem_of_nil in Hn. }
  split; [|split].
  - rewrite type_in_lookup, last_typed_other; [done|].
    eapply Forall_impl; [exact Hcs|]. intros [n v] Hn Heq.
    cbn in Hn, Heq. subst n. unfold RegisterForm.inputs in Hn.
    repeat (apply elem_of_cons in Hn as [Hn|Hn]; [done|]).
    by apply elem_of_nil in Hn.
  - intros name Hn. rewrite type_in_lookup.
    destruct (last_typed name cs); [done|]. by apply Hin.
  - intros name. rewrite type_in_lookup.
    destruct (last_typed name cs) as [v|] eqn:Hl.
    + split; [intros _|by eexists].
      apply elem_of_cons. right.
      clear Hin. induction Hcs as [|[n v'] cs Hn _ IH]; [done|].
      cbn in Hl. destruct (last_typed name cs); [by apply IH|].
      cbn in Hl. destruct (String.eqb n name) eqn:Hnn; [|done].
      apply String.eqb_eq in Hnn as <-. exact Hn.
    + split.
      * intros [v Hv]. cbn in Hv.
        repeat (apply lookup_insert_Some in Hv as [[<- _]|[_ Hv]];
                [set_solver|]).
        done.
      * intros Hn. apply elem_of_cons in Hn as [->|Hn];
          [by eexists|]. rewrite Hin by done. by eexists.
Qed.

Lemma register_typed_values_witness :
  (RegisterForm.handleSubmit
     (RegisterForm.type_in
        [("email", "a@b.c"); ("password", "x"); ("email", "d@e.f")]%string
        RegisterForm.initial)).2 !! "scopes"%string
  = Some RegisterForm.default_scopes.
Proof.
  refine (proj1 (register_typed_values
    [("email", "a@b.c"); ("password", "x"); ("email", "d@e.f")]%string _)).
  repeat constructor; cbn; set_solver.
Defined.

(** ** The [Authorization] header *)

(** X17. Two storages give the same [Authorization] header exactly when
    they hold the same token, a missing token counting as the token
    [null]: the header of a signed-out browser is the header of the
    token [null], and otherwise different tokens give different
    headers. *)
Theorem getAuthHeaders_collision (ls ls' : gmap string string) :
  (getAuthHeaders ls = getAuthHeaders ls'
   <-> default "null"%string (stored_token ls)
       = default "null"%string (stored_token ls'))
  /\ getAuthHeaders (delete "authToken"%string ls)
     = getAuthHeaders (<["authToken"%string := "null"%string]> ls').
Proof.
  split.
  - unfold getAuthHeaders, stored_token.
    destruct (ls !! "authToken"%string), (ls' !! "authToken"%string);
      cbn; (split; [apply bearer_inj|intros H; by f_equal]).
  - unfold getAuthHeaders.
    by rewrite lookup_delete_eq, lookup_insert_eq.
Qed.
